(** * SideRedis: the key-space trie, the connection manager and the scan session

    A shallow embedding of
      - [side_redis/ui/keys_browser.py]: class [_PrefixTree] ([insert],
        [recount], [to_nodes]) and the session methods of [KeysBrowser]
        ([_search], [_refresh], [_try_exact_key], the body of the
        [load_all_thread] loop);
      - [side_redis/redis_client.py]: class [ThreadSafeRedisManager]
        ([connect], [disconnect], [select_db], [execute] and the key
        operations [scan_keys], [get_db_size], [get_key_type]);
      - the slots of [KeysBrowser] ([_load_more], [_finish_load_all],
        [_on_item_clicked], [_on_db_change], [_add_nodes]);
      - [side_redis/connection_store.py] with its callers [try_connect]
        ([side_redis/main.py]) and [do_connect]
        ([side_redis/ui/connection.py]);
      - [side_redis/ui/terminal.py]: the history and the text of a reply.

    Conventions.
      - A Python [str] is a [string]; [str.split(":")] and the f-string
        that builds a node id work character by character, [str.lower] is
        modelled on the ASCII letters.
      - A Python [dict] is an association list in insertion order (the
        order matters: [sorted] is stable and breaks ties by it).
      - A Python [set] of strings is a [gset string].
      - A Python [int] is a [Z].
      - Mutation of an object is explicit state passing: a method returns
        the new state of [self] next to its return value.
      - Calls into the Redis server are answered by an explicit outcome
        value supplied by the caller of the embedded method. *)

From Stdlib Require Import ZArith List String Ascii Lia Permutation Sorted DecimalString.
From stdpp Require Import base list strings gmap.
Import ListNotations.

#[local] Set Warnings "-register-all,-clear-no-such-hyp".
#[local] Open Scope Z_scope.

(** ** Strings *)

(** [SEPARATOR = ":"] *)
Definition SEPARATOR : string := ":".

Definition sep_char : ascii := ":"%char.

(** [s.split(SEPARATOR)]: the pieces of [s] between the occurrences of the
    one-character separator; never the empty list ([[""]] for [""]). *)
Fixpoint split (s : string) : list string :=
  match s with
  | EmptyString => [EmptyString]
  | String c rest =>
      if Ascii.eqb c sep_char then EmptyString :: split rest
      else match split rest with
           | [] => [String c EmptyString]
           | piece :: pieces => String c piece :: pieces
           end
  end.

(** [SEPARATOR.join(parts)], the inverse of [split]. *)
Fixpoint join (parts : list string) : string :=
  match parts with
  | [] => EmptyString
  | [p] => p
  | p :: rest => p +:+ SEPARATOR +:+ join rest
  end.

Definition lower_char (c : ascii) : ascii :=
  let n := N_of_ascii c in
  if ((65 <=? n) && (n <=? 90))%N then ascii_of_N (n + 32) else c.

(** [str(x).lower()] on ASCII text: the letters A to Z are mapped, every
    other character is kept (Python also maps the upper-case letters
    beyond ASCII). *)
Fixpoint lower (s : string) : string :=
  match s with
  | EmptyString => EmptyString
  | String c rest => String (lower_char c) (lower rest)
  end.

(** [str(n)] for an [int]. *)
Definition str_of_int (n : Z) : string := NilZero.string_of_int (Z.to_int n).

(** ** Dictionaries in insertion order *)

Definition dict (V : Type) : Type := list (string * V).

(** [k in d] *)
Definition dict_contains {V} (k : string) (d : dict V) : bool :=
  existsb (fun kv => String.eqb k (fst kv)) d.

(** [d[k]] *)
Fixpoint dict_get {V} (k : string) (d : dict V) : option V :=
  match d with
  | [] => None
  | (k', v) :: rest => if String.eqb k k' then Some v else dict_get k rest
  end.

(** [d[k] = v] for a key that is not in [d]: the new key comes last. *)
Definition dict_add {V} (k : string) (v : V) (d : dict V) : dict V :=
  d ++ [(k, v)].

(** The object stored under [k] is mutated in place by [f]; the key keeps
    its position. *)
Fixpoint dict_update {V} (k : string) (f : V -> V) (d : dict V) : dict V :=
  match d with
  | [] => []
  | (k', v) :: rest =>
      if String.eqb k k' then (k', f v) :: rest
      else (k', v) :: dict_update k f rest
  end.

(** ** [sorted(xs, key=...)]: a stable sort on string keys *)

Section Sorted.
Context {A : Type} (key : A -> string).

(** [x] goes before the first element whose key is not below its own,
    so that it stays in front of later elements with an equal key. *)
Fixpoint place (x : A) (l : list A) : list A :=
  match l with
  | [] => [x]
  | y :: l' =>
      if String.leb (key x) (key y) then x :: l else y :: place x l'
  end.

Fixpoint sorted (l : list A) : list A :=
  match l with
  | [] => []
  | x :: l' => place x (sorted l')
  end.

(** The order that the sort establishes. *)
Definition key_le (x y : A) : Prop := String.leb (key x) (key y) = true.
End Sorted.

(** ** class [_PrefixTree] *)

(** [__slots__ = ("children", "is_key", "count")]; [children] is [None]
    or a dict from component to child. *)
Inductive _PrefixTree : Type :=
  Node { children : option (dict _PrefixTree); is_key : bool; count : Z }.

(** A display node: the dict [{"id", "label", "icon"}] of a leaf, with
    the extra entry ["children"] for a folder. *)
Inductive DisplayNode : Type :=
  DNode { node_id : string; node_label : string; node_icon : string;
          node_children : option (list DisplayNode) }.

Module PrefixTree.

(** [_PrefixTree()] *)
Definition __init__ : _PrefixTree := Node None false 0.

(** [insert(self, parts)]: the loop walks down from [self], creating
    the dict and the child where they are missing, and sets [is_key]
    on the node it ends at. *)
Fixpoint insert (self : _PrefixTree) (parts : list string) : _PrefixTree :=
  match parts with
  | [] => Node (children self) true (count self)
  | part :: rest =>
      let d0 := match children self with None => [] | Some d => d end in
      let d1 := if dict_contains part d0 then d0 else dict_add part __init__ d0 in
      Node (Some (dict_update part (fun child => insert child rest) d1))
           (is_key self) (count self)
  end.

(** The loop [for child in self.children.values(): total += rec(child)]
    over the dict [d], starting from [total]; every child is replaced
    by its state after the call. *)
Fixpoint recount_values (rec : _PrefixTree -> Z * _PrefixTree)
    (d : dict _PrefixTree) (total : Z) : Z * dict _PrefixTree :=
  match d with
  | [] => (total, [])
  | (segment, child) :: rest =>
      let '(n, child') := rec child in
      let '(total', rest') := recount_values rec rest (total + n) in
      (total', (segment, child') :: rest')
  end.

(** [recount(self, include_children)]: the returned total and [self]
    with the cached counts written. *)
Fixpoint recount (self : _PrefixTree) (include_children : bool)
    : Z * _PrefixTree :=
  match self with
  | Node None k _ =>
      let c := if k then 1 else 0 in
      (c, Node None k c)
  | Node (Some d) k _ =>
      if include_children then
        let '(total, d') :=
          recount_values (fun child => recount child true) d (Z.b2z k) in
        (total, Node (Some d') k total)
      else
        let total := if k then 1 else 0 in
        (total, Node (Some d) k total)
  end.

(** [child_id = f"{prefix}{SEPARATOR}{segment}" if prefix else segment] *)
Definition child_id (prefix segment : string) : string :=
  match prefix with
  | EmptyString => segment
  | _ => prefix +:+ SEPARATOR +:+ segment
  end.

(** One round of the loop of [to_nodes] for [segment] and its child;
    [render] is [child.to_nodes]. The call of [recount] also writes the
    cached counts below [child]; neither [to_nodes] nor [recount] reads
    them, and [to_nodes_state] below gives the trie that results. *)
Definition to_nodes_step (prefix : string)
    (acc : list DisplayNode * list DisplayNode)
    (item : string * (_PrefixTree * (string -> list DisplayNode)))
    : list DisplayNode * list DisplayNode :=
  let '(folders, leaves) := acc in
  let '(segment, (child, render)) := item in
  let cid := child_id prefix segment in
  let leaves :=
    if is_key child then leaves ++ [DNode cid segment "key" None]
    else leaves in
  let folders :=
    match children child with
    | Some _ =>
        let children_count :=
          fst (recount child true) - (if is_key child then 1 else 0) in
        folders ++ [DNode cid (segment +:+ " (" +:+ str_of_int children_count +:+ ")")
                          "folder" (Some (render cid))]
    | None => folders
    end in
  (folders, leaves).

(** [to_nodes(self, prefix)]. Each child is paired with its own
    [to_nodes] before the segments are sorted, so that the recursion is
    structural; the loop then runs over the sorted segments. *)
Fixpoint to_nodes (self : _PrefixTree) (prefix : string) : list DisplayNode :=
  match self with
  | Node None _ _ => []
  | Node (Some d) _ _ =>
      let items :=
        List.map (fun kv : string * _PrefixTree =>
                    (fst kv, (snd kv, to_nodes (snd kv)))) d in
      let ordered := sorted (fun item => lower (fst item)) items in
      let '(folders, leaves) :=
        fold_left (to_nodes_step prefix) ordered ([], []) in
      folders ++ leaves
  end.

(** The state of [self] after [to_nodes]: the calls [child.recount(...)]
    have written the cached counts of every child that has children and
    of the nodes below it (the nested calls of [to_nodes] write the same
    values once more); [self.count] and the children without children
    are not written. *)
Definition to_nodes_state (self : _PrefixTree) : _PrefixTree :=
  match self with
  | Node None k c => self
  | Node (Some d) k c =>
      Node (Some (List.map
                    (fun kv : string * _PrefixTree =>
                       (fst kv,
                        match children (snd kv) with
                        | Some _ => snd (recount (snd kv) true)
                        | None => snd kv
                        end)) d)) k c
  end.

End PrefixTree.

(** The trie of a session that received the keys [ks] in this order:
    [self._prefix_tree.insert(key.split(SEPARATOR))] for each of them. *)
Definition build (ks : list string) : _PrefixTree :=
  fold_left (fun t k => PrefixTree.insert t (split k)) ks PrefixTree.__init__.

(** ** Vocabulary of the statements about the trie *)

(** The node reached from [t] along the components [path], following the
    dict lookups [children[segment]]. *)
Fixpoint get_node (t : _PrefixTree) (path : list string) : option _PrefixTree :=
  match path with
  | [] => Some t
  | segment :: rest =>
      match children t with
      | None => None
      | Some d =>
          match dict_get segment d with
          | None => None
          | Some child => get_node child rest
          end
      end
  end.

(** Is there a node at [path] that is a key? *)
Definition has_key (t : _PrefixTree) (path : list string) : bool :=
  match get_node t path with
  | Some n => is_key n
  | None => false
  end.

(** The paths, relative to [t], of the [is_key] nodes of the subtree
    rooted at [t], [t] included. *)
Fixpoint key_paths (t : _PrefixTree) : list (list string) :=
  match t with
  | Node ch k _ =>
      (if k then [[]] else []) ++
      match ch with
      | None => []
      | Some d =>
          flat_map (fun kv : string * _PrefixTree =>
                      List.map (cons (fst kv)) (key_paths (snd kv))) d
      end
  end.

(** The number of [is_key] nodes in the subtree rooted at [t], inclusive. *)
Definition key_count (t : _PrefixTree) : Z := Z.of_nat (length (key_paths t)).

(** Is the text ASCII? On ASCII text, [lower] above is [str.lower], the
    order of [String.leb] is the order of [str], and [strip] below is
    [str.strip]; on other text Python goes by the Unicode tables. *)
Definition is_ascii_char (c : ascii) : bool := (N_of_ascii c <? 128)%N.

Fixpoint is_ascii (s : string) : bool :=
  match s with
  | EmptyString => true
  | String c rest => is_ascii_char c && is_ascii rest
  end.

(** Are the components of the trie ASCII text, at every depth? *)
Fixpoint ascii_components (t : _PrefixTree) : bool :=
  match t with
  | Node None _ _ => true
  | Node (Some d) _ _ =>
      forallb (fun kv : string * _PrefixTree =>
                 is_ascii (fst kv) && ascii_components (snd kv)) d
  end.

(** A dict has one entry per key, at every level. *)
Inductive wf : _PrefixTree -> Prop :=
  | wf_leaf k c : wf (Node None k c)
  | wf_dict d k c :
      NoDup (List.map fst d) ->
      Forall (fun kv => wf (snd kv)) d ->
      wf (Node (Some d) k c).

(** ** Vocabulary of the statements about [to_nodes] *)

Definition has_children (t : _PrefixTree) : bool :=
  match children t with Some _ => true | None => false end.

(** The number of [is_key] nodes strictly below [t]. *)
Definition descendant_key_count (t : _PrefixTree) : Z :=
  key_count t - (if is_key t then 1 else 0).

(** The entry of a child that is a key. *)
Definition leaf_entry (prefix : string) (kv : string * _PrefixTree) : DisplayNode :=
  DNode (PrefixTree.child_id prefix (fst kv)) (fst kv) "key" None.

(** The entry of a child that has children. *)
Definition folder_entry (prefix : string) (kv : string * _PrefixTree) : DisplayNode :=
  let cid := PrefixTree.child_id prefix (fst kv) in
  DNode cid (fst kv +:+ " (" +:+ str_of_int (descendant_key_count (snd kv)) +:+ ")")
        "folder" (Some (PrefixTree.to_nodes (snd kv) cid)).

(** The dict of a node, empty when [children] is [None]. *)
Definition entries (t : _PrefixTree) : dict _PrefixTree :=
  match children t with Some d => d | None => [] end.

(** The children in the order in which the loop of [to_nodes] visits them. *)
Definition visit_order (t : _PrefixTree) : dict _PrefixTree :=
  sorted (fun kv => lower (fst kv)) (entries t).

(** An entry and all the entries nested below it. *)
Fixpoint flatten_node (e : DisplayNode) : list DisplayNode :=
  match e with
  | DNode _ _ _ None => [e]
  | DNode _ _ _ (Some es) => e :: flat_map flatten_node es
  end.

(** All the entries of a materialized tree, at every depth. *)
Definition flatten (es : list DisplayNode) : list DisplayNode :=
  flat_map flatten_node es.

(** [reach t path n]: [n] is the node below [t] along [path]. *)
Inductive reach : _PrefixTree -> list string -> _PrefixTree -> Prop :=
  | reach_here t : reach t [] t
  | reach_child t segment child path n :
      (segment, child) ∈ entries t ->
      reach child path n ->
      reach t (segment :: path) n.

(** The id that [to_nodes] gives to the node at [path] below a node whose
    id is [prefix]. *)
Definition path_id (prefix : string) (path : list string) : string :=
  fold_left PrefixTree.child_id path prefix.

(** The ids of the entries with the key icon, at every depth. *)
Definition leaf_ids (es : list DisplayNode) : list string :=
  node_id <$> filter (fun e => node_icon e = "key") (flatten es).

(** The paths of the [is_key] nodes strictly below [t]. *)
Definition proper_key_paths (t : _PrefixTree) : list (list string) :=
  flat_map (fun kv : string * _PrefixTree =>
              List.map (cons (fst kv)) (key_paths (snd kv))) (entries t).

(** Does the key begin with the separator? *)
Definition starts_with_sep (k : string) : bool :=
  match k with
  | String c _ => Ascii.eqb c sep_char
  | EmptyString => false
  end.

(** The text [":" + s1 + ":" + s2 + ...] that follows a non-empty id. *)
Fixpoint tail_text (path : list string) : string :=
  match path with
  | [] => EmptyString
  | s :: rest => SEPARATOR +:+ s +:+ tail_text rest
  end.

(** ** class [ThreadSafeRedisManager] *)

(** What a call that can raise gives back: its value, or the exception. *)
Inductive outcome (E A : Type) : Type :=
  | Returns (a : A)
  | Raises (e : E).
Arguments Returns {E A} a.
Arguments Raises {E A} e.

(** The exceptions that the manager raises or lets through. [Other] is
    any exception raised inside a Redis call, with its text. *)
Inductive exn : Type :=
  | ConnectionError (msg : string)
  | TimeoutError
  | RuntimeError (msg : string)
  | Other (msg : string).

(** A [redis.Redis] object: its identity and the arguments it was built
    with ([password or None] and [username or None] are options). *)
Record Client : Type := mkClient {
  client_id : nat;
  client_host : string;
  client_port : Z;
  client_db : Z;
  client_password : option string;
  client_username : option string;
  socket_connect_timeout : Z;
  socket_timeout : Z;
  decode_responses : bool;
  health_check_interval : option Z }.

(** A command handed to [execute]: the bound method and its arguments. *)
Inductive Command : Type :=
  | cmd_scan (cursor : Z) (pattern : string) (count : Z)
  | cmd_dbsize
  | cmd_type (key : string).

(** The objects outside the manager: the next fresh identity, the clients
    on which [close()] was called, the pools on which
    [shutdown(wait=False)] was called, the [select(db)] calls that were
    made, and the work that was submitted to the pools together with the
    timeout of the wait for its result. *)
Record World : Type := mkWorld {
  next_id : nat;
  closed : list nat;
  shut_down : list nat;
  selected : list (nat * Z);
  submitted : list (nat * Command * Z) }.

(** The fields of the manager. *)
Record Manager : Type := mkManager {
  _client : option Client;
  _raw_client : option Client;
  _executor : option nat;
  host : string;
  port : Z;
  db : Z;
  password : string;
  username : string }.

(** How the wait [future.result(timeout=30)] ends. *)
Inductive task_end (A : Type) : Type :=
  | Done (a : A)
  | Failed (e : exn)
  | Expired.
Arguments Done {A} a.
Arguments Failed {A} e.
Arguments Expired {A}.

Module ThreadSafeRedisManager.

(** [__init__] *)
Definition __init__ : Manager :=
  mkManager None None None "localhost" 6379 0 "" "".

(** [connected] *)
Definition connected (self : Manager) : bool :=
  match _client self with Some _ => true | None => false end.

(** [x or None] for a string *)
Definition or_None (s : string) : option string :=
  match s with EmptyString => None | _ => Some s end.

Definition close (c : Client) (w : World) : World :=
  mkWorld (next_id w) (client_id c :: closed w) (shut_down w) (selected w) (submitted w).

Definition close_if (c : option Client) (w : World) : World :=
  match c with Some c => close c w | None => w end.

Definition shutdown_if (e : option nat) (w : World) : World :=
  match e with
  | Some e => mkWorld (next_id w) (closed w) (e :: shut_down w) (selected w) (submitted w)
  | None => w
  end.

Definition fresh (w : World) : nat * World :=
  (next_id w, mkWorld (S (next_id w)) (closed w) (shut_down w) (selected w) (submitted w)).

(** [connect(self, host, port, db, password, username)]. [ping] is how
    [test_client.ping()] ends: [None] when it returns, [Some e] when it
    raises an exception with the text [e]. The [close()] and
    [shutdown()] calls return normally or have their exception
    swallowed by the [try]/[except Exception: pass] around them. *)
Definition connect (self : Manager) (w : World)
    (host : string) (port db : Z) (password username : string)
    (ping : option string) : outcome exn unit * Manager * World :=
  let '(test_id, w) := fresh w in
  let test_client :=
    mkClient test_id host port db (or_None password) (or_None username)
             5 10 true None in
  match ping with
  | Some e =>
      (Raises (ConnectionError
                 ("Failed to connect to " +:+ host +:+ ":" +:+ str_of_int port
                  +:+ ": " +:+ e)),
       self, close test_client w)
  | None =>
      let w := close test_client w in
      let w := close_if (_client self) w in
      let w := close_if (_raw_client self) w in
      let w := shutdown_if (_executor self) w in
      let '(id1, w) := fresh w in
      let '(id2, w) := fresh w in
      let common (id : nat) (decode : bool) :=
        mkClient id host port db
                 (or_None password) (or_None username) 5 10 decode (Some 30) in
      let '(pool, w) := fresh w in
      (Returns tt,
       mkManager (Some (common id1 true)) (Some (common id2 false)) (Some pool)
                 host port db password username,
       w)
  end.

(** [disconnect(self)] *)
Definition disconnect (self : Manager) (w : World) : Manager * World :=
  let w := close_if (_client self) w in
  let w := close_if (_raw_client self) w in
  let w := shutdown_if (_executor self) w in
  (mkManager None None None
             (host self) (port self) (db self) (password self) (username self),
   w).

Definition select (c : Client) (db : Z) (w : World) : World :=
  mkWorld (next_id w) (closed w) (shut_down w) ((client_id c, db) :: selected w)
          (submitted w).

(** [select_db(self, db)]. [sel] and [sel_raw] are how the two
    [select(db)] calls end when they are made. *)
Definition select_db (self : Manager) (w : World) (db : Z)
    (sel sel_raw : option string) : outcome exn unit * Manager * World :=
  let set_db :=
    mkManager (_client self) (_raw_client self) (_executor self)
              (host self) (port self) db (password self) (username self) in
  let second (w : World) : outcome exn unit * Manager * World :=
    match _raw_client self with
    | Some rc =>
        match sel_raw with
        | Some e => (Raises (Other e), self, select rc db w)
        | None => (Returns tt, set_db, select rc db w)
        end
    | None => (Returns tt, set_db, w)
    end in
  match _client self with
  | Some c =>
      match sel with
      | Some e => (Raises (Other e), self, select c db w)
      | None => second (select c db w)
      end
  | None => second w
  end.

(** [self._executor.submit(func, *args, **kwargs)] on the pool [q],
    followed by [.result(timeout=30)]. *)
Definition submit (q : nat) (func : Command) (w : World) : World :=
  mkWorld (next_id w) (closed w) (shut_down w) (selected w)
          ((q, func, 30) :: submitted w).

(** [execute(self, func, *args)]. [wait] is how the wait for the result
    of the submitted work ends. A pool that was shut down refuses new
    work. *)
Definition execute {A} (self : Manager) (w : World) (func : Command)
    (wait : task_end A) : outcome exn A * World :=
  match _executor self with
  | None => (Raises (ConnectionError "Not connected to Redis"), w)
  | Some pool =>
      if bool_decide (pool ∈ shut_down w) then
        (Raises (RuntimeError "cannot schedule new futures after shutdown"), w)
      else
        (match wait with
         | Done a => Returns a
         | Failed e => Raises e
         | Expired => Raises TimeoutError
         end, submit pool func w)
  end.

End ThreadSafeRedisManager.

(** One call on the manager, with the way its Redis calls end. *)
Inductive call : Type :=
  | call_connect (host : string) (port db : Z) (password username : string)
                 (ping : option string)
  | call_disconnect
  | call_select_db (db : Z) (sel sel_raw : option string)
  | call_execute (func : Command) (wait : task_end unit).

Definition run_call (c : call) (s : Manager * World) : Manager * World :=
  let '(m, w) := s in
  match c with
  | call_connect h p d pw u ping =>
      let '(_, m', w') := ThreadSafeRedisManager.connect m w h p d pw u ping in (m', w')
  | call_disconnect => ThreadSafeRedisManager.disconnect m w
  | call_select_db d sel sel_raw =>
      let '(_, m', w') := ThreadSafeRedisManager.select_db m w d sel sel_raw in (m', w')
  | call_execute f wait => (m, snd (ThreadSafeRedisManager.execute m w f wait))
  end.

(** The states of the global [redis_manager = ThreadSafeRedisManager()]
    after any sequence of calls. *)
Definition world0 : World := mkWorld 0 [] [] [] [].

Definition run_calls (cs : list call) : Manager * World :=
  fold_left (fun s c => run_call c s) cs (ThreadSafeRedisManager.__init__, world0).

(** ** The invariant of the manager *)

(** The three handles are set together, they are younger than the next
    fresh identity, and a handle that the manager holds was not closed or
    shut down. *)
Record manager_inv (m : Manager) (w : World) : Prop := {
  inv_raw : _raw_client m = None <-> _client m = None;
  inv_pool : _executor m = None <-> _client m = None;
  inv_closed : Forall (fun i => (i < next_id w)%nat) (closed w);
  inv_shut : Forall (fun i => (i < next_id w)%nat) (shut_down w);
  inv_client : forall c, _client m = Some c ->
                         (client_id c < next_id w)%nat /\ client_id c ∉ closed w;
  inv_raw_client : forall c, _raw_client m = Some c ->
                         (client_id c < next_id w)%nat /\ client_id c ∉ closed w;
  inv_executor : forall p, _executor m = Some p ->
                         (p < next_id w)%nat /\ p ∉ shut_down w }.

(** The manager with [db] recorded. *)
Definition with_db (m : Manager) (d : Z) : Manager :=
  mkManager (_client m) (_raw_client m) (_executor m)
            (host m) (port m) d (password m) (username m).

(** ** class [KeysBrowser]: the scan session *)

(** The session state of the browser and what it shows: the text of
    [count_label], the nodes handed to the tree widget, and the
    visibility of the two load buttons. *)
Record Browser : Type := mkBrowser {
  _key_set : gset string;
  _prefix_tree : _PrefixTree;
  cursor : Z;
  pattern : string;
  _exact_search : bool;
  _is_search_mode : bool;
  count_label : string;
  tree : list DisplayNode;
  more_btn : bool;
  load_all_btn : bool }.

Module KeysBrowser.

(** [__init__] and [_build] *)
Definition __init__ : Browser :=
  mkBrowser ∅ PrefixTree.__init__ 0 "*" false false "0 keys" [] false false.

(** [self.cursor = 0; self._key_set = set(); self._prefix_tree = _PrefixTree()] *)
Definition reset (b : Browser) : Browser :=
  mkBrowser ∅ PrefixTree.__init__ 0 (pattern b) (_exact_search b) (_is_search_mode b)
            (count_label b) (tree b) (more_btn b) (load_all_btn b).

Definition set_label (s : string) (b : Browser) : Browser :=
  mkBrowser (_key_set b) (_prefix_tree b) (cursor b) (pattern b) (_exact_search b)
            (_is_search_mode b) s (tree b) (more_btn b) (load_all_btn b).

(** [more_btn.setVisible(v); load_all_btn.setVisible(v)] *)
Definition set_buttons (v : bool) (b : Browser) : Browser :=
  mkBrowser (_key_set b) (_prefix_tree b) (cursor b) (pattern b) (_exact_search b)
            (_is_search_mode b) (count_label b) (tree b) v v.

Definition set_tree (t : _PrefixTree) (b : Browser) : Browser :=
  mkBrowser (_key_set b) t (cursor b) (pattern b) (_exact_search b)
            (_is_search_mode b) (count_label b) (tree b) (more_btn b) (load_all_btn b).

(** [_update_tree]: the widget is cleared and filled with
    [self._prefix_tree.to_nodes()] (the expanded state of the items, which
    is saved before and restored after, is not part of the model). *)
Definition _update_tree (b : Browser) : Browser :=
  mkBrowser (_key_set b) (PrefixTree.to_nodes_state (_prefix_tree b)) (cursor b) (pattern b)
            (_exact_search b) (_is_search_mode b) (count_label b)
            (PrefixTree.to_nodes (_prefix_tree b) "") (more_btn b) (load_all_btn b).

(** [self._key_set.add(key); self._prefix_tree.insert(key.split(SEPARATOR))] *)
Definition insert_key (b : Browser) (key : string) : Browser :=
  mkBrowser ({[key]} ∪ _key_set b) (PrefixTree.insert (_prefix_tree b) (split key))
            (cursor b) (pattern b) (_exact_search b) (_is_search_mode b)
            (count_label b) (tree b) (more_btn b) (load_all_btn b).

(** [if key not in self._key_set: ...] *)
Definition add_key (b : Browser) (key : string) : Browser :=
  if bool_decide (key ∈ _key_set b) then b else insert_key b key.

(** [for key in keys: ...] *)
Definition add_keys (b : Browser) (keys : list string) : Browser :=
  fold_left add_key keys b.

(** [self._prefix_tree.recount()] *)
Definition recount (b : Browser) : Browser :=
  set_tree (snd (PrefixTree.recount (_prefix_tree b) true)) b.

(** [len(self._key_set)] *)
Definition total (b : Browser) : Z := Z.of_nat (size (_key_set b)).

(** [_try_exact_key(self, key_name)]. [connected] is
    [redis_manager.connected]; [key_type] and [db_size] are how the
    calls [get_key_type(key_name)] and [get_db_size()] end, an
    exception being given by its text. *)
Definition _try_exact_key (b : Browser) (key_name : string) (connected : bool)
    (key_type : outcome string string) (db_size : outcome string Z) : Browser :=
  if negb connected then b
  else
    let b := reset b in
    let failed (e : string) (b : Browser) :=
      set_buttons false (_update_tree (set_label ("Error: " +:+ e) b)) in
    match key_type with
    | Raises e => failed e b
    | Returns ty =>
        if negb (String.eqb ty "none") then
          let b := _update_tree (recount (insert_key b key_name)) in
          match db_size with
          | Raises e => failed e b
          | Returns _ =>
              set_buttons false
                (set_label ("Found: " +:+ str_of_int (total b) +:+ " key(s)") b)
          end
        else
          set_buttons false (_update_tree (set_label "Key not found" b))
    end.

(** [_load_keys(self)]. [scan] is how [scan_keys(pattern, 200, cursor)]
    ends, [db_size] how [get_db_size()] ends. *)
Definition _load_keys (b : Browser) (connected : bool)
    (scan : outcome string (Z * list string)) (db_size : outcome string Z)
    : Browser :=
  if negb connected then b
  else
    match scan with
    | Raises e => set_label ("Error: " +:+ e) b
    | Returns (new_cursor, new_keys) =>
        let b :=
          mkBrowser (_key_set b) (_prefix_tree b) new_cursor (pattern b)
                    (_exact_search b) (_is_search_mode b) (count_label b)
                    (tree b) (more_btn b) (load_all_btn b) in
        let b := _update_tree (recount (add_keys b new_keys)) in
        let b := set_buttons (negb (Z.eqb (cursor b) 0)) b in
        match db_size with
        | Raises e => set_label ("Error: " +:+ e) b
        | Returns n =>
            set_label (str_of_int (total b) +:+ " loaded / " +:+ str_of_int n
                       +:+ " total") b
        end
    end.

(** [_search(self)]; [raw] is [self.pattern_input.text().strip()]. *)
Definition _search (b : Browser) (raw : string) (connected : bool)
    (key_type : outcome string string)
    (scan : outcome string (Z * list string)) (db_size : outcome string Z)
    : Browser :=
  if _exact_search b && negb (String.eqb raw "") then
    _try_exact_key b raw connected key_type db_size
  else
    let is_default := String.eqb raw "" || String.eqb raw "*" in
    let b :=
      mkBrowser ∅ PrefixTree.__init__ 0 (if String.eqb raw "" then "*" else raw)
                (_exact_search b) (negb is_default) (count_label b) (tree b)
                (more_btn b) (load_all_btn b) in
    _load_keys b connected scan db_size.

(** [_refresh(self)] *)
Definition _refresh (b : Browser) (connected : bool)
    (scan : outcome string (Z * list string)) (db_size : outcome string Z)
    : Browser :=
  _load_keys (reset b) connected scan db_size.

(** One round of the [while True] loop of [load_all_thread]. The locals
    of the thread are [cursor] and [total_loaded]; [scan] is what
    [scan_keys(self.pattern, 200, cursor)] returns. The result says
    whether the loop goes on ([cursor != 0]) or breaks and emits
    [finish_load_signal]. *)
Definition load_all_round (b : Browser) (locals : Z * Z)
    (scan : Z * list string) : Browser * (Z * Z) * bool :=
  let '(_, total_loaded) := locals in
  let '(cursor, keys) := scan in
  let b := add_keys b keys in
  let total_loaded := total_loaded + Z.of_nat (length keys) in
  (b, (cursor, total_loaded), negb (Z.eqb cursor 0)).

End KeysBrowser.

(** The browser together with the locals [(cursor, total_loaded)] of the
    [load_all_thread] threads that are running. *)
Definition Session : Type := Browser * list (Z * Z).

(** What can happen next: the user searches or refreshes on the UI
    thread, the user starts "Load all" ([_load_all] starts a thread with
    [cursor = 0] and [total_loaded = 0]; the enabled state of the buttons
    and the loading animation are not part of the model), or the drain
    thread at position [i] gets the reply to its scan and runs one round
    of its loop, taken as one step. *)
Inductive event : Type :=
  | ev_search (raw : string) (connected : bool) (key_type : outcome string string)
              (scan : outcome string (Z * list string)) (db_size : outcome string Z)
  | ev_refresh (connected : bool)
               (scan : outcome string (Z * list string)) (db_size : outcome string Z)
  | ev_load_all (connected : bool)
  | ev_drain (i : nat) (scan : Z * list string).

Definition step (ev : event) (s : Session) : Session :=
  let '(b, threads) := s in
  match ev with
  | ev_search raw connected key_type scan db_size =>
      (KeysBrowser._search b raw connected key_type scan db_size, threads)
  | ev_refresh connected scan db_size =>
      (KeysBrowser._refresh b connected scan db_size, threads)
  | ev_load_all connected =>
      if connected then (b, threads ++ [(0, 0)]) else s
  | ev_drain i scan =>
      match threads !! i with
      | None => s
      | Some locals =>
          let '(b', locals', goes_on) := KeysBrowser.load_all_round b locals scan in
          (b', if goes_on then <[i := locals']> threads else delete i threads)
      end
  end.

Definition run (evs : list event) (s : Session) : Session :=
  fold_left (fun s ev => step ev s) evs s.

(** * More of the code *)

(** ** The rest of [ThreadSafeRedisManager]: the key operations *)

Module KeyOperations.

(** The property [client]: the text-decoding client, or the exception. *)
Definition client (self : Manager) : outcome exn Client :=
  match _client self with
  | None => Raises (ConnectionError "Not connected to Redis")
  | Some c => Returns c
  end.

(** The property [raw_client]. *)
Definition raw_client (self : Manager) : outcome exn Client :=
  match _raw_client self with
  | None => Raises (ConnectionError "Not connected to Redis")
  | Some c => Returns c
  end.

(** [self.execute(self.client.<method>, ...)]: the argument
    [self.client.<method>] is evaluated before [execute] is called, so
    that the property raises first. *)
Definition on_client {A} (self : Manager) (w : World) (func : Command)
    (wait : task_end A) : outcome exn A * World :=
  match client self with
  | Raises e => (Raises e, w)
  | Returns _ => ThreadSafeRedisManager.execute self w func wait
  end.

(** [scan_keys(self, pattern, count, cursor)]:
    [self.execute(self.client.scan, cursor=cursor, match=pattern, count=count)] *)
Definition scan_keys (self : Manager) (w : World) (pattern : string)
    (count cursor : Z) (wait : task_end (Z * list string))
    : outcome exn (Z * list string) * World :=
  on_client self w (cmd_scan cursor pattern count) wait.

(** [get_db_size(self)] *)
Definition get_db_size (self : Manager) (w : World) (wait : task_end Z)
    : outcome exn Z * World :=
  on_client self w cmd_dbsize wait.

(** [get_key_type(self, key)] *)
Definition get_key_type (self : Manager) (w : World) (key : string)
    (wait : task_end string) : outcome exn string * World :=
  on_client self w (cmd_type key) wait.

End KeyOperations.

(** The identities of the objects that the manager holds. *)
Definition held_ids (m : Manager) : list nat :=
  match _client m with Some c => [client_id c] | None => [] end ++
  match _raw_client m with Some c => [client_id c] | None => [] end ++
  match _executor m with Some q => [q] | None => [] end.

(** ** The rest of [KeysBrowser] *)

Module KeysBrowserSlots.

(** [_on_exact_changed(self, state)]: [Qt.Checked] is 2. *)
Definition _on_exact_changed (b : Browser) (state : Z) : Browser :=
  mkBrowser (_key_set b) (_prefix_tree b) (cursor b) (pattern b) (Z.eqb state 2)
            (_is_search_mode b) (count_label b) (tree b) (more_btn b) (load_all_btn b).

(** [_load_more(self)] *)
Definition _load_more (b : Browser) (connected : bool)
    (scan : outcome string (Z * list string)) (db_size : outcome string Z)
    : Browser :=
  KeysBrowser._load_keys b connected scan db_size.

(** [_finish_load_all(self, loaded_count)]; [db_size] is how
    [get_db_size()] ends. Its exception is not caught: it leaves the
    method, after the recount and the update of the tree. The result is
    that exception, if any, and the browser. (The loading timer and the
    enabled state of the buttons are not part of the model.) *)
Definition _finish_load_all (b : Browser) (db_size : outcome string Z)
    : option string * Browser :=
  let b := KeysBrowser._update_tree (KeysBrowser.recount b) in
  match db_size with
  | Raises e => (Some e, b)
  | Returns n =>
      (None,
       KeysBrowser.set_buttons false
         (KeysBrowser.set_label
            (str_of_int (KeysBrowser.total b) +:+ " loaded / " +:+ str_of_int n
             +:+ " total") b))
  end.

(** The [while True] loop of [load_all_thread], run on the replies that
    its scans get, one after the other, from the locals
    [(cursor, total_loaded)]. The loop ends at the first reply whose
    cursor is 0 and emits [finish_load_signal] with [total_loaded]; the
    result is then [true]. With every reply used up and no cursor 0 yet,
    the thread is waiting for the next reply ([false]). *)
Fixpoint load_all_thread (b : Browser) (locals : Z * Z)
    (replies : list (Z * list string)) : Browser * (Z * Z) * bool :=
  match replies with
  | [] => (b, locals, false)
  | scan :: rest =>
      let '(b', locals', goes_on) := KeysBrowser.load_all_round b locals scan in
      if goes_on then load_all_thread b' locals' rest else (b', locals', true)
  end.

(** [_update_loading_animation(self)], the slot of the timer that
    [_load_all] starts. [loading_dots] is [self._loading_dots] before
    the call and [db_size] how [get_db_size()] ends; the result is the
    exception that leaves the slot, if any, the new [_loading_dots] and
    the browser. *)
Definition _update_loading_animation (b : Browser) (loading_dots : Z)
    (db_size : outcome string Z) : option string * Z * Browser :=
  let loading_dots := (loading_dots + 1) mod 4 in
  let dots := string_of_list_ascii (repeat "."%char (Z.to_nat loading_dots)) in
  match db_size with
  | Raises e => (Some e, loading_dots, b)
  | Returns n =>
      (None, loading_dots,
       KeysBrowser.set_label
         ("Loading: " +:+ str_of_int (KeysBrowser.total b) +:+ " / " +:+ str_of_int n
          +:+ dots) b)
  end.

(** [_on_item_clicked(self, item, column)] for an item whose data is
    [{"id": node_id, "icon": icon_type}]: the key handed to
    [on_key_selected], if it is called. *)
Definition _on_item_clicked (b : Browser) (data : string * string) : option string :=
  let '(node_id, icon_type) := data in
  if String.eqb icon_type "key" && negb (String.eqb node_id "")
     && bool_decide (node_id ∈ _key_set b)
  then Some node_id else None.

End KeysBrowserSlots.

(** An item of the tree widget: its text, its data [(id, icon)] and the
    items below it. *)
Inductive TreeItem : Type :=
  Item { item_text : string; item_data : string * string;
         item_children : list TreeItem }.

(** [_add_nodes(self, parent, nodes)], for one node: the item gets the
    label as text and [{"id", "icon"}] as data, and the items of the
    node's children, if it has any, below it. *)
Fixpoint add_node (node : DisplayNode) : TreeItem :=
  match node with
  | DNode id label icon children =>
      Item label (id, icon)
           (match children with
            | Some nodes => List.map add_node nodes
            | None => []
            end)
  end.

Definition _add_nodes (nodes : list DisplayNode) : list TreeItem :=
  List.map add_node nodes.

(** An item and all the items below it. *)
Fixpoint items_below (item : TreeItem) : list TreeItem :=
  match item with
  | Item _ _ children => item :: flat_map items_below children
  end.

(** All the items of the widget. *)
Definition all_items (items : list TreeItem) : list TreeItem :=
  flat_map items_below items.

(** One slot of the browser or one round of a drain thread, run to
    completion with nothing else touching the session meanwhile: an
    event of the session above, the "Exact" box being toggled, "Load
    more", the slot of [finish_load_signal], or a tick of the loading
    timer. *)
Inductive ui_event : Type :=
  | ui_session (ev : event)
  | ui_exact_changed (state : Z)
  | ui_load_more (connected : bool) (scan : outcome string (Z * list string))
                 (db_size : outcome string Z)
  | ui_finish_load_all (db_size : outcome string Z)
  | ui_loading_tick (loading_dots : Z) (db_size : outcome string Z).

Definition ui_step (ev : ui_event) (s : Session) : Session :=
  match ev with
  | ui_session ev => step ev s
  | ui_exact_changed state => (KeysBrowserSlots._on_exact_changed (fst s) state, snd s)
  | ui_load_more connected scan db_size =>
      (KeysBrowserSlots._load_more (fst s) connected scan db_size, snd s)
  | ui_finish_load_all db_size =>
      (snd (KeysBrowserSlots._finish_load_all (fst s) db_size), snd s)
  | ui_loading_tick loading_dots db_size =>
      (snd (KeysBrowserSlots._update_loading_animation (fst s) loading_dots db_size),
       snd s)
  end.

(** The trie holds the keys of the key set and no others. The slots and
    the drain thread keep this when they run one after the other; the
    source does not lock the two stores of a reset against the drain
    thread, so that it is a premise of the properties that need it. *)
Definition session_inv (b : Browser) : Prop :=
  wf (_prefix_tree b) /\
  forall path,
    has_key (_prefix_tree b) path = true <->
    exists k, k ∈ _key_set b /\ path = split k.

(** ** [KeysBrowser] on the global [redis_manager] *)

(** [str(e)] *)
Definition exn_text (e : exn) : string :=
  match e with
  | ConnectionError msg => msg
  | TimeoutError => ""
  | RuntimeError msg => msg
  | Other msg => msg
  end.

(** How a call through a pool that accepts the work ends, for the
    caller: the result, or the text of the exception. *)
Definition reply {A} (wait : task_end A) : outcome string A :=
  match wait with
  | Done a => Returns a
  | Failed e => Raises (exn_text e)
  | Expired => Raises (exn_text TimeoutError)
  end.

Module KeysBrowserOnManager.

(** [_load_keys(self)], with its calls on [redis_manager] made:
    [wait_scan] and [wait_size] are how the waits for the results of
    [scan_keys] and [get_db_size] end. *)
Definition _load_keys (b : Browser) (m : Manager) (w : World)
    (wait_scan : task_end (Z * list string)) (wait_size : task_end Z)
    : Browser * World :=
  if negb (ThreadSafeRedisManager.connected m) then (b, w)
  else
    let '(scan, w) := KeyOperations.scan_keys m w (pattern b) 200 (cursor b) wait_scan in
    match scan with
    | Raises e => (KeysBrowser.set_label ("Error: " +:+ exn_text e) b, w)
    | Returns (new_cursor, new_keys) =>
        let b :=
          mkBrowser (_key_set b) (_prefix_tree b) new_cursor (pattern b)
                    (_exact_search b) (_is_search_mode b) (count_label b)
                    (tree b) (more_btn b) (load_all_btn b) in
        let b := KeysBrowser._update_tree (KeysBrowser.recount (KeysBrowser.add_keys b new_keys)) in
        let b := KeysBrowser.set_buttons (negb (Z.eqb (cursor b) 0)) b in
        let '(size, w) := KeyOperations.get_db_size m w wait_size in
        match size with
        | Raises e => (KeysBrowser.set_label ("Error: " +:+ exn_text e) b, w)
        | Returns n =>
            (KeysBrowser.set_label
               (str_of_int (KeysBrowser.total b) +:+ " loaded / " +:+ str_of_int n
                +:+ " total") b, w)
        end
    end.

(** [_refresh(self)] *)
Definition _refresh (b : Browser) (m : Manager) (w : World)
    (wait_scan : task_end (Z * list string)) (wait_size : task_end Z)
    : Browser * World :=
  _load_keys (KeysBrowser.reset b) m w wait_scan wait_size.

(** [_on_db_change(self, index)]. An exception of [select_db] is not
    caught: it leaves the slot before [_refresh]. *)
Definition _on_db_change (b : Browser) (m : Manager) (w : World) (index : Z)
    (sel sel_raw : option string)
    (wait_scan : task_end (Z * list string)) (wait_size : task_end Z)
    : outcome exn unit * Browser * Manager * World :=
  if ThreadSafeRedisManager.connected m then
    let '(selected, m, w) := ThreadSafeRedisManager.select_db m w index sel sel_raw in
    match selected with
    | Raises e => (Raises e, b, m, w)
    | Returns _ =>
        let '(b, w) := _refresh b m w wait_scan wait_size in
        (Returns tt, b, m, w)
    end
  else (Returns tt, b, m, w).

End KeysBrowserOnManager.

(** ** [connection_store]: the saved connections *)

(** A value that [json.loads] returns and [json.dumps] takes: [None],
    a [bool], an [int], a [float] (given by its text and by whether it
    is zero), a [str], a [list], or a [dict] with [str] keys. *)
Inductive json : Type :=
  | JNull
  | JBool (b : bool)
  | JInt (n : Z)
  | JFloat (is_zero : bool) (text : string)
  | JStr (s : string)
  | JList (items : list json)
  | JDict (d : list (string * json)).

(** [d[k] = v]: the value of a key that is there is replaced in its
    place, a new key comes last. *)
Definition dict_set {V} (k : string) (v : V) (d : dict V) : dict V :=
  if dict_contains k d then dict_update k (fun _ => v) d else dict_add k v d.

(** [d.pop(k, None)]: the dict without the key. *)
Definition dict_pop {V} (k : string) (d : dict V) : dict V :=
  List.filter (fun kv => negb (String.eqb k (fst kv))) d.

(** [needle in s] for two [str]. *)
Fixpoint contains_text (needle s : string) : bool :=
  match s with
  | EmptyString => String.eqb needle ""
  | String _ rest => String.prefix needle s || contains_text needle rest
  end.

(** [bool(v)] *)
Definition truthy (v : json) : bool :=
  match v with
  | JNull => false
  | JBool b => b
  | JInt n => negb (Z.eqb n 0)
  | JFloat is_zero _ => negb is_zero
  | JStr s => negb (String.eqb s "")
  | JList items => match items with [] => false | _ => true end
  | JDict d => match d with [] => false | _ => true end
  end.

(** [v == s] for a [str] [s] *)
Definition is_str (s : string) (v : json) : bool :=
  match v with JStr s' => String.eqb s' s | _ => false end.

Module connection_store.

(** What is at [~/.sideredis/connections.json]: no file; a file that
    cannot be read ([OSError]) or whose text is not JSON
    ([json.JSONDecodeError]); a file whose bytes are not UTF-8; or a
    file whose text is the JSON of [data]. A file written by
    [json.dumps(data)] is read back by [json.loads] as [data]. *)
Inductive File : Type :=
  | Missing
  | Unreadable
  | NotUtf8
  | Holds (data : json).

(** The exceptions that leave the functions of the store. *)
Inductive error : Type :=
  | TypeError
  | AttributeError
  | KeyError
  | UnicodeDecodeError
  | OSError.

(** How [_write_all] ends: the text is written, or [mkdir] or
    [write_text] raises [OSError] and the file is left as [remains]. *)
Inductive write_end : Type :=
  | Written
  | WriteFails (remains : File).

Definition empty_data : json :=
  JDict [("connections", JDict []); ("last_used", JStr "")].

(** [_read_all()] *)
Definition _read_all (f : File) : outcome error json :=
  match f with
  | Missing => Returns empty_data
  | Unreadable => Returns empty_data
  | NotUtf8 => Raises UnicodeDecodeError
  | Holds data =>
      match data with
      | JDict d =>
          if negb (dict_contains "connections" d)
          then Returns (JDict (dict_set "connections" (JDict []) d))
          else Returns data
      | JList items =>
          if negb (existsb (is_str "connections") items)
          then Raises TypeError
          else Returns data
      | JStr s =>
          if negb (contains_text "connections" s)
          then Raises TypeError
          else Returns data
      | JNull | JBool _ | JInt _ | JFloat _ _ => Raises TypeError
      end
  end.

(** [_write_all(data)] *)
Definition _write_all (data : json) (wr : write_end) : outcome error unit * File :=
  match wr with
  | Written => (Returns tt, Holds data)
  | WriteFails remains => (Raises OSError, remains)
  end.

(** [list_connections()] *)
Definition list_connections (f : File) : outcome error json :=
  match _read_all f with
  | Raises e => Raises e
  | Returns (JDict d) => Returns (default (JDict []) (dict_get "connections" d))
  | Returns _ => Raises AttributeError
  end.

(** [get_connection(name)]: [list_connections().get(name)]. [JNull] is
    [None]. The keys of the dict are [str], so that a [name] that is not
    a [str] finds nothing; a list or a dict cannot be hashed. *)
Definition get_connection (name : json) (f : File) : outcome error json :=
  match list_connections f with
  | Raises e => Raises e
  | Returns (JDict connections) =>
      match name with
      | JStr name => Returns (default JNull (dict_get name connections))
      | JList _ | JDict _ => Raises TypeError
      | _ => Returns JNull
      end
  | Returns _ => Raises AttributeError
  end.

(** [save_connection(name, config)] *)
Definition save_connection (name : string) (config : json) (f : File)
    (wr : write_end) : outcome error unit * File :=
  match _read_all f with
  | Raises e => (Raises e, f)
  | Returns (JDict d) =>
      match dict_get "connections" d with
      | None => (Raises KeyError, f)
      | Some (JDict connections) =>
          _write_all
            (JDict (dict_update "connections"
                      (fun _ => JDict (dict_set name config connections)) d)) wr
      | Some _ => (Raises TypeError, f)
      end
  | Returns _ => (Raises TypeError, f)
  end.

(** [delete_connection(name)] *)
Definition delete_connection (name : string) (f : File) (wr : write_end)
    : outcome error unit * File :=
  match _read_all f with
  | Raises e => (Raises e, f)
  | Returns (JDict d) =>
      match dict_get "connections" d with
      | None => (Raises KeyError, f)
      | Some (JDict connections) =>
          let d := dict_update "connections"
                     (fun _ => JDict (dict_pop name connections)) d in
          let d :=
            if is_str name (default JNull (dict_get "last_used" d))
            then dict_set "last_used" (JStr "") d
            else d in
          _write_all (JDict d) wr
      | Some (JList _) => (Raises TypeError, f)
      | Some _ => (Raises AttributeError, f)
      end
  | Returns _ => (Raises TypeError, f)
  end.

(** [get_last_used()] *)
Definition get_last_used (f : File) : outcome error json :=
  match _read_all f with
  | Raises e => Raises e
  | Returns (JDict d) => Returns (default (JStr "") (dict_get "last_used" d))
  | Returns _ => Raises AttributeError
  end.

(** [set_last_used(name)] *)
Definition set_last_used (name : string) (f : File) (wr : write_end)
    : outcome error unit * File :=
  match _read_all f with
  | Raises e => (Raises e, f)
  | Returns (JDict d) => _write_all (JDict (dict_set "last_used" (JStr name) d)) wr
  | Returns _ => (Raises TypeError, f)
  end.

(** [make_config(host, port, db, username, password)] *)
Definition make_config (host : string) (port db : Z) (username password : string)
    : json :=
  JDict [("host", JStr host); ("port", JInt port); ("db", JInt db);
         ("username", JStr username); ("password", JStr password)].

End connection_store.

(** ** The callers of the store *)

(** The binding of [redis_manager.connect] called with the entries of
    [cfg] as keywords: the values of
    [host], [port], [db], [password] and [username], each the default of
    [connect] when [cfg] has no such key. [cfg] must be a mapping, and
    [connect] takes no other keyword. *)
Definition connect_kwargs (cfg : json)
    : outcome connection_store.error (json * json * json * json * json) :=
  match cfg with
  | JDict d =>
      if forallb (fun kv : string * json =>
                    existsb (String.eqb (fst kv))
                            ["host"; "port"; "db"; "password"; "username"]) d
      then Returns (default (JStr "localhost") (dict_get "host" d),
                    default (JInt 6379) (dict_get "port" d),
                    default (JInt 0) (dict_get "db" d),
                    default (JStr "") (dict_get "password" d),
                    default (JStr "") (dict_get "username" d))
      else Raises connection_store.TypeError
  | _ => Raises connection_store.TypeError
  end.

Section AutoConnect.
(** The state that [redis_manager.connect] works on, and how a call
    ends there: whether it returned, and the state after it. *)
Context {S : Type}.
Variable connect : json -> S -> bool * S.
Variable connect_default : S -> bool * S.

(** [try_connect] of [MainWindow._try_auto_connect], on the file [f].
    The result says whether [_on_connected] is scheduled. *)
Definition try_connect (f : connection_store.File) (s : S) : bool * S :=
  let fallback (s : S) := connect_default s in
  match connection_store.get_last_used f with
  | Raises _ => (false, s)
  | Returns last =>
      match (if truthy last then connection_store.get_connection last f
             else Returns JNull) with
      | Raises _ => (false, s)
      | Returns cfg =>
          if truthy cfg then
            let '(ok, s) := connect cfg s in
            if ok then (true, s) else fallback s
          else fallback s
      end
  end.
End AutoConnect.

(** [do_connect] of [ConnectionDialog._connect], on the manager and the
    file. The result is the signal: [connect_success], or
    [connect_error] with the exception. *)
Definition do_connect (m : Manager) (w : World) (f : connection_store.File)
    (name host : string) (port db : Z) (username password : string)
    (ping : option string) (wr_save wr_last : connection_store.write_end)
    : outcome (exn + connection_store.error) unit
      * Manager * World * connection_store.File :=
  match ThreadSafeRedisManager.connect m w host port db password username ping with
  | (Raises e, m, w) => (Raises (inl e), m, w, f)
  | (Returns _, m, w) =>
      match connection_store.save_connection name
              (connection_store.make_config host port db username password) f wr_save with
      | (Raises e, f) => (Raises (inr e), m, w, f)
      | (Returns _, f) =>
          match connection_store.set_last_used name f wr_last with
          | (Raises e, f) => (Raises (inr e), m, w, f)
          | (Returns _, f) => (Returns tt, m, w, f)
          end
      end
  end.

(** ** class [Terminal]: the command console *)

(** [c.isspace()] for an ASCII character. *)
Definition is_space (c : ascii) : bool :=
  let n := N_of_ascii c in
  (((9 <=? n) && (n <=? 13)) || ((28 <=? n) && (n <=? 32)))%N.

(** [s.lstrip()], [s.rstrip()] and [s.strip()] on ASCII text: the
    white space of ASCII is stripped (Python also strips the white space
    beyond ASCII, such as the no-break space). *)
Fixpoint lstrip (s : string) : string :=
  match s with
  | EmptyString => EmptyString
  | String c rest => if is_space c then lstrip rest else s
  end.

Fixpoint rstrip (s : string) : string :=
  match s with
  | EmptyString => EmptyString
  | String c rest =>
      match rstrip rest with
      | EmptyString => if is_space c then EmptyString else String c EmptyString
      | rest' => String c rest'
      end
  end.

Definition strip (s : string) : string := rstrip (lstrip s).

(** [l[i]]: from the front for [0 <= i < len(l)], from the back for
    [-len(l) <= i < 0], [IndexError] ([None]) otherwise. *)
Definition py_index {A} (l : list A) (i : Z) : option A :=
  let n := Z.of_nat (length l) in
  if (0 <=? i) && (i <? n) then l !! Z.to_nat i
  else if (- n <=? i) && (i <? 0) then l !! Z.to_nat (n + i)
  else None.

Definition quote : string := String (ascii_of_nat 34) EmptyString.
Definition newline : string := String (ascii_of_nat 10) EmptyString.

(** [newline.join(lines)] *)
Fixpoint join_lines (lines : list string) : string :=
  match lines with
  | [] => EmptyString
  | [line] => line
  | line :: rest => line +:+ newline +:+ join_lines rest
  end.

(** What [execute_command] returns: [None], a [bool], an [int], a
    [float] (by its text), [bytes] (by the text that decoding them as
    UTF-8 with replacement gives), a [str], a [list], a [dict] (each key
    by its text), or another object (by its [str]). *)
Inductive Result : Type :=
  | RNone
  | RBool (b : bool)
  | RInt (n : Z)
  | RFloat (text : string)
  | RBytes (decoded : string)
  | RStr (s : string)
  | RList (items : list Result)
  | RDict (d : list (string * Result))
  | ROther (text : string).

(** The lines of a list, numbered from [i]. *)
Fixpoint list_lines {A} (fmt : A -> string) (i : Z) (items : list A) : list string :=
  match items with
  | [] => []
  | item :: rest =>
      (str_of_int i +:+ ") " +:+ fmt item) :: list_lines fmt (i + 1) rest
  end.

(** The lines of a dict, two for each entry, numbered from [idx]. *)
Fixpoint dict_lines {A} (fmt : A -> string) (idx : Z) (d : list (string * A))
    : list string :=
  match d with
  | [] => []
  | (k, v) :: rest =>
      (str_of_int idx +:+ ") " +:+ quote +:+ k +:+ quote)
      :: (str_of_int (idx + 1) +:+ ") " +:+ fmt v)
      :: dict_lines fmt (idx + 2) rest
  end.

(** The state of the console: the history, the position in it, the text
    of the input line, and the labels of the output with their colours. *)
Record TerminalState : Type := mkTerminal {
  cmd_history : list string;
  history_index : Z;
  cmd_input : string;
  output_labels : list (string * string) }.

Module Terminal.

Definition __init__ : TerminalState := mkTerminal [] (-1) "" [].

(** [_format_result(self, result)] *)
Fixpoint _format_result (result : Result) : string :=
  match result with
  | RNone => "(nil)"
  | RBool b => if b then "true" else "false"
  | RInt n => "(integer) " +:+ str_of_int n
  | RFloat text => "(integer) " +:+ text
  | RBytes decoded => decoded
  | RStr s => quote +:+ s +:+ quote
  | RList items =>
      match items with
      | [] => "(empty list or set)"
      | _ => join_lines (list_lines _format_result 1 items)
      end
  | RDict d => join_lines (dict_lines _format_result 1 d)
  | ROther text => text
  end.

(** [_append_output(self, text, color)] *)
Definition _append_output (text color : string) (t : TerminalState) : TerminalState :=
  mkTerminal (cmd_history t) (history_index t) (cmd_input t)
             (output_labels t ++ [(text, color)]).

(** [_execute(self)]. [connected] is [redis_manager.connected];
    [result] is how [redis_manager.execute(...)] ends, an exception
    being given by its text. *)
Definition _execute (t : TerminalState) (connected : bool)
    (result : outcome string Result) : TerminalState :=
  let cmd := strip (cmd_input t) in
  if String.eqb cmd "" then t
  else
    let history := cmd_history t ++ [cmd] in
    let t := mkTerminal history (Z.of_nat (length history)) "" (output_labels t) in
    let t := _append_output ("> " +:+ cmd) "#569cd6" t in
    if negb connected then _append_output "Not connected to Redis" "#f44747" t
    else
      match result with
      | Returns r => _append_output (_format_result r) "#6a9955" t
      | Raises e => _append_output ("(error) " +:+ e) "#f44747" t
      end.

(** [_history_up(self)]; [None] is an [IndexError]. *)
Definition _history_up (t : TerminalState) : option TerminalState :=
  if match cmd_history t with [] => false | _ => true end && (0 <? history_index t) then
    let i := history_index t - 1 in
    match py_index (cmd_history t) i with
    | Some cmd => Some (mkTerminal (cmd_history t) i cmd (output_labels t))
    | None => None
    end
  else Some t.

(** [_history_down(self)] *)
Definition _history_down (t : TerminalState) : option TerminalState :=
  if history_index t <? Z.of_nat (length (cmd_history t)) - 1 then
    let i := history_index t + 1 in
    match py_index (cmd_history t) i with
    | Some cmd => Some (mkTerminal (cmd_history t) i cmd (output_labels t))
    | None => None
    end
  else
    Some (mkTerminal (cmd_history t) (Z.of_nat (length (cmd_history t))) ""
                     (output_labels t)).

(** [_clear(self)] *)
Definition _clear (t : TerminalState) : TerminalState :=
  mkTerminal (cmd_history t) (history_index t) (cmd_input t) [].

End Terminal.

(** What happens to the console: the user edits the input line, sends
    it, presses Up or Down, or clears the output. *)
Inductive terminal_event : Type :=
  | te_edit (text : string)
  | te_execute (connected : bool) (result : outcome string Result)
  | te_up
  | te_down
  | te_clear.

Definition terminal_step (t : TerminalState) (ev : terminal_event)
    : option TerminalState :=
  match ev with
  | te_edit text =>
      Some (mkTerminal (cmd_history t) (history_index t) text (output_labels t))
  | te_execute connected result => Some (Terminal._execute t connected result)
  | te_up => Terminal._history_up t
  | te_down => Terminal._history_down t
  | te_clear => Some (Terminal._clear t)
  end.

(** The console after the events, or [None] if one of them raised. *)
Fixpoint terminal_run (t : TerminalState) (evs : list terminal_event)
    : option TerminalState :=
  match evs with
  | [] => Some t
  | ev :: rest =>
      match terminal_step t ev with
      | Some t' => terminal_run t' rest
      | None => None
      end
  end.

(** The position stays between the oldest entry and one past the newest
    (or at -1 before the first command), and no entry is blank. *)
Definition history_inv (t : TerminalState) : Prop :=
  -1 <= history_index t <= Z.of_nat (length (cmd_history t)) /\
  (history_index t = -1 -> cmd_history t = []) /\
  Forall (fun cmd => cmd <> "") (cmd_history t).

(** * Properties *)

Example split_ex : split "user:1" = ["user"; "1"] /\ split "" = [""] /\ split "a::b" = ["a"; ""; "b"].
Proof. repeat split. Qed.

Example recount_ex :
  let result := PrefixTree.recount (build ["user:1"; "user:2"; "order:5"]) true in
  fst result = 3 /\
  (count <$> get_node (snd result) ["user"]) = Some 2 /\
  (is_key <$> get_node (snd result) ["user"]) = Some false.
Proof. repeat split. Qed.

Example to_nodes_ex :
  PrefixTree.to_nodes (build ["user:1"; "user:2"; "order:5"]) "" =
  [ DNode "order" "order (1)" "folder" (Some [DNode "order:5" "5" "key" None]);
    DNode "user" "user (2)" "folder"
      (Some [DNode "user:1" "1" "key" None; DNode "user:2" "2" "key" None]) ].
Proof. vm_compute. reflexivity. Qed.

(** ** Induction on the trie *)

Lemma prefix_tree_ind (P : _PrefixTree -> Prop) :
  (forall k c, P (Node None k c)) ->
  (forall d k c, Forall (fun kv => P (snd kv)) d -> P (Node (Some d) k c)) ->
  forall t, P t.
Proof.
  intros Hleaf Hnode. fix IH 1. intros [[d|] k c]; [|apply Hleaf].
  apply Hnode. induction d as [|[s ch] d IHd]; constructor; [apply IH | apply IHd].
Qed.

(** ** Strings: [split] and [join] *)

Lemma split_nonempty s : split s <> [].
Proof. destruct s as [|c s]; simpl; [done|]. destruct (Ascii.eqb c sep_char); [done|]. by destruct (split s). Qed.

Lemma join_split s : join (split s) = s.
Proof.
  induction s as [|c s IH]; [done|]. simpl.
  destruct (Ascii.eqb c sep_char) eqn:E.
  - apply Ascii.eqb_eq in E. subst c.
    pose proof (split_nonempty s) as Hne.
    destruct (split s) as [|p ps] eqn:Es; [done|].
    simpl in *. by rewrite IH.
  - destruct (split s) as [|p ps] eqn:Es; [by destruct (split_nonempty s)|].
    destruct ps as [|q qs]; simpl in *; by rewrite <- IH.
Qed.

Lemma split_inj : Inj (=) (=) split.
Proof. intros s1 s2 H. rewrite <- (join_split s1), <- (join_split s2). by rewrite H. Qed.

(** ** Dictionaries *)

Section Dict.
Context {V : Type}.
Implicit Types (d : dict V) (k s : string).

Lemma dict_contains_get k d : dict_contains k d = false <-> dict_get k d = None.
Proof.
  induction d as [|[k' v] d IH]; simpl; [done|].
  destruct (String.eqb_spec k k'); simpl; [done|apply IH].
Qed.

Lemma dict_contains_keys k d : dict_contains k d = true <-> k ∈ List.map fst d.
Proof.
  induction d as [|[k' v] d IH]; simpl.
  - split; [done|]. by intros ?%elem_of_nil.
  - rewrite elem_of_cons. destruct (String.eqb_spec k k'); simpl; [tauto|].
    rewrite IH. tauto.
Qed.

Lemma dict_get_elem s v d : dict_get s d = Some v -> (s, v) ∈ d.
Proof.
  induction d as [|[k' v'] d IH]; simpl; [done|].
  destruct (String.eqb_spec s k') as [->|Hne].
  - intros [= ->]. apply list_elem_of_here.
  - intros H. apply list_elem_of_further, IH, H.
Qed.

Lemma dict_elem_get s v d :
  NoDup (List.map fst d) -> (s, v) ∈ d -> dict_get s d = Some v.
Proof.
  induction d as [|[k' v'] d IH]; simpl; [by intros _ ?%elem_of_nil|].
  intros [Hnotin Hnd]%NoDup_cons [Heq|Hin]%elem_of_cons.
  - injection Heq as -> ->. by rewrite String.eqb_refl.
  - destruct (String.eqb_spec s k') as [->|Hne]; [|by apply IH].
    destruct Hnotin. change k' with (fst (k', v)).
    apply (list_elem_of_fmap_2 fst), Hin.
Qed.

Lemma dict_get_add_ne s k v d : s <> k -> dict_get s (dict_add k v d) = dict_get s d.
Proof.
  intros Hne. unfold dict_add. induction d as [|[k' v'] d IH]; simpl.
  - by destruct (String.eqb_spec s k).
  - by rewrite IH.
Qed.

Lemma dict_get_add_eq k v d :
  dict_get k d = None -> dict_get k (dict_add k v d) = Some v.
Proof.
  unfold dict_add. induction d as [|[k' v'] d IH]; simpl.
  - by rewrite String.eqb_refl.
  - destruct (String.eqb_spec k k'); [done|apply IH].
Qed.

Lemma dict_get_update_eq k (f : V -> V) d :
  dict_get k (dict_update k f d) = f <$> dict_get k d.
Proof.
  induction d as [|[k' v'] d IH]; simpl; [done|].
  destruct (String.eqb_spec k k') as [->|Hne]; simpl.
  - by rewrite String.eqb_refl.
  - destruct (String.eqb_spec k k'); [done|apply IH].
Qed.

Lemma dict_get_update_ne s k (f : V -> V) d :
  s <> k -> dict_get s (dict_update k f d) = dict_get s d.
Proof.
  intros Hne. induction d as [|[k' v'] d IH]; simpl; [done|].
  destruct (String.eqb_spec k k') as [->|Hne']; simpl.
  - by destruct (String.eqb_spec s k').
  - by rewrite IH.
Qed.

Lemma dict_update_keys k (f : V -> V) d :
  List.map fst (dict_update k f d) = List.map fst d.
Proof.
  induction d as [|[k' v'] d IH]; simpl; [done|].
  destruct (String.eqb k k'); simpl; by rewrite ?IH.
Qed.

Lemma dict_update_Forall (P : V -> Prop) k (f : V -> V) d :
  (forall v, P v -> P (f v)) ->
  Forall (fun kv => P (snd kv)) d ->
  Forall (fun kv => P (snd kv)) (dict_update k f d).
Proof.
  intros Hf. induction 1 as [|[k' v'] d Hv Hd IH]; simpl; [constructor|].
  destruct (String.eqb k k'); constructor; simpl in *; auto.
Qed.

(** Updating twice with an idempotent change is updating once. *)
Lemma dict_update_twice k (f : V -> V) d :
  (forall v, f (f v) = f v) ->
  dict_update k f (dict_update k f d) = dict_update k f d.
Proof.
  intros Hf. induction d as [|[k' v'] d IH]; simpl; [done|].
  destruct (String.eqb k k') eqn:E; simpl; rewrite E; by rewrite ?Hf, ?IH.
Qed.

Lemma dict_contains_update k s (f : V -> V) d :
  dict_contains s (dict_update k f d) = dict_contains s d.
Proof.
  induction d as [|[k' v'] d IH]; simpl; [done|].
  destruct (String.eqb k k'); simpl; by rewrite ?IH.
Qed.

Lemma dict_contains_add k v d : dict_contains k (dict_add k v d) = true.
Proof.
  unfold dict_add, dict_contains. rewrite existsb_app. simpl.
  rewrite String.eqb_refl. by rewrite orb_true_r.
Qed.
End Dict.

Lemma dict_update_same {V} k (f : V -> V) (d : dict V) v :
  dict_get k d = Some v -> f v = v -> dict_update k f d = d.
Proof.
  induction d as [|[k' v'] d IH]; simpl; [done|].
  destruct (String.eqb_spec k k') as [->|Hne].
  - intros [= ->] ->. done.
  - intros H1 H2. by rewrite IH.
Qed.

Lemma dict_get_map {V W} (g : V -> W) s (d : dict V) :
  dict_get s (List.map (fun kv => (fst kv, g (snd kv))) d) = g <$> dict_get s d.
Proof.
  induction d as [|[k' v'] d IH]; simpl; [done|].
  destruct (String.eqb s k'); [done|apply IH].
Qed.

(** ** [insert] *)

Lemma insert_nil t : PrefixTree.insert t [] = Node (children t) true (count t).
Proof. done. Qed.

Lemma insert_cons t part rest :
  PrefixTree.insert t (part :: rest) =
  let d0 := match children t with None => [] | Some d => d end in
  let d1 := if dict_contains part d0 then d0
            else dict_add part PrefixTree.__init__ d0 in
  Node (Some (dict_update part (fun child => PrefixTree.insert child rest) d1))
       (is_key t) (count t).
Proof. done. Qed.

Lemma insert_twice t parts :
  PrefixTree.insert (PrefixTree.insert t parts) parts = PrefixTree.insert t parts.
Proof.
  revert t. induction parts as [|part rest IH]; intros t; [done|].
  rewrite (insert_cons t). cbv zeta.
  set (d0 := match children t with None => [] | Some d => d end).
  set (d1 := if dict_contains part d0 then d0 else dict_add part PrefixTree.__init__ d0).
  assert (Hin : dict_contains part d1 = true).
  { subst d1. destruct (dict_contains part d0) eqn:E; [done|apply dict_contains_add]. }
  rewrite insert_cons. simpl. rewrite dict_contains_update, Hin.
  by rewrite dict_update_twice.
Qed.

Lemma insert_present t parts :
  has_key t parts = true -> PrefixTree.insert t parts = t.
Proof.
  unfold has_key. revert t. induction parts as [|part rest IH]; intros t; simpl.
  - destruct t as [ch k c]; simpl. by intros ->.
  - destruct t as [[d|] k c]; simpl; [|done].
    destruct (dict_get part d) as [child|] eqn:Eg; [|done].
    intros Hk. assert (dict_contains part d = true) as ->.
    { destruct (dict_contains part d) eqn:E; [done|].
      apply dict_contains_get in E. congruence. }
    by rewrite (dict_update_same _ _ _ child Eg (IH _ Hk)).
Qed.

Lemma has_key_insert t parts p :
  has_key (PrefixTree.insert t parts) p = bool_decide (p = parts) || has_key t p.
Proof.
  unfold has_key. revert t p. induction parts as [|part rest IH]; intros t p.
  - destruct p as [|s r]; [done|]. by destruct t.
  - rewrite insert_cons. cbv zeta.
    set (d0 := match children t with None => [] | Some d => d end).
    destruct p as [|s r]; [done|].
    assert (Hold : match get_node t (s :: r) with Some n => is_key n | None => false end
                   = match dict_get s d0 with
                     | Some child => match get_node child r with Some n => is_key n | None => false end
                     | None => false end).
    { subst d0. simpl. destruct (children t) as [d|]; simpl; [|done].
      by destruct (dict_get s d). }
    rewrite Hold. clear Hold. simpl.
    destruct (decide (s = part)) as [->|Hne].
    + rewrite dict_get_update_eq.
      destruct (dict_contains part d0) eqn:Ec.
      * destruct (dict_get part d0) as [child|] eqn:Eg.
        -- simpl. rewrite IH. f_equal. apply bool_decide_ext. naive_solver.
        -- apply dict_contains_get in Eg. congruence.
      * apply dict_contains_get in Ec. rewrite dict_get_add_eq, Ec by done.
        simpl. rewrite IH. rewrite orb_false_r.
        replace (match get_node PrefixTree.__init__ r with Some n => is_key n | None => false end)
          with false by (by destruct r).
        rewrite orb_false_r. apply bool_decide_ext. naive_solver.
    + rewrite dict_get_update_ne by done.
      rewrite bool_decide_eq_false_2 by naive_solver. simpl.
      destruct (dict_contains part d0); rewrite ?dict_get_add_ne by done;
        by destruct (dict_get s d0).
Qed.

Lemma wf_init : wf PrefixTree.__init__.
Proof. constructor. Qed.

Lemma wf_insert t parts : wf t -> wf (PrefixTree.insert t parts).
Proof.
  revert t. induction parts as [|part rest IH]; intros t Hwf.
  - destruct Hwf; simpl; by constructor.
  - rewrite insert_cons. cbv zeta.
    set (d0 := match children t with None => [] | Some d => d end).
    assert (Hd0 : NoDup (List.map fst d0) /\ Forall (fun kv => wf (snd kv)) d0).
    { subst d0. destruct Hwf; simpl; [split; constructor|done]. }
    destruct Hd0 as [Hnd Hall].
    constructor.
    + rewrite dict_update_keys. destruct (dict_contains part d0) eqn:Ec; [done|].
      unfold dict_add. rewrite List.map_app. simpl.
      apply NoDup_app. split_and!; [done| |apply NoDup_singleton].
      intros x Hx ->%list_elem_of_singleton.
      apply dict_contains_keys in Hx. congruence.
    + apply dict_update_Forall; [intros v; apply IH|].
      destruct (dict_contains part d0); [done|].
      apply Forall_app. split; [done|]. repeat constructor.
Qed.

Lemma has_key_build_from ks t0 p :
  has_key (fold_left (fun t k => PrefixTree.insert t (split k)) ks t0) p = true <->
  p ∈ List.map split ks \/ has_key t0 p = true.
Proof.
  revert t0. induction ks as [|k ks IH]; intros t0; simpl.
  - rewrite elem_of_nil. tauto.
  - rewrite IH, has_key_insert, elem_of_cons, orb_true_iff, bool_decide_eq_true. tauto.
Qed.

Lemma has_key_build ks p : has_key (build ks) p = true <-> p ∈ List.map split ks.
Proof.
  unfold build. rewrite has_key_build_from.
  assert (has_key PrefixTree.__init__ p = false) as -> by (by destruct p).
  split; [intros [?|?]; [done|discriminate]|by left].
Qed.

Lemma wf_build ks : wf (build ks).
Proof.
  unfold build. generalize wf_init. generalize PrefixTree.__init__.
  induction ks as [|k ks IH]; intros t0 Hwf; simpl; [done|].
  apply IH, wf_insert, Hwf.
Qed.

(** ** [recount] *)

Lemma recount_leaf k c b :
  PrefixTree.recount (Node None k c) b =
  (if k then 1 else 0, Node None k (if k then 1 else 0)).
Proof. by destruct b. Qed.

Lemma recount_node d k c :
  PrefixTree.recount (Node (Some d) k c) true =
  let '(total, d') :=
    PrefixTree.recount_values (fun t => PrefixTree.recount t true) d (Z.b2z k) in
  (total, Node (Some d') k total).
Proof.
  done.
Qed.

Lemma recount_values_spec rec d total :
  PrefixTree.recount_values rec d total =
  (total + foldr (fun kv acc => fst (rec (snd kv)) + acc) 0 d,
   List.map (fun kv => (fst kv, snd (rec (snd kv)))) d).
Proof.
  revert total. induction d as [|[s ch] d IH]; intros total; simpl.
  - f_equal. lia.
  - destruct (rec ch) as [n ch'] eqn:E. rewrite IH. simpl. f_equal. lia.
Qed.

Lemma recount_node_spec d k c :
  PrefixTree.recount (Node (Some d) k c) true =
  let total := Z.b2z k + foldr (fun kv acc => fst (PrefixTree.recount (snd kv) true) + acc) 0 d in
  (total,
   Node (Some (List.map (fun kv => (fst kv, snd (PrefixTree.recount (snd kv) true))) d)) k total).
Proof. by rewrite recount_node, recount_values_spec. Qed.

Lemma count_recount t b : count (snd (PrefixTree.recount t b)) = fst (PrefixTree.recount t b).
Proof.
  destruct t as [[d|] k c]; [|by rewrite recount_leaf].
  destruct b; [by rewrite recount_node_spec|done].
Qed.

(** The total that [recount] returns is the number of [is_key] nodes of
    the subtree. *)
Lemma recount_key_count t : fst (PrefixTree.recount t true) = key_count t.
Proof.
  unfold key_count. induction t as [k c|d k c IH] using prefix_tree_ind.
  - rewrite recount_leaf. by destruct k.
  - rewrite recount_node_spec. cbv zeta. simpl fst. simpl key_paths.
    rewrite length_app, Nat2Z.inj_add.
    f_equal; [by destruct k|].
    induction IH as [|[s ch] d Hch _ IHd]; simpl; [done|].
    rewrite length_app, length_map, Nat2Z.inj_add. simpl in Hch. by rewrite Hch, IHd.
Qed.

Lemma get_node_recount t p :
  get_node (snd (PrefixTree.recount t true)) p =
  (fun n => snd (PrefixTree.recount n true)) <$> get_node t p.
Proof.
  revert t. induction p as [|s r IH]; intros t; [done|].
  destruct t as [[d|] k c]; [|by rewrite recount_leaf].
  rewrite recount_node_spec. simpl.
  rewrite (dict_get_map (fun n => snd (PrefixTree.recount n true))).
  destruct (dict_get s d) as [child|]; simpl; [apply IH|done].
Qed.

(** ** The keys of a trie *)

Lemma elem_of_key_paths_node d k c p :
  p ∈ key_paths (Node (Some d) k c) <->
  (p = [] /\ k = true) \/
  exists s ch r, (s, ch) ∈ d /\ r ∈ key_paths ch /\ p = s :: r.
Proof.
  simpl. rewrite elem_of_app, (list_elem_of_In (flat_map _ _)), in_flat_map. split.
  - intros [Hk|[[s ch] [Hin Hp]]].
    + left. destruct k; [|by apply elem_of_nil in Hk].
      by apply list_elem_of_singleton in Hk.
    + right. simpl in Hp. apply in_map_iff in Hp as [r [<- Hr]].
      exists s, ch, r. by rewrite !list_elem_of_In.
  - intros [[-> ->]|(s & ch & r & Hin & Hr & ->)].
    + left. apply list_elem_of_here.
    + right. exists (s, ch). rewrite <- list_elem_of_In. split; [done|].
      simpl. apply in_map, list_elem_of_In, Hr.
Qed.

Lemma elem_of_key_paths_leaf k c p :
  p ∈ key_paths (Node None k c) <-> p = [] /\ k = true.
Proof.
  simpl. rewrite app_nil_r. destruct k.
  - rewrite list_elem_of_singleton. tauto.
  - rewrite elem_of_nil. split; [done|]. by intros [_ ?].
Qed.

Lemma key_paths_has_key t p : wf t -> p ∈ key_paths t <-> has_key t p = true.
Proof.
  unfold has_key. intros Hwf. revert p.
  induction t as [k c|d k c IH] using prefix_tree_ind; intros p.
  - rewrite elem_of_key_paths_leaf. destruct p as [|s r]; simpl; [|split; [by intros [? _]|done]].
    split; [by intros [_ ->]|done].
  - rewrite elem_of_key_paths_node.
    inversion Hwf as [|d' k' c' Hnd Hall]; subst.
    rewrite Forall_forall in IH. rewrite Forall_forall in Hall.
    destruct p as [|s r]; simpl.
    + split; [by intros [[_ ->]|(? & ? & ? & _ & _ & ?)]|by left].
    + split.
      * intros [[? _]|(s' & ch & r' & Hin & Hr & [= -> ->])]; [done|].
        rewrite (dict_elem_get _ _ _ Hnd Hin).
        apply (IH (s', ch)); [done| |done]. by apply (Hall (s', ch)).
      * destruct (dict_get s d) as [ch|] eqn:Eg; [|done].
        intros Hk. right. exists s, ch, r. apply dict_get_elem in Eg.
        split_and!; [done| |done].
        apply (IH (s, ch)); [done| |done]. by apply (Hall (s, ch)).
Qed.

Lemma NoDup_key_paths t : wf t -> NoDup (key_paths t).
Proof.
  induction t as [k c|d k c IH] using prefix_tree_ind; intros Hwf.
  - simpl. rewrite app_nil_r. destruct k; [apply NoDup_singleton|constructor].
  - inversion Hwf as [|d' k' c' Hnd Hall]; subst. simpl.
    apply NoDup_app. split_and!.
    + destruct k; [apply NoDup_singleton|constructor].
    + intros p Hp Hin. apply list_elem_of_In, in_flat_map in Hin as [[s ch] [_ Hin]].
      apply in_map_iff in Hin as [r [<- _]].
      destruct k; [by apply list_elem_of_singleton in Hp|by apply elem_of_nil in Hp].
    + clear Hwf. induction d as [|[s ch] d IHd]; simpl; [constructor|].
      apply NoDup_cons in Hnd as [Hs Hnd].
      apply Forall_cons in IH as [IHch IH]. apply Forall_cons in Hall as [Hch Hall].
      apply NoDup_app. split_and!.
      * apply (NoDup_fmap_2 (cons s)), IHch, Hch.
      * intros p Hp Hin. apply list_elem_of_In, in_map_iff in Hp as [r [<- _]].
        apply list_elem_of_In, in_flat_map in Hin as [[s' ch'] [Hin' Hin]].
        apply in_map_iff in Hin as [r' [[= -> ->] _]].
        apply Hs. simpl. apply list_elem_of_In, in_map_iff. by exists (s, ch').
      * by apply IHd.
Qed.

Lemma get_node_app t q r :
  get_node t (q ++ r) = get_node t q ≫= (fun n => get_node n r).
Proof.
  revert t. induction q as [|s q IH]; intros t; simpl; [done|].
  destruct (children t) as [d|]; [|done].
  destruct (dict_get s d) as [ch|]; [apply IH|done].
Qed.

Lemma has_key_app t q r n :
  get_node t q = Some n -> has_key t (q ++ r) = has_key n r.
Proof. unfold has_key. intros H. by rewrite get_node_app, H. Qed.

Lemma wf_get_node t q n : wf t -> get_node t q = Some n -> wf n.
Proof.
  revert t. induction q as [|s q IH]; intros t Hwf; simpl; [by intros [= <-]|].
  destruct Hwf as [|d k c Hnd Hall]; simpl; [done|].
  destruct (dict_get s d) as [ch|] eqn:Eg; [|done].
  apply IH. apply dict_get_elem in Eg. rewrite Forall_forall in Hall.
  by apply (Hall (s, ch)).
Qed.

(** The number of [is_key] nodes below the node at [q] of the trie built
    from [ks] is the number of distinct keys of [ks] that pass through [q]. *)
Lemma key_count_build ks q n :
  get_node (build ks) q = Some n ->
  key_count n =
  Z.of_nat (length (filter (fun k => q `prefix_of` split k) (remove_dups ks))).
Proof.
  intros Hq. unfold key_count. f_equal.
  pose proof (wf_build ks) as Hwf.
  pose proof (wf_get_node _ _ _ Hwf Hq) as Hwfn.
  rewrite <- (length_fmap (app q) (key_paths n)).
  rewrite <- (length_fmap split (filter _ _)).
  apply Permutation_length, NoDup_Permutation.
  - apply (NoDup_fmap_2 _), NoDup_key_paths, Hwfn.
  - apply (@NoDup_fmap_2 _ _ split split_inj), NoDup_filter, NoDup_remove_dups.
  - intros p. rewrite !list_elem_of_fmap. split.
    + intros (r & -> & Hr). apply key_paths_has_key in Hr; [|done].
      rewrite <- (has_key_app _ _ _ _ Hq) in Hr.
      apply has_key_build, list_elem_of_fmap in Hr as (k & Hk & Hin).
      exists k. split; [done|]. apply list_elem_of_filter. split.
      * rewrite <- Hk. by exists r.
      * by apply elem_of_remove_dups.
    + intros (k & -> & Hk). apply list_elem_of_filter in Hk as [[r Hr] Hin].
      rewrite elem_of_remove_dups in Hin.
      exists r. split; [done|]. apply key_paths_has_key; [done|].
      rewrite <- (has_key_app _ _ _ _ Hq), <- Hr.
      apply has_key_build, list_elem_of_fmap. by exists k.
Qed.

Lemma filter_prefix_nil (ks : list string) :
  filter (fun k => [] `prefix_of` split k) ks = ks.
Proof.
  induction ks as [|k ks IH]; [done|].
  rewrite filter_cons_True; [by rewrite IH|]. apply prefix_nil.
Qed.

Lemma wf_recount t : wf t -> wf (snd (PrefixTree.recount t true)).
Proof.
  induction t as [k c|d k c IH] using prefix_tree_ind; intros Hwf.
  - rewrite recount_leaf. constructor.
  - rewrite recount_node_spec. cbv zeta. simpl snd.
    inversion Hwf as [|d' k' c' Hnd Hall]; subst. constructor.
    + rewrite List.map_map. simpl. done.
    + clear Hwf Hnd. induction d as [|[s ch] d IHd]; simpl; [constructor|].
      apply Forall_cons in IH as [IHch IH]. apply Forall_cons in Hall as [Hch Hall].
      constructor; [by apply IHch|by apply IHd].
Qed.

Lemma reach_get_node t path n : wf t -> reach t path n -> get_node t path = Some n.
Proof.
  intros Hwf Hr. induction Hr as [t|t s ch p n Hin Hr IH]; [done|].
  destruct Hwf as [k c|d k c Hnd Hall]; simpl in *; [by apply elem_of_nil in Hin|].
  rewrite (dict_elem_get _ _ _ Hnd Hin). apply IH.
  rewrite Forall_forall in Hall. by apply (Hall (s, ch)).
Qed.

Lemma get_node_reach t path n : get_node t path = Some n -> reach t path n.
Proof.
  revert t. induction path as [|s p IH]; intros t; simpl.
  - intros [= <-]. constructor.
  - destruct (children t) as [d|] eqn:Ed; [|done].
    destruct (dict_get s d) as [ch|] eqn:Eg; [|done].
    intros Hn. apply reach_child with (child := ch); [|by apply IH].
    unfold entries. rewrite Ed. by apply dict_get_elem.
Qed.

(** After [recount], the count cached at the root of the trie built from
    [ks] is the number of distinct keys of [ks]. *)
Lemma build_root_count (ks : list string) :
  fst (PrefixTree.recount (build ks) true) = Z.of_nat (length (remove_dups ks)).
Proof.
  rewrite recount_key_count, (key_count_build ks [] (build ks)) by done.
  by rewrite filter_prefix_nil.
Qed.

(** ** C1: count correctness *)

(** C1. For a trie built by inserting the keys [ks] (each split on ':'),
    [recount] returns and caches at the root the number of distinct keys
    of [ks]; after it, the count of the node at any path is the number of
    distinct keys of [ks] whose component path has that path as a prefix
    (the node itself included when it is a key); and recounting a node
    without children yields 1 if it is a key and 0 otherwise. *)
Theorem recount_counts_distinct_keys (ks : list string) :
  let result := PrefixTree.recount (build ks) true in
  fst result = Z.of_nat (length (remove_dups ks)) /\
  count (snd result) = Z.of_nat (length (remove_dups ks)) /\
  (forall path n,
      reach (snd result) path n ->
      get_node (snd result) path = Some n /\
      count n =
      Z.of_nat (length (filter (fun k => path `prefix_of` split k) (remove_dups ks)))) /\
  (forall k c include_children,
      PrefixTree.recount (Node None k c) include_children =
      (if k then 1 else 0, Node None k (if k then 1 else 0))).
Proof.
  cbv zeta. split_and!.
  - apply build_root_count.
  - rewrite count_recount. apply build_root_count.
  - intros path n Hr.
    apply reach_get_node in Hr; [|apply wf_recount, wf_build].
    split; [done|]. rewrite get_node_recount in Hr.
    destruct (get_node (build ks) path) as [m|] eqn:Em; [|done].
    simpl in Hr. injection Hr as <-.
    rewrite count_recount, recount_key_count. by apply key_count_build.
  - apply recount_leaf.
Qed.

(** ** C2: idempotent insertion *)

(** C2. Inserting the key [k] into a trie [n >= 1] times gives the very
    trie that inserting it once gives, so that [recount] returns the same
    total and leaves the same count at every node; and inserting a key
    that is already present leaves the trie as it is. *)
Theorem insert_idempotent (t : _PrefixTree) (k : string) (n : nat) :
  (1 <= n)%nat ->
  let once := PrefixTree.insert t (split k) in
  let many := Nat.iter n (fun t' => PrefixTree.insert t' (split k)) t in
  many = once /\
  PrefixTree.recount many true = PrefixTree.recount once true /\
  (forall path,
      count <$> get_node (snd (PrefixTree.recount many true)) path =
      count <$> get_node (snd (PrefixTree.recount once true)) path) /\
  PrefixTree.insert once (split k) = once /\
  (has_key t (split k) = true -> PrefixTree.insert t (split k) = t).
Proof.
  intros Hn. cbv zeta.
  assert (Hiter : Nat.iter n (fun t' => PrefixTree.insert t' (split k)) t
                  = PrefixTree.insert t (split k)).
  { destruct n as [|n]; [lia|]. clear Hn.
    induction n as [|n IH]; [done|].
    rewrite Nat.iter_succ, IH. apply insert_twice. }
  rewrite Hiter. split_and!; try done.
  - apply insert_twice.
  - apply insert_present.
Qed.

Lemma insert_idempotent_witness :
  (1 <= 3)%nat /\
  Nat.iter 3 (fun t' => PrefixTree.insert t' (split "user:2"))
             (build ["user:1"; "order:5"])
  = PrefixTree.insert (build ["user:1"; "order:5"]) (split "user:2").
Proof.
  split; [lia|].
  apply (insert_idempotent (build ["user:1"; "order:5"]) "user:2" 3). lia.
Defined.

(** ** The order on strings *)

Lemma string_compare_trans_le s1 s2 s3 :
  String.compare s1 s2 <> Gt -> String.compare s2 s3 <> Gt ->
  String.compare s1 s3 <> Gt.
Proof.
  revert s2 s3. induction s1 as [|c1 s1 IH]; intros [|c2 s2] [|c3 s3]; simpl; try done.
  unfold Ascii.compare.
  destruct (N.compare_spec (N_of_ascii c1) (N_of_ascii c2)) as [E12|L12|G12];
    destruct (N.compare_spec (N_of_ascii c2) (N_of_ascii c3)) as [E23|L23|G23];
    destruct (N.compare_spec (N_of_ascii c1) (N_of_ascii c3)) as [E13|L13|G13];
    try done; try lia.
  apply IH.
Qed.

Lemma string_leb_trans s1 s2 s3 :
  String.leb s1 s2 = true -> String.leb s2 s3 = true -> String.leb s1 s3 = true.
Proof.
  unfold String.leb. intros H12 H23.
  pose proof (string_compare_trans_le s1 s2 s3) as H.
  destruct (String.compare s1 s2), (String.compare s2 s3), (String.compare s1 s3);
    try done; exfalso; by apply H.
Qed.

Lemma string_leb_false s1 s2 : String.leb s1 s2 = false -> String.ltb s2 s1 = true.
Proof.
  unfold String.leb, String.ltb. rewrite (String.compare_antisym s1 s2).
  by destruct (String.compare s2 s1).
Qed.

Lemma string_ltb_not_leb s1 s2 : String.ltb s1 s2 = true -> String.leb s2 s1 = false.
Proof.
  unfold String.leb, String.ltb. rewrite (String.compare_antisym s2 s1).
  by destruct (String.compare s1 s2).
Qed.

(** ** [sorted] is a stable sort *)

Section SortedFacts.
Context {A : Type} (key : A -> string).

Lemma place_Permutation x l : place key x l ≡ₚ x :: l.
Proof.
  induction l as [|y l IH]; simpl; [done|].
  destruct (String.leb (key x) (key y)); [done|].
  rewrite IH. apply Permutation_swap.
Qed.

Lemma sorted_Permutation l : sorted key l ≡ₚ l.
Proof.
  induction l as [|x l IH]; simpl; [done|].
  by rewrite place_Permutation, IH.
Qed.

Lemma place_StronglySorted x l :
  StronglySorted (key_le key) l -> StronglySorted (key_le key) (place key x l).
Proof.
  induction 1 as [|y l Hl IH Hy]; simpl; [repeat constructor|].
  destruct (String.leb (key x) (key y)) eqn:E.
  - constructor; [by constructor|]. constructor; [done|].
    eapply Forall_impl; [exact Hy|]. intros z Hz. unfold key_le in *.
    eapply string_leb_trans; eauto.
  - constructor; [done|]. rewrite place_Permutation. constructor; [|done].
    unfold key_le. destruct (String.leb_total (key x) (key y)); congruence.
Qed.

Lemma sorted_StronglySorted l : StronglySorted (key_le key) (sorted key l).
Proof.
  induction l as [|x l IH]; simpl; [constructor|]. by apply place_StronglySorted.
Qed.

(** Stability: elements with one and the same key keep their order. *)
Lemma place_filter_key (s : string) x l :
  StronglySorted (key_le key) l ->
  filter (fun y => key y = s) (place key x l) =
  filter (fun y => key y = s) (x :: l).
Proof.
  induction 1 as [|y l Hl IH Hy]; simpl; [done|].
  destruct (String.leb (key x) (key y)) eqn:E; [done|].
  rewrite (filter_cons _ y (place key x l)), IH.
  rewrite !(filter_cons _ x), !(filter_cons _ y).
  destruct (decide (key x = s)) as [Hx|Hx]; [|done].
  destruct (decide (key y = s)) as [Hy'|Hy']; [|done].
  rewrite Hx, Hy' in E. unfold String.leb in E.
  assert (String.compare s s = Eq) as Hrefl.
  { clear. induction s as [|c s IH]; simpl; [done|].
    unfold Ascii.compare. by rewrite N.compare_refl. }
  by rewrite Hrefl in E.
Qed.

Lemma sorted_filter_key (s : string) l :
  filter (fun y => key y = s) (sorted key l) = filter (fun y => key y = s) l.
Proof.
  induction l as [|x l IH]; simpl; [done|].
  rewrite place_filter_key by apply sorted_StronglySorted.
  by rewrite !(filter_cons _ x), IH.
Qed.

(** In a sorted list an element with a strictly smaller key comes first. *)
Lemma StronglySorted_lookup_lt (l : list A) (i j : nat) x y :
  StronglySorted (key_le key) l ->
  l !! i = Some x -> l !! j = Some y ->
  String.ltb (key x) (key y) = true -> (i < j)%nat.
Proof.
  intros Hs. revert i j. induction Hs as [|z l Hl IH Hz]; intros i j Hi Hj Hlt.
  - by rewrite lookup_nil in Hi.
  - destruct i as [|i], j as [|j]; simpl in *.
    + injection Hi as ->. injection Hj as ->.
      unfold String.ltb in Hlt.
      assert (String.compare (key y) (key y) = Eq) as Hrefl.
      { generalize (key y). clear. intros s. induction s as [|c s IH]; simpl; [done|].
        unfold Ascii.compare. by rewrite N.compare_refl. }
      by rewrite Hrefl in Hlt.
    + lia.
    + injection Hj as ->. rewrite Forall_forall in Hz.
      apply list_elem_of_lookup_2 in Hi. specialize (Hz _ Hi).
      apply string_ltb_not_leb in Hlt. unfold key_le in Hz. congruence.
    + apply (IH i j) in Hlt; [lia|done|done].
Qed.
End SortedFacts.

Lemma sorted_map {A B} (key : B -> string) (g : A -> B) (l : list A) :
  sorted key (List.map g l) = List.map g (sorted (fun x => key (g x)) l).
Proof.
  induction l as [|x l IH]; simpl; [done|]. rewrite IH.
  generalize (sorted (fun x => key (g x)) l). intros l'.
  induction l' as [|y l' IH']; simpl; [done|].
  destruct (String.leb (key (g x)) (key (g y))); simpl; by rewrite ?IH'.
Qed.

(** ** [to_nodes] *)

Lemma to_nodes_loop prefix (l : dict _PrefixTree) folders leaves :
  fold_left (PrefixTree.to_nodes_step prefix)
    (List.map (fun kv => (fst kv, (snd kv, PrefixTree.to_nodes (snd kv)))) l)
    (folders, leaves) =
  (folders ++ List.map (folder_entry prefix) (List.filter (fun kv => has_children (snd kv)) l),
   leaves ++ List.map (leaf_entry prefix) (List.filter (fun kv => is_key (snd kv)) l)).
Proof.
  revert folders leaves. induction l as [|[s ch] l IH]; intros folders leaves; simpl.
  - by rewrite !app_nil_r.
  - unfold has_children. destruct (children ch) as [d|] eqn:Ec, (is_key ch) eqn:Ek;
      simpl; rewrite IH, <- ?app_assoc; simpl; try done;
      unfold folder_entry, descendant_key_count; simpl;
      by rewrite recount_key_count, Ek.
Qed.

Lemma filter_bool {A} (p : A -> bool) (l : list A) :
  List.filter p l = filter (fun x => p x = true) l.
Proof.
  induction l as [|x l IH]; simpl; [done|].
  rewrite filter_cons. destruct (p x) eqn:E.
  - rewrite decide_True by done. by rewrite IH.
  - rewrite decide_False by done. done.
Qed.

(** [to_nodes] returns the folder entries of the children that have
    children, then the leaf entries of the children that are keys, both
    in the order of the visit. *)
Lemma to_nodes_eq t prefix :
  PrefixTree.to_nodes t prefix =
  (folder_entry prefix <$> filter (fun kv => has_children (snd kv) = true) (visit_order t)) ++
  (leaf_entry prefix <$> filter (fun kv => is_key (snd kv) = true) (visit_order t)).
Proof.
  rewrite <- (filter_bool (fun kv : string * _PrefixTree => has_children (snd kv))),
    <- (filter_bool (fun kv : string * _PrefixTree => is_key (snd kv))).
  destruct t as [[d|] k c]; [|done].
  unfold visit_order, entries. simpl.
  rewrite (sorted_map (fun item : string * (_PrefixTree * (string -> list DisplayNode)) => lower (fst item))
             (fun kv : string * _PrefixTree => (fst kv, (snd kv, PrefixTree.to_nodes (snd kv))))).
  simpl. by rewrite to_nodes_loop.
Qed.

Lemma StronglySorted_filter {A} (R : A -> A -> Prop) (P : A -> Prop)
    `{forall x, Decision (P x)} (l : list A) :
  StronglySorted R l -> StronglySorted R (filter P l).
Proof.
  induction 1 as [|x l Hl IH Hx]; [constructor|].
  rewrite filter_cons. destruct (decide (P x)); [|done].
  constructor; [done|]. rewrite Forall_forall in Hx. apply Forall_forall.
  intros y [_ Hy]%list_elem_of_filter. by apply Hx.
Qed.

Lemma elem_of_visit_order t kv : kv ∈ visit_order t <-> kv ∈ entries t.
Proof. unfold visit_order. by rewrite sorted_Permutation. Qed.

Lemma filter_comm {A} (P Q : A -> Prop) `{forall x, Decision (P x)}
    `{forall x, Decision (Q x)} (l : list A) :
  filter P (filter Q l) = filter Q (filter P l).
Proof.
  induction l as [|x l IH]; [done|].
  rewrite !(filter_cons _ x l).
  destruct (decide (Q x)), (decide (P x)); rewrite ?filter_cons;
    rewrite ?decide_True by done; rewrite ?decide_False by done; by rewrite IH.
Qed.

Lemma sorted_filter_stable {A} (key : A -> string) (P : A -> Prop)
    `{forall x, Decision (P x)} (s : string) (l : list A) :
  filter (fun x => key x = s) (filter P (sorted key l)) =
  filter (fun x => key x = s) (filter P l).
Proof.
  rewrite (filter_comm (fun x => key x = s) P), sorted_filter_key.
  apply filter_comm.
Qed.

(** ** C4: the order of the entries *)

(** C4, as the code has it, for a trie whose components are ASCII text
    (there the lower-casing and the order of the model are those of
    [str.lower] and of [str]). The entries that [to_nodes] returns for a
    node are the folder entries of its children that have children,
    followed by the leaf entries of its children that are keys. Among the
    folder entries, and among the leaf entries, a component whose
    lower-cased form is strictly smaller comes first, and components with
    the same lower-cased form keep the insertion order of the dict. A
    child that is a key and has children has both a folder entry and a
    leaf entry. *)
Theorem to_nodes_ordering (t : _PrefixTree) (prefix : string)
    (Hascii : ascii_components t = true) :
  exists folders leaves : dict _PrefixTree,
    PrefixTree.to_nodes t prefix =
      (folder_entry prefix <$> folders) ++ (leaf_entry prefix <$> leaves) /\
    Forall (fun e => node_icon e = "folder") (folder_entry prefix <$> folders) /\
    Forall (fun e => node_icon e = "key") (leaf_entry prefix <$> leaves) /\
    folders ≡ₚ filter (fun kv => has_children (snd kv) = true) (entries t) /\
    leaves ≡ₚ filter (fun kv => is_key (snd kv) = true) (entries t) /\
    (forall group i j a b,
        group = folders \/ group = leaves ->
        group !! i = Some a -> group !! j = Some b ->
        String.ltb (lower (fst a)) (lower (fst b)) = true -> (i < j)%nat) /\
    (forall s,
        filter (fun kv => lower (fst kv) = s) folders =
        filter (fun kv => lower (fst kv) = s)
          (filter (fun kv => has_children (snd kv) = true) (entries t))) /\
    (forall s,
        filter (fun kv => lower (fst kv) = s) leaves =
        filter (fun kv => lower (fst kv) = s)
          (filter (fun kv => is_key (snd kv) = true) (entries t))) /\
    (forall kv,
        kv ∈ entries t -> is_key (snd kv) = true -> has_children (snd kv) = true ->
        folder_entry prefix kv ∈ folder_entry prefix <$> folders /\
        leaf_entry prefix kv ∈ leaf_entry prefix <$> leaves).
Proof.
  exists (filter (fun kv => has_children (snd kv) = true) (visit_order t)),
         (filter (fun kv => is_key (snd kv) = true) (visit_order t)).
  pose proof (sorted_StronglySorted (fun kv : string * _PrefixTree => lower (fst kv)) (entries t)) as Hs.
  split_and!.
  - apply to_nodes_eq.
  - apply Forall_fmap, Forall_forall. done.
  - apply Forall_fmap, Forall_forall. done.
  - unfold visit_order. by rewrite sorted_Permutation.
  - unfold visit_order. by rewrite sorted_Permutation.
  - intros group i j a b Hg Hi Hj Hlt.
    apply (StronglySorted_lookup_lt (fun kv : string * _PrefixTree => lower (fst kv)) group i j a b);
      [|done..].
    destruct Hg as [-> | ->]; by apply StronglySorted_filter.
  - intros s. apply sorted_filter_stable.
  - intros s. apply sorted_filter_stable.
  - intros kv Hin Hk Hc. split; apply list_elem_of_fmap_2, list_elem_of_filter;
      (split; [done|by apply elem_of_visit_order]).
Qed.

Lemma to_nodes_ordering_witness :
  ascii_components (build ["b:x"; "B"; "a"; "b"]) = true /\
  exists folders leaves : dict _PrefixTree,
    PrefixTree.to_nodes (build ["b:x"; "B"; "a"; "b"]) "" =
      (folder_entry "" <$> folders) ++ (leaf_entry "" <$> leaves) /\
    Forall (fun e => node_icon e = "folder") (folder_entry "" <$> folders) /\
    Forall (fun e => node_icon e = "key") (leaf_entry "" <$> leaves).
Proof.
  split; [reflexivity|].
  destruct (to_nodes_ordering (build ["b:x"; "B"; "a"; "b"]) "" eq_refl)
    as (folders & leaves & Heq & Hf & Hl & _).
  exists folders, leaves. split; [exact Heq|]. split; [exact Hf|exact Hl].
Defined.

Lemma sibling_order_counterexample :
  PrefixTree.to_nodes (build ["A"; "a"]) "" =
    [DNode "A" "A" "key" None; DNode "a" "a" "key" None] /\
  String.ltb (lower "A") (lower "a") = false /\
  PrefixTree.to_nodes (build ["b:x"; "a"]) "" =
    [DNode "b" "b (1)" "folder" (Some [DNode "b:x" "x" "key" None]);
     DNode "a" "a" "key" None] /\
  String.ltb (lower "a") (lower "b") = true.
Proof. repeat split; vm_compute; reflexivity. Qed.

(** ** C3: the number in a folder label *)
Lemma elem_of_flatten e es :
  e ∈ flatten es <-> exists x, x ∈ es /\ e ∈ flatten_node x.
Proof.
  unfold flatten. rewrite list_elem_of_In, in_flat_map.
  by setoid_rewrite list_elem_of_In.
Qed.

Lemma flatten_node_leaf prefix kv :
  flatten_node (leaf_entry prefix kv) = [leaf_entry prefix kv].
Proof. done. Qed.

Lemma flatten_node_folder prefix kv :
  flatten_node (folder_entry prefix kv) =
  folder_entry prefix kv ::
  flatten (PrefixTree.to_nodes (snd kv) (PrefixTree.child_id prefix (fst kv))).
Proof. done. Qed.

Lemma elem_of_flatten_to_nodes e t prefix :
  e ∈ flatten (PrefixTree.to_nodes t prefix) <->
  exists kv, kv ∈ entries t /\
    ((is_key (snd kv) = true /\ e = leaf_entry prefix kv) \/
     (has_children (snd kv) = true /\
      (e = folder_entry prefix kv \/
       e ∈ flatten (PrefixTree.to_nodes (snd kv) (PrefixTree.child_id prefix (fst kv)))))).
Proof.
  rewrite elem_of_flatten. setoid_rewrite to_nodes_eq at 1. split.
  - intros (x & Hx & He). apply elem_of_app in Hx as [Hx|Hx];
      apply list_elem_of_fmap in Hx as (kv & -> & Hkv);
      apply list_elem_of_filter in Hkv as [Hp Hkv];
      apply elem_of_visit_order in Hkv; exists kv; (split; [done|]).
    + right. split; [done|]. rewrite flatten_node_folder in He.
      by apply elem_of_cons in He.
    + left. split; [done|]. rewrite flatten_node_leaf in He.
      by apply list_elem_of_singleton in He.
  - intros (kv & Hkv & [[Hk ->]|[Hc He]]).
    + exists (leaf_entry prefix kv). split; [|apply list_elem_of_here].
      apply elem_of_app. right. apply list_elem_of_fmap_2, list_elem_of_filter.
      split; [done|by apply elem_of_visit_order].
    + exists (folder_entry prefix kv). split.
      * apply elem_of_app. left. apply list_elem_of_fmap_2, list_elem_of_filter.
        split; [done|by apply elem_of_visit_order].
      * rewrite flatten_node_folder. by apply elem_of_cons.
Qed.

Lemma reach_snoc_has_children t path n :
  reach t path n -> path <> [] -> has_children t = true.
Proof.
  destruct 1 as [|t s ch p n Hin _]; [done|]. intros _.
  unfold entries, has_children in *. destruct (children t); [done|].
  by apply elem_of_nil in Hin.
Qed.

(** C3, as the code has it. The number in the label of a folder entry is
    the number of [is_key] nodes strictly below the node that the entry
    stands for: the count of its subtree, less one when the node is
    itself a key. Every entry with the folder icon, at any depth, is the
    entry of such a node, and every node below the root that has children
    has such an entry. *)
Theorem folder_label_counts_descendant_keys (t : _PrefixTree) (prefix : string) :
  (forall e,
      e ∈ flatten (PrefixTree.to_nodes t prefix) -> node_icon e = "folder" ->
      exists path segment n,
        reach t (path ++ [segment]) n /\ has_children n = true /\
        node_id e = path_id prefix (path ++ [segment]) /\
        node_label e =
          segment +:+ " (" +:+ str_of_int (descendant_key_count n) +:+ ")") /\
  (forall path segment n,
      reach t (path ++ [segment]) n -> has_children n = true ->
      exists e,
        e ∈ flatten (PrefixTree.to_nodes t prefix) /\ node_icon e = "folder" /\
        node_id e = path_id prefix (path ++ [segment]) /\
        node_label e =
          segment +:+ " (" +:+ str_of_int (descendant_key_count n) +:+ ")").
Proof.
  split.
  - revert prefix. induction t as [k c|d k c IH] using prefix_tree_ind; intros prefix e He Hicon.
    + by apply elem_of_nil in He.
    + apply elem_of_flatten_to_nodes in He as (kv & Hkv & [[_ ->]|[Hc [->|He]]]).
      * done.
      * exists [], (fst kv), (snd kv). split_and!; try done.
        apply reach_child with (child := snd kv); [by destruct kv|constructor].
      * rewrite Forall_forall in IH.
        destruct (IH kv Hkv _ e He Hicon) as (path & segment & n & Hr & Hn & Hid & Hl).
        exists (fst kv :: path), segment, n. split_and!; try done.
        apply reach_child with (child := snd kv); [by destruct kv|done].
  - intros path. revert t prefix. induction path as [|s path IH]; intros t prefix segment n Hr Hn.
    + inversion Hr as [|t' s' ch p n' Hin Hr']; subst.
      inversion Hr'; subst.
      exists (folder_entry prefix (segment, n)). split_and!; try done.
      apply elem_of_flatten_to_nodes. exists (segment, n). split; [done|].
      right. split; [done|]. by left.
    + inversion Hr as [|t' s' ch p n' Hin Hr']; subst.
      destruct (IH ch (PrefixTree.child_id prefix s) segment n Hr' Hn)
        as (e & He & Hicon & Hid & Hl).
      exists e. split_and!; try done.
      apply elem_of_flatten_to_nodes. exists (s, ch). split; [done|].
      right. split; [|by right].
      apply (reach_snoc_has_children _ _ _ Hr'). by destruct path.
Qed.

Lemma folder_label_counterexample :
  let t := build ["a"; "a:b"] in
  exists e n,
    e ∈ PrefixTree.to_nodes t "" /\ node_icon e = "folder" /\ node_id e = "a" /\
    get_node t ["a"] = Some n /\ has_children n = true /\
    key_count n = 2 /\ node_label e = "a (1)" /\
    node_label e <> "a" +:+ " (" +:+ str_of_int (key_count n) +:+ ")".
Proof.
  eexists _, _. split_and!.
  - vm_compute. apply list_elem_of_here.
  - reflexivity.
  - reflexivity.
  - vm_compute. reflexivity.
  - reflexivity.
  - reflexivity.
  - reflexivity.
  - vm_compute. discriminate.
Qed.

(** ** C10: the ids of the leaf entries *)

(** C10, at the failing input. The key [":a"] has the components [""] and
    ["a"]; the id of the node [""] is the empty string, which [to_nodes]
    then takes for the absence of a prefix, so that the leaf gets the id
    ["a"] and not the key. With the key ["a"] also present, two leaves
    carry the id ["a"]. *)
Theorem leaf_id_loses_leading_separator :
  leaf_ids (PrefixTree.to_nodes (build [":a"]) "") = ["a"] /\
  leaf_ids (PrefixTree.to_nodes (build [":a"; "a"]) "") = ["a"; "a"] /\
  leaf_ids (PrefixTree.to_nodes (build ["a:b"; "a"]) "") = ["a:b"; "a"].
Proof. repeat split; vm_compute; reflexivity. Qed.

(** Away from that input the ids are the keys. *)

Lemma append_String c (s1 s2 : string) : String c s1 +:+ s2 = String c (s1 +:+ s2).
Proof. reflexivity. Qed.

Lemma append_assoc (s1 s2 s3 : string) : (s1 +:+ s2) +:+ s3 = s1 +:+ (s2 +:+ s3).
Proof. induction s1 as [|c s1 IH]; [done|]. by rewrite !append_String, IH. Qed.

Lemma append_nil_r (s : string) : s +:+ "" = s.
Proof. induction s as [|c s IH]; [done|]. by rewrite append_String, IH. Qed.

Lemma join_tail_text s rest : join (s :: rest) = s +:+ tail_text rest.
Proof.
  revert s. induction rest as [|r rest IH]; intros s.
  - simpl. by rewrite append_nil_r.
  - change (join (s :: r :: rest)) with (s +:+ SEPARATOR +:+ join (r :: rest)).
    rewrite IH. simpl. done.
Qed.

Lemma path_id_nonempty c p rest :
  path_id (String c p) rest = String c p +:+ tail_text rest.
Proof.
  unfold path_id. revert c p. induction rest as [|s rest IH]; intros c p; simpl.
  - by rewrite append_nil_r.
  - rewrite append_String, IH, <- append_String. by rewrite !append_assoc.
Qed.

Lemma path_id_split k : starts_with_sep k = false -> path_id "" (split k) = k.
Proof.
  destruct k as [|c k]; [done|]. simpl. intros Hc.
  pose proof (join_split (String c k)) as Hj. simpl in Hj. rewrite Hc in Hj |- *.
  destruct (split k) as [|s rest]; [done|].
  rewrite join_tail_text in Hj. unfold path_id. simpl.
  by rewrite <- Hj, <- (path_id_nonempty c s rest).
Qed.

Lemma leaf_ids_app es1 es2 : leaf_ids (es1 ++ es2) = leaf_ids es1 ++ leaf_ids es2.
Proof. unfold leaf_ids, flatten. by rewrite flat_map_app, filter_app, fmap_app. Qed.

Lemma leaf_ids_folders prefix (l : dict _PrefixTree) :
  leaf_ids (folder_entry prefix <$> l) =
  flat_map (fun kv => leaf_ids (PrefixTree.to_nodes (snd kv)
                                  (PrefixTree.child_id prefix (fst kv)))) l.
Proof.
  induction l as [|kv l IH]; [done|].
  rewrite fmap_cons. change (folder_entry prefix kv :: (folder_entry prefix <$> l))
    with ([folder_entry prefix kv] ++ (folder_entry prefix <$> l)).
  rewrite leaf_ids_app, IH. simpl. f_equal.
  unfold leaf_ids, flatten. simpl. rewrite app_nil_r.
  by rewrite filter_cons_False by done.
Qed.

Lemma leaf_ids_leaves prefix (l : dict _PrefixTree) :
  leaf_ids (leaf_entry prefix <$> l) =
  (fun kv => PrefixTree.child_id prefix (fst kv)) <$> l.
Proof.
  induction l as [|kv l IH]; [done|].
  rewrite !fmap_cons, <- IH. unfold leaf_ids, flatten. simpl. done.
Qed.

Lemma proper_key_paths_leaf t : has_children t = false -> proper_key_paths t = [].
Proof. unfold has_children, proper_key_paths, entries. by destruct (children t). Qed.

Lemma key_paths_proper t :
  key_paths t = (if is_key t then [[]] else []) ++ proper_key_paths t.
Proof. destruct t as [[d|] k c]; done. Qed.

Lemma Permutation_regroup {A} (a b c d : list A) :
  (a ++ c) ++ (b ++ d) ≡ₚ (a ++ b) ++ (c ++ d).
Proof.
  rewrite <- !app_assoc. apply Permutation_app_head.
  rewrite !app_assoc. apply Permutation_app_tail, Permutation_app_comm.
Qed.

(** What one child contributes to the leaf ids, as a folder and as a leaf. *)
Lemma leaf_ids_entries prefix (l : list (string * _PrefixTree)) :
  Forall (fun kv => forall prefix',
            leaf_ids (PrefixTree.to_nodes (snd kv) prefix') ≡ₚ
            path_id prefix' <$> proper_key_paths (snd kv)) l ->
  flat_map (fun kv => leaf_ids (PrefixTree.to_nodes (snd kv)
                                  (PrefixTree.child_id prefix (fst kv))))
           (filter (fun kv => has_children (snd kv) = true) l) ++
  ((fun kv => PrefixTree.child_id prefix (fst kv)) <$>
     filter (fun kv => is_key (snd kv) = true) l) ≡ₚ
  path_id prefix <$>
    flat_map (fun kv => List.map (cons (fst kv)) (key_paths (snd kv))) l.
Proof.
  induction 1 as [|[s ch] l Hch _ IH]; [done|]. simpl in Hch.
  set (F := fun kv : string * _PrefixTree =>
              leaf_ids (PrefixTree.to_nodes (snd kv) (PrefixTree.child_id prefix (fst kv)))) in *.
  set (G := fun kv : string * _PrefixTree => PrefixTree.child_id prefix (fst kv)) in *.
  assert (HF : flat_map F (filter (fun kv => has_children (snd kv) = true) ((s, ch) :: l)) =
               (if has_children ch then F (s, ch) else []) ++
               flat_map F (filter (fun kv => has_children (snd kv) = true) l)).
  { rewrite filter_cons. simpl.
    destruct (has_children ch);
      [rewrite decide_True by done|rewrite decide_False by done]; done. }
  assert (HG : G <$> filter (fun kv => is_key (snd kv) = true) ((s, ch) :: l) =
               (if is_key ch then [G (s, ch)] else []) ++
               (G <$> filter (fun kv => is_key (snd kv) = true) l)).
  { rewrite filter_cons. simpl.
    destruct (is_key ch);
      [rewrite decide_True by done|rewrite decide_False by done]; done. }
  unfold F, G in HF, HG |- *. rewrite HF, HG. clear HF HG.
  simpl flat_map. rewrite fmap_app, <- IH. clear IH.
  assert (Hone :
    (if has_children ch then F (s, ch) else []) ++
    (if is_key ch then [G (s, ch)] else []) ≡ₚ
    path_id prefix <$> List.map (cons s) (key_paths ch)).
  { unfold F, G. simpl. rewrite key_paths_proper, List.map_app, fmap_app.
    rewrite Permutation_app_comm. apply Permutation_app.
    - by destruct (is_key ch).
    - destruct (has_children ch) eqn:Ec.
      + rewrite Hch. change (List.map (cons s) (proper_key_paths ch))
          with (cons s <$> proper_key_paths ch).
        by rewrite <- list_fmap_compose.
      + by rewrite proper_key_paths_leaf. }
  rewrite <- Hone. apply Permutation_regroup.
Qed.

(** The ids of the leaves of [to_nodes] are the ids of the paths of the
    keys below the node. *)
Lemma leaf_ids_to_nodes t prefix :
  leaf_ids (PrefixTree.to_nodes t prefix) ≡ₚ path_id prefix <$> proper_key_paths t.
Proof.
  revert prefix. induction t as [k c|d k c IH] using prefix_tree_ind; intros prefix; [done|].
  rewrite to_nodes_eq, leaf_ids_app, leaf_ids_folders, leaf_ids_leaves.
  assert (Hperm : visit_order (Node (Some d) k c) ≡ₚ d).
  { unfold visit_order. apply sorted_Permutation. }
  rewrite Hperm. by apply leaf_ids_entries.
Qed.

Lemma key_paths_build ks : key_paths (build ks) ≡ₚ split <$> remove_dups ks.
Proof.
  apply NoDup_Permutation.
  - apply NoDup_key_paths, wf_build.
  - apply (@NoDup_fmap_2 _ _ split split_inj), NoDup_remove_dups.
  - intros p. rewrite key_paths_has_key by apply wf_build.
    rewrite has_key_build, !list_elem_of_fmap. by setoid_rewrite elem_of_remove_dups.
Qed.

Lemma build_root_not_key ks : is_key (build ks) = false.
Proof.
  destruct (is_key (build ks)) eqn:E; [|done].
  assert (has_key (build ks) [] = true) as H by done.
  apply has_key_build, list_elem_of_fmap in H as (k & Hk & _).
  symmetry in Hk. by apply split_nonempty in Hk.
Qed.

(** When no key begins with the separator, the leaf entries of the
    materialized trie carry exactly the distinct inserted keys as ids,
    each once. *)
Lemma leaf_ids_round_trip (ks : list string) :
  (forall k, k ∈ ks -> starts_with_sep k = false) ->
  leaf_ids (PrefixTree.to_nodes (build ks) "") ≡ₚ remove_dups ks.
Proof.
  intros Hks. rewrite leaf_ids_to_nodes.
  assert (proper_key_paths (build ks) = key_paths (build ks)) as ->.
  { by rewrite key_paths_proper, build_root_not_key. }
  rewrite key_paths_build, <- list_fmap_compose.
  assert (Heq : (path_id "" ∘ split) <$> remove_dups ks = remove_dups ks).
  { rewrite <- (list_fmap_id (remove_dups ks)) at 2.
    apply list_fmap_ext. intros i k Hk. simpl. apply path_id_split, Hks.
    apply list_elem_of_lookup_2 in Hk. by rewrite elem_of_remove_dups in Hk. }
  by rewrite Heq.
Qed.

(** ** The states that the manager can be in *)

Lemma manager_inv_init : manager_inv ThreadSafeRedisManager.__init__ world0.
Proof. split; simpl; try done; try constructor; done. Qed.

Lemma Forall_lt_S (l : list nat) (n : nat) :
  Forall (fun i => (i < n)%nat) l -> Forall (fun i => (i < S n)%nat) l.
Proof. intros H. eapply Forall_impl; [exact H|]. simpl. lia. Qed.

Lemma not_elem_of_lt (l : list nat) (n : nat) :
  Forall (fun i => (i < n)%nat) l -> n ∉ l.
Proof. rewrite Forall_forall. intros H Hn. apply H in Hn. lia. Qed.

Lemma manager_inv_run_call c m w :
  manager_inv m w -> manager_inv (fst (run_call c (m, w))) (snd (run_call c (m, w))).
Proof.
  intros [Hraw Hpool Hcl Hsh Hc Hrc Hex].
  destruct c as [h p d pw u [e|]| |d sel sel_raw|f wait]; simpl.
  - (* connect, the probe fails *)
    split; simpl; try done.
    + constructor; [lia|by apply Forall_lt_S].
    + by apply Forall_lt_S.
    + intros c Hcm. destruct (Hc c Hcm) as [Hlt Hnot]. split; [lia|].
      rewrite not_elem_of_cons. split; [lia|done].
    + intros c Hcm. destruct (Hrc c Hcm) as [Hlt Hnot]. split; [lia|].
      rewrite not_elem_of_cons. split; [lia|done].
    + intros q Hq. destruct (Hex q Hq) as [Hlt Hnot]. split; [lia|done].
  - (* connect, the probe succeeds *)
    destruct (_client m) as [c|] eqn:Ec.
    + destruct (_raw_client m) as [rc|] eqn:Erc; [|destruct Hraw as [H _]; discriminate (H eq_refl)].
      destruct (_executor m) as [q|] eqn:Eq; [|destruct Hpool as [H _]; discriminate (H eq_refl)].
      destruct (Hc c eq_refl) as [Hc1 Hc2], (Hrc rc eq_refl) as [Hrc1 Hrc2],
               (Hex q eq_refl) as [Hq1 Hq2].
      split; simpl; try done; try (intros x [= <-]; simpl; split; [lia|]);
        rewrite ?Forall_cons, ?not_elem_of_cons; split_and?; try lia;
        first [apply not_elem_of_lt|idtac];
        (eapply Forall_impl; [first [exact Hcl|exact Hsh]|simpl; intros; lia]).
    + destruct (_raw_client m) as [rc|] eqn:Erc; [destruct Hraw as [_ H]; discriminate (H eq_refl)|].
      destruct (_executor m) as [q|] eqn:Eq; [destruct Hpool as [_ H]; discriminate (H eq_refl)|].
      split; simpl; try done; try (intros x [= <-]; simpl; split; [lia|]);
        rewrite ?Forall_cons, ?not_elem_of_cons; split_and?; try lia;
        first [apply not_elem_of_lt|idtac];
        (eapply Forall_impl; [first [exact Hcl|exact Hsh]|simpl; intros; lia]).
  - (* disconnect *)
    destruct (_client m) as [c|] eqn:Ec.
    + destruct (_raw_client m) as [rc|] eqn:Erc; [|destruct Hraw as [H _]; discriminate (H eq_refl)].
      destruct (_executor m) as [q|] eqn:Eq; [|destruct Hpool as [H _]; discriminate (H eq_refl)].
      destruct (Hc c eq_refl) as [Hc1 Hc2], (Hrc rc eq_refl) as [Hrc1 Hrc2],
               (Hex q eq_refl) as [Hq1 Hq2].
      split; simpl; try done; rewrite ?Forall_cons; split_and?; done.
    + destruct (_raw_client m) as [rc|] eqn:Erc; [destruct Hraw as [_ H]; discriminate (H eq_refl)|].
      destruct (_executor m) as [q|] eqn:Eq; [destruct Hpool as [_ H]; discriminate (H eq_refl)|].
      split; simpl; done.
  - (* select_db *)
    unfold ThreadSafeRedisManager.select_db.
    destruct (_client m) as [c|] eqn:Ec, sel as [e|], (_raw_client m) as [rc|] eqn:Erc,
             sel_raw as [e'|]; simpl; split; simpl; rewrite ?Ec, ?Erc; done.
  - (* execute *)
    unfold ThreadSafeRedisManager.execute. destruct (_executor m) as [q|] eqn:Eq; simpl; [|by split; rewrite ?Eq].
    destruct (bool_decide (q ∈ shut_down w)); simpl; split; simpl; rewrite ?Eq; done.
Qed.

Lemma manager_inv_run_calls cs :
  manager_inv (fst (run_calls cs)) (snd (run_calls cs)).
Proof.
  unfold run_calls.
  assert (forall s, manager_inv (fst s) (snd s) ->
            manager_inv (fst (fold_left (fun s c => run_call c s) cs s))
                        (snd (fold_left (fun s c => run_call c s) cs s))) as H.
  { induction cs as [|c cs IH]; intros [m w] Hs; simpl; [done|].
    apply IH. by apply manager_inv_run_call. }
  apply H. exact manager_inv_init.
Qed.

Example reconnect_ex :
  let s := run_calls [call_connect "db1" 6379 0 "" "" None;
                      call_connect "db2" 6380 1 "" "" (Some "Connection refused")] in
  ThreadSafeRedisManager.connected (fst s) = true /\
  host (fst s) = "db1" /\ port (fst s) = 6379 /\ db (fst s) = 0 /\
  closed (snd s) = [4%nat; 0%nat] /\ shut_down (snd s) = [].
Proof. repeat split. Qed.

(** ** C5: a failed [connect] changes nothing *)

Ltac elem_of_head :=
  solve [repeat first [apply list_elem_of_here | apply list_elem_of_further]].

(** C5. In any state that the manager can be in, a [connect] whose probe
    fails raises [ConnectionError] and leaves every field of the manager
    as it was: the same client, raw client and pool, the same host, port,
    db and credentials. Only the throwaway client of the probe was
    created and closed: the clients that the manager holds are not
    closed and its pool is not shut down. A [connect] whose probe
    succeeds is what closes the previous clients and shuts the previous
    pool down. *)
Theorem connect_failure_keeps_connection (cs : list call)
    (h : string) (p d : Z) (pw u : string) (e : string) :
  let m := fst (run_calls cs) in
  let w := snd (run_calls cs) in
  let failed := ThreadSafeRedisManager.connect m w h p d pw u (Some e) in
  let passed := ThreadSafeRedisManager.connect m w h p d pw u None in
  fst (fst failed) =
    Raises (ConnectionError ("Failed to connect to " +:+ h +:+ ":" +:+ str_of_int p
                             +:+ ": " +:+ e)) /\
  snd (fst failed) = m /\
  ThreadSafeRedisManager.connected (snd (fst failed)) = ThreadSafeRedisManager.connected m /\
  closed (snd failed) = next_id w :: closed w /\
  shut_down (snd failed) = shut_down w /\
  (forall c, _client m = Some c -> client_id c ∉ closed (snd failed)) /\
  (forall c, _raw_client m = Some c -> client_id c ∉ closed (snd failed)) /\
  (forall q, _executor m = Some q -> q ∉ shut_down (snd failed)) /\
  (forall c, _client m = Some c -> client_id c ∈ closed (snd passed)) /\
  (forall c, _raw_client m = Some c -> client_id c ∈ closed (snd passed)) /\
  (forall q, _executor m = Some q -> q ∈ shut_down (snd passed)).
Proof.
  cbv zeta. destruct (manager_inv_run_calls cs) as [Hraw Hpool Hcl Hsh Hc Hrc Hex].
  destruct (run_calls cs) as [m w]. simpl in *.
  split_and!; try done.
  - intros c Hm. destruct (Hc c Hm) as [Hlt Hnot].
    rewrite not_elem_of_cons. split; [lia|done].
  - intros c Hm. destruct (Hrc c Hm) as [Hlt Hnot].
    rewrite not_elem_of_cons. split; [lia|done].
  - intros q Hm. by destruct (Hex q Hm).
  - intros c Hm. rewrite Hm. simpl.
    destruct (_raw_client m), (_executor m); simpl; elem_of_head.
  - intros c Hm. rewrite Hm. simpl.
    destruct (_client m), (_executor m); simpl; elem_of_head.
  - intros q Hm. rewrite Hm. simpl.
    destruct (_client m), (_raw_client m); simpl; elem_of_head.
Qed.

(** ** C6: [execute] without a pool *)

(** C6. In any state that the manager can be in: when no client is
    connected there is no pool, and [execute] raises
    [ConnectionError] at once, handing nothing to any pool; when a
    client is connected, [execute] hands the command to the pool of the
    manager and waits for the result with a timeout of 30 seconds,
    returning the value, raising the exception of the command, or
    raising [TimeoutError]. *)
Theorem execute_fails_without_connection {A} (cs : list call)
    (func : Command) (wait : task_end A) :
  let m := fst (run_calls cs) in
  let w := snd (run_calls cs) in
  (ThreadSafeRedisManager.connected m = false ->
     _executor m = None /\
     ThreadSafeRedisManager.execute m w func wait =
       (Raises (ConnectionError "Not connected to Redis"), w)) /\
  (ThreadSafeRedisManager.connected m = true ->
     exists q, _executor m = Some q /\
       ThreadSafeRedisManager.execute m w func wait =
         (match wait with
          | Done a => Returns a
          | Failed e => Raises e
          | Expired => Raises TimeoutError
          end, ThreadSafeRedisManager.submit q func w)).
Proof.
  cbv zeta. destruct (manager_inv_run_calls cs) as [Hraw Hpool Hcl Hsh Hc Hrc Hex].
  destruct (run_calls cs) as [m w]. simpl in *.
  unfold ThreadSafeRedisManager.connected, ThreadSafeRedisManager.execute. split.
  - destruct (_client m) as [c|]; [done|]. intros _.
    destruct Hpool as [_ ->]; done.
  - destruct (_client m) as [c|] eqn:Ec; [|done]. intros _.
    destruct (_executor m) as [q|] eqn:Eq; [|destruct Hpool as [H _]; discriminate (H eq_refl)].
    exists q. split; [done|].
    destruct (Hex q eq_refl) as [_ Hq]. by rewrite bool_decide_eq_false_2.
Qed.

(** ** C7: [select_db] *)

(** C7, as the code has it. In any state that the manager can be in:
    when no client is connected, [select_db] raises nothing; it records
    the index as the db of the manager and makes no Redis call. When a
    client is connected and the two [select] calls return, [select_db]
    has sent the index to the client and to the raw client and recorded
    it, keeping the same clients and pool and creating no new client. *)
Theorem select_db_never_reports_disconnection (cs : list call) (d : Z)
    (sel sel_raw : option string) :
  let m := fst (run_calls cs) in
  let w := snd (run_calls cs) in
  (ThreadSafeRedisManager.connected m = false ->
     ThreadSafeRedisManager.select_db m w d sel sel_raw = (Returns tt, with_db m d, w)) /\
  (ThreadSafeRedisManager.connected m = true ->
     exists c rc, _client m = Some c /\ _raw_client m = Some rc /\
       ThreadSafeRedisManager.select_db m w d None None =
         (Returns tt, with_db m d,
          mkWorld (next_id w) (closed w) (shut_down w)
                  ((client_id rc, d) :: (client_id c, d) :: selected w)
                  (submitted w))).
Proof.
  cbv zeta. destruct (manager_inv_run_calls cs) as [Hraw Hpool Hcl Hsh Hc Hrc Hex].
  destruct (run_calls cs) as [m w]. simpl in *.
  unfold ThreadSafeRedisManager.connected, ThreadSafeRedisManager.select_db. split.
  - destruct (_client m) as [c|] eqn:Ec; [done|]. intros _.
    destruct Hraw as [_ Hr]. specialize (Hr eq_refl).
    unfold with_db. by rewrite Hr, Ec.
  - destruct (_client m) as [c|] eqn:Ec; [|done]. intros _.
    destruct (_raw_client m) as [rc|] eqn:Erc; [|destruct Hraw as [H _]; discriminate (H eq_refl)].
    exists c, rc. split_and!; try done. unfold with_db. by rewrite Ec, Erc.
Qed.

Lemma select_db_counterexample :
  ThreadSafeRedisManager.connected ThreadSafeRedisManager.__init__ = false /\
  ThreadSafeRedisManager.select_db ThreadSafeRedisManager.__init__ world0 3 None None =
    (Returns tt,
     mkManager None None None "localhost" 6379 3 "" "",
     world0).
Proof. split; reflexivity. Qed.

(** ** [recount] twice *)

Lemma recount_idem t :
  PrefixTree.recount (snd (PrefixTree.recount t true)) true = PrefixTree.recount t true.
Proof.
  induction t as [k c|d k c IH] using prefix_tree_ind.
  - rewrite recount_leaf. simpl. by destruct k.
  - rewrite recount_node_spec. cbv zeta. simpl snd. rewrite recount_node_spec. cbv zeta.
    assert (Hsum :
      foldr (fun kv acc => fst (PrefixTree.recount (snd kv) true) + acc) 0
        (List.map (fun kv => (fst kv, snd (PrefixTree.recount (snd kv) true))) d) =
      foldr (fun kv acc => fst (PrefixTree.recount (snd kv) true) + acc) 0 d).
    { induction IH as [|[s ch] d Hch _ IHd]; simpl; [done|].
      simpl in Hch. by rewrite Hch, IHd. }
    assert (Hmap :
      List.map (fun kv => (fst kv, snd (PrefixTree.recount (snd kv) true)))
        (List.map (fun kv => (fst kv, snd (PrefixTree.recount (snd kv) true))) d) =
      List.map (fun kv => (fst kv, snd (PrefixTree.recount (snd kv) true))) d).
    { clear Hsum. induction IH as [|[s ch] d Hch _ IHd]; simpl; [done|].
      simpl in Hch. by rewrite Hch, IHd. }
    by rewrite Hsum, Hmap.
Qed.

Lemma to_nodes_state_recount t :
  PrefixTree.to_nodes_state (snd (PrefixTree.recount t true)) =
  snd (PrefixTree.recount t true).
Proof.
  destruct t as [[d|] k c]; [|by rewrite recount_leaf].
  rewrite recount_node_spec. cbv zeta. simpl. f_equal. f_equal.
  rewrite List.map_map. apply List.map_ext. intros [s ch]. simpl.
  destruct (children (snd (PrefixTree.recount ch true))); [|done].
  by rewrite recount_idem.
Qed.

(** ** C8: the exact lookup *)

Ltac browser_simpl :=
  cbn [KeysBrowser.reset KeysBrowser.set_label KeysBrowser.set_buttons
       KeysBrowser.set_tree KeysBrowser._update_tree KeysBrowser.insert_key
       KeysBrowser.recount KeysBrowser.total
       _key_set _prefix_tree cursor pattern _exact_search _is_search_mode
       count_label tree more_btn load_all_btn].




(** Without a connection [_try_exact_key] returns at once and the session
    stays as it was. *)
Lemma exact_lookup_not_connected b key key_type db_size :
  KeysBrowser._try_exact_key b key false key_type db_size = b.
Proof. done. Qed.

(** ** C9: a new session and a running drain *)

(** The membership check in front of [insert]: a key that the browser
    has already added is skipped. *)
Lemma add_key_twice b key :
  KeysBrowser.add_key (KeysBrowser.add_key b key) key = KeysBrowser.add_key b key.
Proof.
  unfold KeysBrowser.add_key.
  destruct (bool_decide_reflect (key ∈ _key_set b)) as [Hin|Hnot].
  - by rewrite bool_decide_eq_true_2.
  - rewrite bool_decide_eq_true_2; [done|]. simpl. set_solver.
Qed.

Lemma add_keys_key_set b keys :
  _key_set (KeysBrowser.add_keys b keys) = list_to_set keys ∪ _key_set b.
Proof.
  unfold KeysBrowser.add_keys. revert b.
  induction keys as [|key keys IH]; intros b; simpl.
  - by rewrite (left_id_L ∅ (∪)).
  - rewrite IH. unfold KeysBrowser.add_key.
    destruct (bool_decide_reflect (key ∈ _key_set b)); simpl; set_solver.
Qed.

Lemma add_keys_has_key b keys path :
  has_key (_prefix_tree (KeysBrowser.add_keys b keys)) path = true <->
  (has_key (_prefix_tree b) path = true \/
   (exists key, key ∈ keys /\ (key ∉ _key_set b) /\ path = split key)).
Proof.
  unfold KeysBrowser.add_keys. revert b.
  induction keys as [|key keys IH]; intros b; simpl.
  - split; [by left|]. intros [?|(key & Hin & _)]; [done|]. by apply elem_of_nil in Hin.
  - rewrite IH. unfold KeysBrowser.add_key.
    destruct (bool_decide_reflect (key ∈ _key_set b)) as [Hin|Hnot]; simpl.
    + split.
      * intros [?|(k & Hk & Hn & ->)]; [by left|]. right. exists k.
        split_and!; [by apply list_elem_of_further|done|done].
      * intros [?|(k & Hk & Hn & ->)]; [by left|]. right. exists k.
        apply elem_of_cons in Hk as [->|Hk]; [done|]. done.
    + rewrite has_key_insert, orb_true_iff, bool_decide_eq_true. split.
      * intros [[->|?]|(k & Hk & Hn & ->)].
        -- right. exists key. split_and!; [apply list_elem_of_here|done|done].
        -- by left.
        -- right. exists k. split_and!; [by apply list_elem_of_further|set_solver|done].
      * intros [?|(k & Hk & Hn & ->)]; [left; by right|].
        apply elem_of_cons in Hk as [->|Hk]; [left; by left|].
        destruct (decide (k = key)) as [->|Hne]; [left; by left|].
        right. exists k. split_and!; [done|set_solver|done].
Qed.

(** C9, as the code has it. There is no cancellation. A search or a
    refresh replaces the key set and the trie and leaves every running
    drain thread as it is, with its own cursor. A drain thread that gets
    a page inserts the keys of the page that are not in the current key
    set into the current key set and trie, which after a new search are
    those of the new session, and goes on until its own cursor is 0. *)
Theorem new_session_does_not_stop_drain (b : Browser) (threads : list (Z * Z)) :
  (forall raw connected key_type scan db_size,
      snd (step (ev_search raw connected key_type scan db_size) (b, threads)) = threads) /\
  (forall connected scan db_size,
      snd (step (ev_refresh connected scan db_size) (b, threads)) = threads) /\
  (forall i locals c keys,
      threads !! i = Some locals ->
      let s' := step (ev_drain i (c, keys)) (b, threads) in
      _key_set (fst s') = list_to_set keys ∪ _key_set b /\
      (forall path,
          has_key (_prefix_tree (fst s')) path = true <->
          (has_key (_prefix_tree b) path = true \/
           (exists key, key ∈ keys /\ (key ∉ _key_set b) /\ path = split key))) /\
      (c <> 0 -> snd s' = <[i := (c, snd locals + Z.of_nat (length keys))]> threads) /\
      (c = 0 -> snd s' = delete i threads)).
Proof.
  split_and!; [done|done|].
  intros i [c0 n0] c keys Hi. cbv zeta. simpl. rewrite Hi. simpl.
  split_and!.
  - apply add_keys_key_set.
  - apply add_keys_has_key.
  - intros Hc. by apply Z.eqb_neq in Hc as ->.
  - intros ->. done.
Qed.

Lemma drain_outlives_session_counterexample :
  let before :=
    run [ev_search "a:*" true (Returns "none") (Returns (5, ["a:1"])) (Returns 9);
         ev_load_all true;
         ev_drain 0 (7, ["a:1"; "a:2"])]
        (KeysBrowser.__init__, []) in
  let after :=
    run [ev_search "b:*" true (Returns "none") (Returns (3, ["b:1"])) (Returns 9);
         ev_drain 0 (8, ["b:2"]);
         ev_drain 0 (9, ["b:3"])]
        before in
  snd before = [(7, 2)] /\
  snd after = [(9, 4)] /\
  pattern (fst after) = "b:*" /\
  cursor (fst after) = 3 /\
  _key_set (fst after) = {["b:1"; "b:2"; "b:3"]} /\
  has_key (_prefix_tree (fst after)) ["b"; "2"] = true /\
  has_key (_prefix_tree (fst after)) ["b"; "3"] = true.
Proof. cbv zeta. split_and!; vm_compute; reflexivity. Qed.

(** * More properties *)

(** ** [ThreadSafeRedisManager]: [disconnect] *)

(** X1. [disconnect] leaves the manager without client, raw client and
    pool, keeps the recorded host, port, db and credentials, creates no
    object, and has closed every client and shut down the pool that the
    manager held. A second [disconnect] changes nothing, and an [execute]
    after it raises [ConnectionError] without handing work to a pool. *)
Theorem disconnect_releases_and_is_idempotent {A} (m : Manager) (w : World)
    (func : Command) (wait : task_end A) :
  let after := ThreadSafeRedisManager.disconnect m w in
  ThreadSafeRedisManager.connected (fst after) = false /\
  fst after =
    mkManager None None None (host m) (port m) (db m) (password m) (username m) /\
  next_id (snd after) = next_id w /\
  (forall i, i ∈ held_ids m -> i ∈ closed (snd after) ++ shut_down (snd after)) /\
  ThreadSafeRedisManager.disconnect (fst after) (snd after) = after /\
  ThreadSafeRedisManager.execute (fst after) (snd after) func wait =
    (Raises (ConnectionError "Not connected to Redis"), snd after).
Proof.
  cbv zeta. unfold ThreadSafeRedisManager.disconnect, held_ids.
  destruct m as [[c|] [rc|] [q|] h p d pw u], w as [n cl sd sel sub]; simpl;
    (split; [done|]); (split; [done|]); (split; [done|]);
    (split; [|done]);
    intros i; rewrite ?elem_of_app, ?elem_of_cons, ?elem_of_nil;
    rewrite ?elem_of_app, ?elem_of_cons; tauto.
Qed.

(** ** [ThreadSafeRedisManager]: no object is lost or released twice *)

Ltac perm_find x pre l :=
  lazymatch l with
  | x :: ?l2 => apply (Permutation_cons_app pre l2 x)
  | ?y :: ?l2 => let pre' := eval simpl in (pre ++ [y]) in perm_find x pre' l2
  end.

Ltac perm_cancel :=
  simpl;
  repeat first
    [ reflexivity
    | match goal with
      | |- ?x :: _ ≡ₚ ?r => perm_find x (@nil nat) r; simpl
      end ].

Lemma seq_S_perm (n : nat) : seq 0 (S n) ≡ₚ n :: seq 0 n.
Proof. rewrite seq_S. simpl. by rewrite Permutation_app_comm. Qed.

Section HeldObjects.
#[local] Arguments seq : simpl never.

Lemma held_perm_run_call c0 m w :
  manager_inv m w ->
  held_ids m ++ closed w ++ shut_down w ≡ₚ seq 0 (next_id w) ->
  let s := run_call c0 (m, w) in
  held_ids (fst s) ++ closed (snd s) ++ shut_down (snd s) ≡ₚ seq 0 (next_id (snd s)).
Proof.
  intros [Hraw Hpool _ _ _ _ _] HP. cbv zeta. unfold held_ids in *.
  destruct m as [oc orc oq h0 p0 d0 pw0 u0], w as [n cl sd sl sb]. simpl in *.
  assert (Hshape : (exists c rc q, oc = Some c /\ orc = Some rc /\ oq = Some q) \/
                   (oc = None /\ orc = None /\ oq = None)).
  { destruct oc as [c|].
    - destruct orc as [rc|]; [|destruct Hraw as [H _]; discriminate (H eq_refl)].
      destruct oq as [q|]; [|destruct Hpool as [H _]; discriminate (H eq_refl)].
      left. by exists c, rc, q.
    - destruct orc as [rc|]; [destruct Hraw as [_ H]; discriminate (H eq_refl)|].
      destruct oq as [q|]; [destruct Hpool as [_ H]; discriminate (H eq_refl)|].
      by right. }
  clear Hraw Hpool.
  destruct Hshape as [(c & rc & q & -> & -> & ->)|(-> & -> & ->)];
    destruct c0 as [h p d pw u [e|]| |d sel sel_raw|f wait]; simpl in *;
    rewrite ?seq_S_perm, <- ?HP, <- ?Permutation_middle;
    try perm_cancel.
  all: unfold ThreadSafeRedisManager.select_db, ThreadSafeRedisManager.execute; simpl.
  all: try (destruct sel, sel_raw; simpl; by rewrite <- ?HP).
  all: try (destruct (bool_decide (q ∈ sd)); simpl; by rewrite <- ?HP).
Qed.

Lemma held_perm_run_calls cs :
  let s := run_calls cs in
  held_ids (fst s) ++ closed (snd s) ++ shut_down (snd s) ≡ₚ seq 0 (next_id (snd s)).
Proof.
  cbv zeta. unfold run_calls.
  assert (forall s,
            manager_inv (fst s) (snd s) ->
            held_ids (fst s) ++ closed (snd s) ++ shut_down (snd s)
              ≡ₚ seq 0 (next_id (snd s)) ->
            let s' := fold_left (fun s c => run_call c s) cs s in
            held_ids (fst s') ++ closed (snd s') ++ shut_down (snd s')
              ≡ₚ seq 0 (next_id (snd s'))) as H.
  { induction cs as [|c cs IH]; intros [m w] Hinv HP; simpl; [done|].
    apply IH.
    - by apply manager_inv_run_call.
    - by apply held_perm_run_call. }
  apply H; [exact manager_inv_init|done].
Qed.
End HeldObjects.

(** X2. After any sequence of calls, the objects that the manager ever
    created (throwaway clients, clients, raw clients and pools, numbered
    from 0 in the order of their creation) are exactly the ones it holds,
    the ones that were closed and the ones that were shut down, each of
    them once: none is lost without being released, none that is held
    was released, and none is released twice. *)
Theorem manager_releases_each_object_once (cs : list call) :
  let m := fst (run_calls cs) in
  let w := snd (run_calls cs) in
  held_ids m ++ closed w ++ shut_down w ≡ₚ seq 0 (next_id w) /\
  NoDup (held_ids m ++ closed w ++ shut_down w) /\
  (forall i, (i < next_id w)%nat ->
             i ∈ held_ids m \/ i ∈ closed w \/ i ∈ shut_down w) /\
  (forall i, i ∈ held_ids m -> (i ∉ closed w) /\ (i ∉ shut_down w)).
Proof.
  cbv zeta. pose proof (held_perm_run_calls cs) as HP. cbv zeta in HP.
  assert (Hnd : NoDup (held_ids (fst (run_calls cs)) ++ closed (snd (run_calls cs))
                       ++ shut_down (snd (run_calls cs)))).
  { rewrite HP. apply NoDup_ListNoDup, seq_NoDup. }
  split_and!; [done|done| |].
  - intros i Hi.
    assert (i ∈ seq 0 (next_id (snd (run_calls cs)))) as Hin.
    { apply list_elem_of_In, in_seq. lia. }
    rewrite <- HP in Hin. by rewrite !elem_of_app in Hin.
  - intros i Hi. apply NoDup_app in Hnd as (_ & Hdisj & _).
    specialize (Hdisj i Hi). by rewrite elem_of_app in Hdisj; split; intros ?; apply Hdisj; [left|right].
Qed.

(** ** [ThreadSafeRedisManager]: a [select] that fails *)

(** X3. With a client connected, when the [select] on the text client
    raises, [select_db] lets the exception through, leaves the manager as
    it was and does not call the raw client. When the [select] on the text
    client returns and the one on the raw client raises, the exception
    goes through as well and the recorded db is not changed, although the
    text client has already been pointed at the new db. *)
Theorem select_db_failure_keeps_recorded_db (cs : list call) (d : Z)
    (e : string) (sel_raw : option string) :
  let m := fst (run_calls cs) in
  let w := snd (run_calls cs) in
  ThreadSafeRedisManager.connected m = true ->
  exists c rc,
    _client m = Some c /\ _raw_client m = Some rc /\
    ThreadSafeRedisManager.select_db m w d (Some e) sel_raw =
      (Raises (Other e), m, ThreadSafeRedisManager.select c d w) /\
    ThreadSafeRedisManager.select_db m w d None (Some e) =
      (Raises (Other e), m,
       ThreadSafeRedisManager.select rc d (ThreadSafeRedisManager.select c d w)) /\
    (client_id c, d) ∈
      selected (snd (ThreadSafeRedisManager.select_db m w d None (Some e))) /\
    db (snd (fst (ThreadSafeRedisManager.select_db m w d None (Some e)))) = db m.
Proof.
  cbv zeta. destruct (manager_inv_run_calls cs) as [Hraw Hpool _ _ _ _ _].
  destruct (run_calls cs) as [m w]. simpl in *.
  unfold ThreadSafeRedisManager.connected, ThreadSafeRedisManager.select_db.
  destruct (_client m) as [c|] eqn:Ec; [|done]. intros _.
  destruct (_raw_client m) as [rc|] eqn:Erc; [|destruct Hraw as [H _]; discriminate (H eq_refl)].
  exists c, rc. simpl. split_and!; try done.
  apply list_elem_of_further, list_elem_of_here.
Qed.

Lemma select_db_failure_keeps_recorded_db_witness :
  let cs := [call_connect "db1" 6379 0 "" "" None] in
  ThreadSafeRedisManager.connected (fst (run_calls cs)) = true /\
  db (snd (fst (ThreadSafeRedisManager.select_db
                  (fst (run_calls cs)) (snd (run_calls cs)) 7 None
                  (Some "ERR DB index is out of range")))) = 0.
Proof.
  split; [reflexivity|].
  destruct (select_db_failure_keeps_recorded_db
              [call_connect "db1" 6379 0 "" "" None] 7
              "ERR DB index is out of range" None eq_refl)
    as (c & rc & _ & _ & _ & _ & _ & H).
  exact H.
Defined.

(** ** [ThreadSafeRedisManager]: the key operations *)

(** X4. After any sequence of calls: while no client is connected,
    [scan_keys], [get_db_size] and [get_key_type] raise [ConnectionError]
    and hand nothing to a pool; while a client is connected, each of them
    hands exactly its own command to the pool of the manager
    ([scan_keys(pattern, count, cursor)] the scan of [cursor] with
    [match=pattern] and [count=count]) and waits for it with the timeout
    of 30 seconds. *)
Theorem key_operations_follow_connection (cs : list call)
    (pattern key : string) (count cursor : Z)
    (wait_scan : task_end (Z * list string)) (wait_size : task_end Z)
    (wait_type : task_end string) :
  let m := fst (run_calls cs) in
  let w := snd (run_calls cs) in
  let answer {A} (wait : task_end A) : outcome exn A :=
    match wait with
    | Done a => Returns a
    | Failed e => Raises e
    | Expired => Raises TimeoutError
    end in
  (ThreadSafeRedisManager.connected m = false ->
     KeyOperations.scan_keys m w pattern count cursor wait_scan =
       (Raises (ConnectionError "Not connected to Redis"), w) /\
     KeyOperations.get_db_size m w wait_size =
       (Raises (ConnectionError "Not connected to Redis"), w) /\
     KeyOperations.get_key_type m w key wait_type =
       (Raises (ConnectionError "Not connected to Redis"), w)) /\
  (ThreadSafeRedisManager.connected m = true ->
     exists q, _executor m = Some q /\
       KeyOperations.scan_keys m w pattern count cursor wait_scan =
         (answer wait_scan,
          ThreadSafeRedisManager.submit q (cmd_scan cursor pattern count) w) /\
       KeyOperations.get_db_size m w wait_size =
         (answer wait_size, ThreadSafeRedisManager.submit q cmd_dbsize w) /\
       KeyOperations.get_key_type m w key wait_type =
         (answer wait_type, ThreadSafeRedisManager.submit q (cmd_type key) w)).
Proof.
  cbv zeta. destruct (manager_inv_run_calls cs) as [Hraw Hpool _ _ _ _ Hex].
  destruct (run_calls cs) as [m w]. simpl in *.
  unfold KeyOperations.scan_keys, KeyOperations.get_db_size, KeyOperations.get_key_type,
    KeyOperations.on_client, KeyOperations.client, ThreadSafeRedisManager.connected,
    ThreadSafeRedisManager.execute.
  destruct (_client m) as [c|] eqn:Ec; split; try done; intros _.
  destruct (_executor m) as [q|] eqn:Eq; [|destruct Hpool as [H _]; discriminate (H eq_refl)].
  exists q. destruct (Hex q eq_refl) as [_ Hq].
  rewrite bool_decide_eq_false_2 by done. done.
Qed.

(** ** [ThreadSafeRedisManager]: a [connect] that succeeds *)

(** X5. After any sequence of calls, a [connect] whose probe succeeds
    returns with the manager connected and the target recorded. The
    client, the raw client and the pool are three new objects, none of
    them closed or shut down; the clients are built for the target, with
    an empty password or username passed as [None], the first decoding
    responses and the second not. An [execute] that follows hands its
    command to the new pool. *)
Theorem connect_success_installs_fresh_clients {A} (cs : list call)
    (h : string) (p d : Z) (pw u : string) (func : Command) (wait : task_end A) :
  let m := fst (run_calls cs) in
  let w := snd (run_calls cs) in
  let r := ThreadSafeRedisManager.connect m w h p d pw u None in
  let m' := snd (fst r) in
  let w' := snd r in
  let n := next_id w in
  let target (i : nat) (decode : bool) :=
    mkClient i h p d (ThreadSafeRedisManager.or_None pw)
             (ThreadSafeRedisManager.or_None u) 5 10 decode (Some 30) in
  fst (fst r) = Returns tt /\
  ThreadSafeRedisManager.connected m' = true /\
  m' = mkManager (Some (target (S n) true)) (Some (target (S (S n)) false))
                 (Some (S (S (S n)))) h p d pw u /\
  next_id w' = S (S (S (S n))) /\
  n ∈ closed w' /\
  (S n ∉ closed w') /\ (S (S n) ∉ closed w') /\ (S (S (S n)) ∉ shut_down w') /\
  snd (ThreadSafeRedisManager.execute m' w' func wait) =
    ThreadSafeRedisManager.submit (S (S (S n))) func w'.
Proof.
  cbv zeta.
  pose proof (manager_inv_run_calls (cs ++ [call_connect h p d pw u None])) as Hinv.
  unfold run_calls in Hinv. rewrite fold_left_app in Hinv. simpl in Hinv.
  fold (run_calls cs) in Hinv.
  destruct (run_calls cs) as [m w]. simpl in *.
  destruct Hinv as [_ _ _ _ Hc Hrc Hex].
  set (w' := ThreadSafeRedisManager.shutdown_if _ _) in *.
  assert (Hn : next_id w' = S (next_id w)).
  { subst w'. by destruct (_client m), (_raw_client m), (_executor m). }
  rewrite Hn in *. simpl in *.
  destruct (Hc _ eq_refl) as [_ H1]. destruct (Hrc _ eq_refl) as [_ H2].
  destruct (Hex _ eq_refl) as [_ H3]. simpl in *.
  split_and!; try done.
  - subst w'. destruct (_client m), (_raw_client m), (_executor m); simpl;
      rewrite ?elem_of_cons; tauto.
  - unfold ThreadSafeRedisManager.execute. simpl.
    by rewrite bool_decide_eq_false_2.
Qed.

(** ** [KeysBrowser]: the key set and the trie agree *)

Lemma is_key_recount t b : is_key (snd (PrefixTree.recount t b)) = is_key t.
Proof.
  destruct t as [[d|] k c]; [|by rewrite recount_leaf].
  destruct b; [by rewrite recount_node_spec|done].
Qed.

Lemma has_key_recount t path :
  has_key (snd (PrefixTree.recount t true)) path = has_key t path.
Proof.
  unfold has_key. rewrite get_node_recount.
  destruct (get_node t path) as [n|]; [|done]. simpl. apply is_key_recount.
Qed.

Lemma has_key_to_nodes_state t path :
  has_key (PrefixTree.to_nodes_state t) path = has_key t path.
Proof.
  destruct t as [[d|] k c]; [|done].
  destruct path as [|s r]; [done|]. unfold has_key. simpl.
  rewrite (dict_get_map
             (fun ch => match children ch with
                        | Some _ => snd (PrefixTree.recount ch true)
                        | None => ch
                        end)).
  destruct (dict_get s d) as [ch|]; [|done]. simpl.
  destruct (children ch) eqn:Ec; [|done].
  rewrite get_node_recount.
  destruct (get_node ch r) as [n|]; [|done]. simpl. apply is_key_recount.
Qed.

Lemma wf_to_nodes_state t : wf t -> wf (PrefixTree.to_nodes_state t).
Proof.
  intros Hwf. destruct Hwf as [k c|d k c Hnd Hall]; [constructor|].
  simpl. constructor.
  - by rewrite List.map_map.
  - clear Hnd. induction Hall as [|[s ch] d Hch _ IH]; simpl; [constructor|].
    constructor; [|done]. simpl in *.
    destruct (children ch); [by apply wf_recount|done].
Qed.

Lemma session_inv_init b : session_inv (KeysBrowser.reset b).
Proof.
  split; [apply wf_init|]. intros path. simpl.
  assert (has_key PrefixTree.__init__ path = false) as -> by (by destruct path).
  split; [done|]. intros (k & Hk & _). set_solver.
Qed.

Lemma session_inv_insert_key b key :
  session_inv b -> session_inv (KeysBrowser.insert_key b key).
Proof.
  intros [Hwf Hk]. split; simpl; [by apply wf_insert|].
  intros path. rewrite has_key_insert, orb_true_iff, bool_decide_eq_true, Hk.
  split.
  - intros [->|(k & Hin & ->)]; [exists key|exists k]; split; set_solver.
  - intros (k & [->%elem_of_singleton|Hin]%elem_of_union & ->); [by left|].
    right. by exists k.
Qed.

Lemma session_inv_add_keys b keys :
  session_inv b -> session_inv (KeysBrowser.add_keys b keys).
Proof.
  unfold KeysBrowser.add_keys. revert b.
  induction keys as [|key keys IH]; intros b Hb; simpl; [done|].
  apply IH. unfold KeysBrowser.add_key.
  destruct (bool_decide (key ∈ _key_set b)); [done|by apply session_inv_insert_key].
Qed.

Lemma session_inv_recount b : session_inv b -> session_inv (KeysBrowser.recount b).
Proof.
  intros [Hwf Hk]. split; simpl; [by apply wf_recount|].
  intros path. by rewrite has_key_recount.
Qed.

Lemma session_inv_update_tree b :
  session_inv b -> session_inv (KeysBrowser._update_tree b).
Proof.
  intros [Hwf Hk]. split; simpl; [by apply wf_to_nodes_state|].
  intros path. by rewrite has_key_to_nodes_state.
Qed.

(** Only the key set and the trie matter. *)
Lemma session_inv_same b b' :
  _key_set b' = _key_set b -> _prefix_tree b' = _prefix_tree b ->
  session_inv b -> session_inv b'.
Proof. unfold session_inv. by intros -> ->. Qed.

Lemma session_inv_load_keys b connected scan db_size :
  session_inv b -> session_inv (KeysBrowser._load_keys b connected scan db_size).
Proof.
  intros Hb. unfold KeysBrowser._load_keys.
  destruct connected; simpl; [|done].
  destruct scan as [[c keys]|e]; [|done].
  assert (session_inv
            (KeysBrowser._update_tree (KeysBrowser.recount (KeysBrowser.add_keys
               (mkBrowser (_key_set b) (_prefix_tree b) c (pattern b) (_exact_search b)
                  (_is_search_mode b) (count_label b) (tree b) (more_btn b)
                  (load_all_btn b)) keys)))) as H.
  { apply session_inv_update_tree, session_inv_recount, session_inv_add_keys.
    by apply (session_inv_same b). }
  destruct db_size as [n|e]; by eapply session_inv_same; [| |exact H].
Qed.

Lemma session_inv_try_exact_key b key connected key_type db_size :
  session_inv b ->
  session_inv (KeysBrowser._try_exact_key b key connected key_type db_size).
Proof.
  intros Hb. unfold KeysBrowser._try_exact_key.
  destruct connected; simpl; [|done].
  pose proof (session_inv_init b) as H0.
  destruct key_type as [ty|e].
  - destruct (String.eqb ty "none"); simpl.
    + eapply session_inv_same; [| |apply session_inv_update_tree, H0]; done.
    + assert (session_inv (KeysBrowser._update_tree (KeysBrowser.recount
                (KeysBrowser.insert_key (KeysBrowser.reset b) key)))) as H.
      { by apply session_inv_update_tree, session_inv_recount, session_inv_insert_key. }
      destruct db_size as [n|e].
      * by eapply session_inv_same; [| |exact H].
      * eapply session_inv_same; [| |apply session_inv_update_tree, H]; done.
  - eapply session_inv_same; [| |apply session_inv_update_tree, H0]; done.
Qed.

Lemma session_inv_search b raw connected key_type scan db_size :
  session_inv b ->
  session_inv (KeysBrowser._search b raw connected key_type scan db_size).
Proof.
  intros Hb. unfold KeysBrowser._search.
  destruct (_exact_search b && negb (String.eqb raw "")).
  - by apply session_inv_try_exact_key.
  - apply session_inv_load_keys.
    by apply (session_inv_same (KeysBrowser.reset b)); [| |apply session_inv_init].
Qed.

Lemma session_inv_ui_step ev s : session_inv (fst s) -> session_inv (fst (ui_step ev s)).
Proof.
  intros Hs. destruct s as [b threads]. simpl in Hs.
  destruct ev as [[raw cn kt sc ds|cn sc ds|cn|i [c keys]]|state|cn sc ds|ds|dots ds];
    simpl.
  - by apply session_inv_search.
  - apply session_inv_load_keys, session_inv_init.
  - by destruct cn.
  - destruct (threads !! i) as [[c0 n0]|]; [|done]. simpl.
    by apply session_inv_add_keys.
  - by apply (session_inv_same b).
  - by apply session_inv_load_keys.
  - unfold KeysBrowserSlots._finish_load_all.
    assert (session_inv (KeysBrowser._update_tree (KeysBrowser.recount b))) as H
      by by apply session_inv_update_tree, session_inv_recount.
    destruct ds as [n|e]; [|done]. by eapply session_inv_same; [| |exact H].
  - unfold KeysBrowserSlots._update_loading_animation.
    destruct ds as [n|e]; [|done]. by apply (session_inv_same b).
Qed.

Lemma session_inv_new : session_inv KeysBrowser.__init__.
Proof. apply (session_inv_init KeysBrowser.__init__). Qed.

(** The keys of a trie that agrees with a key set, as paths. *)
Lemma key_paths_session b :
  session_inv b -> key_paths (_prefix_tree b) ≡ₚ split <$> elements (_key_set b).
Proof.
  intros [Hwf Hk]. apply NoDup_Permutation.
  - by apply NoDup_key_paths.
  - apply (@NoDup_fmap_2 _ _ split split_inj), NoDup_elements.
  - intros p. rewrite key_paths_has_key by done. rewrite Hk, list_elem_of_fmap.
    split; intros (k & H1 & H2); exists k; set_solver.
Qed.

Lemma recount_session b :
  session_inv b ->
  fst (PrefixTree.recount (_prefix_tree b) true) = Z.of_nat (size (_key_set b)).
Proof.
  intros Hb. rewrite recount_key_count. unfold key_count.
  by rewrite (key_paths_session b Hb), length_fmap.
Qed.

(** X6. Every slot of the browser (a search, an exact lookup, a
    refresh, "Load more", the toggling of "Exact", the slot of
    [finish_load_signal], a tick of the loading timer) and every round of
    a drain thread, run to completion on a session in which the trie
    holds exactly the keys of the key set, ends in such a session: a
    node is a key if and only if its path is the split of a key of the
    set, no dict has a component twice, and a recount of the trie gives
    the size of the key set. *)
Theorem key_set_and_trie_agree (ev : ui_event) (b : Browser) (threads : list (Z * Z))
    (Hb : session_inv b) :
  let b' := fst (ui_step ev (b, threads)) in
  wf (_prefix_tree b') /\
  (forall path,
      has_key (_prefix_tree b') path = true <->
      exists k, k ∈ _key_set b' /\ path = split k) /\
  (forall k, k ∈ _key_set b' <-> has_key (_prefix_tree b') (split k) = true) /\
  fst (PrefixTree.recount (_prefix_tree b') true) = Z.of_nat (size (_key_set b')).
Proof.
  cbv zeta. pose proof (session_inv_ui_step ev (b, threads) Hb) as Hb'.
  destruct Hb' as [Hwf Hk]. split_and!; [done|done| |by apply recount_session].
  intros k. rewrite Hk. split.
  - intros Hin. by exists k.
  - intros (k' & Hin & Heq). by apply split_inj in Heq as ->.
Qed.

Lemma key_set_and_trie_agree_witness :
  session_inv KeysBrowser.__init__ /\
  fst (PrefixTree.recount
         (_prefix_tree
            (fst (ui_step (ui_load_more true (Returns (0, ["user:1"; "user:1"])) (Returns 1))
                    (KeysBrowser.__init__, [])))) true) =
  Z.of_nat (size (_key_set
                    (fst (ui_step (ui_load_more true (Returns (0, ["user:1"; "user:1"]))
                                     (Returns 1))
                            (KeysBrowser.__init__, []))))).
Proof.
  split; [exact session_inv_new|].
  pose proof (key_set_and_trie_agree
                (ui_load_more true (Returns (0, ["user:1"; "user:1"])) (Returns 1))
                KeysBrowser.__init__ [] session_inv_new) as H.
  cbv zeta in H. destruct H as (_ & _ & _ & H). exact H.
Defined.

(** ** [KeysBrowser]: a page load *)

(** X7. On a session in which the trie holds exactly the keys of the
    key set, a page load on a
    connected manager whose scan returns the cursor [c] and the keys
    [keys] adds those keys to the key set (a key that is already there
    is not added again) and stores [c]. When the size query returns [n],
    the label reads ["<number of keys in the key set> loaded / n total"];
    in any case the count at the root of the trie is the size of the key
    set, the tree shown is the materialization of the trie, and the two
    load buttons are visible exactly when [c] is not 0. A scan that
    raises changes nothing but the label, and a size query that raises
    leaves the loaded keys in place under an error label. *)
Theorem load_keys_page (b : Browser) (c : Z) (keys : list string)
    (n : Z) (e : string) (db_size : outcome string Z)
    (Hb : session_inv b) :
  let b' := KeysBrowser._load_keys b true (Returns (c, keys)) db_size in
  let failed := KeysBrowser._load_keys b true (Raises e) db_size in
  _key_set b' = list_to_set keys ∪ _key_set b /\
  cursor b' = c /\
  count (_prefix_tree b') = Z.of_nat (size (_key_set b')) /\
  tree b' = PrefixTree.to_nodes (_prefix_tree b') "" /\
  more_btn b' = negb (Z.eqb c 0) /\ load_all_btn b' = negb (Z.eqb c 0) /\
  (db_size = Returns n ->
     count_label b' =
       str_of_int (Z.of_nat (size (_key_set b'))) +:+ " loaded / " +:+ str_of_int n
       +:+ " total") /\
  (db_size = Raises e -> count_label b' = "Error: " +:+ e) /\
  failed = KeysBrowser.set_label ("Error: " +:+ e) b.
Proof.
  cbv zeta.
  set (b0 := mkBrowser (_key_set b) (_prefix_tree b) c (pattern b) (_exact_search b)
               (_is_search_mode b) (count_label b) (tree b) (more_btn b)
               (load_all_btn b)).
  assert (Hb0 : session_inv (KeysBrowser.add_keys b0 keys)).
  { apply session_inv_add_keys. by apply (session_inv_same b). }
  assert (Hset : _key_set (KeysBrowser.add_keys b0 keys) = list_to_set keys ∪ _key_set b).
  { by rewrite add_keys_key_set. }
  assert (Hcur : cursor (KeysBrowser.add_keys b0 keys) = c).
  { clear. unfold KeysBrowser.add_keys. generalize (eq_refl : cursor b0 = c).
    generalize b0. induction keys as [|k keys IH]; intros b1 H1; simpl; [done|].
    apply IH. unfold KeysBrowser.add_key.
    by destruct (bool_decide (k ∈ _key_set b1)). }
  pose proof (recount_session _ Hb0) as Hcount.
  unfold KeysBrowser._load_keys. simpl negb. cbv iota. fold b0.
  destruct db_size as [n'|e']; browser_simpl;
    rewrite to_nodes_state_recount, count_recount, Hcount, Hset, Hcur.
  - split_and!; try done. intros [= ->]. unfold KeysBrowser.total. browser_simpl.
    by rewrite Hset.
  - split_and!; try done. by intros [= ->].
Qed.

Lemma load_keys_page_witness :
  session_inv KeysBrowser.__init__ /\
  count (_prefix_tree (KeysBrowser._load_keys KeysBrowser.__init__ true
                         (Returns (7, ["user:1"; "user:2"; "user:1"])) (Returns 9))) =
  Z.of_nat (size (_key_set (KeysBrowser._load_keys KeysBrowser.__init__ true
                              (Returns (7, ["user:1"; "user:2"; "user:1"])) (Returns 9)))).
Proof.
  split; [exact session_inv_new|].
  pose proof (load_keys_page KeysBrowser.__init__ 7 ["user:1"; "user:2"; "user:1"] 9 ""
                (Returns 9) session_inv_new) as H.
  cbv zeta in H. destruct H as (_ & _ & H & _). exact H.
Defined.

(** ** [KeysBrowser]: a new search *)

(** X8. A pattern search (the "Exact" box unchecked, or an empty input)
    on a connected manager keeps nothing of the session before it: the
    key set is exactly the set of the keys of the page that the scan
    returned, the trie holds exactly those keys, the stored cursor is the
    returned one and the pattern is the input, or ["*"] for an empty
    input. Without a connection the same search empties the key set and
    the trie but leaves the tree on the screen as it was; no item of
    that stale tree can select a key. *)
Theorem search_starts_from_scratch (b : Browser) (raw : string)
    (key_type : outcome string string) (c : Z) (keys : list string)
    (scan : outcome string (Z * list string)) (db_size : outcome string Z) :
  _exact_search b && negb (String.eqb raw "") = false ->
  let b' := KeysBrowser._search b raw true key_type (Returns (c, keys)) db_size in
  let off := KeysBrowser._search b raw false key_type scan db_size in
  (_key_set b' = list_to_set keys /\
   (forall path,
       has_key (_prefix_tree b') path = true <->
       exists k, k ∈ keys /\ path = split k) /\
   cursor b' = c /\
   pattern b' = (if String.eqb raw "" then "*" else raw) /\
   _is_search_mode b' = negb (String.eqb raw "" || String.eqb raw "*")) /\
  (_key_set off = ∅ /\
   _prefix_tree off = PrefixTree.__init__ /\
   cursor off = 0 /\
   tree off = tree b /\
   forall data, KeysBrowserSlots._on_item_clicked off data = None).
Proof.
  intros Hmode. cbv zeta. unfold KeysBrowser._search. rewrite Hmode. split.
  - set (b0 := mkBrowser ∅ PrefixTree.__init__ c (if String.eqb raw "" then "*" else raw)
                 (_exact_search b) (negb (String.eqb raw "" || String.eqb raw "*"))
                 (count_label b) (tree b) (more_btn b) (load_all_btn b)).
    assert (Hset : _key_set (KeysBrowser.add_keys b0 keys) = list_to_set keys).
    { rewrite add_keys_key_set. simpl. apply (right_id_L ∅ (∪)). }
    assert (Hkeys : forall path,
               has_key (_prefix_tree (KeysBrowser.add_keys b0 keys)) path = true <->
               exists k, k ∈ keys /\ path = split k).
    { intros path. rewrite add_keys_has_key. simpl.
      assert (has_key PrefixTree.__init__ path = false) as -> by (by destruct path).
      split.
      - intros [?|(k & Hin & _ & ->)]; [done|]. by exists k.
      - intros (k & Hin & ->). right. exists k. split_and!; [done|set_solver|done]. }
    assert (Hrest : cursor (KeysBrowser.add_keys b0 keys) = c /\
                    pattern (KeysBrowser.add_keys b0 keys) = pattern b0 /\
                    _is_search_mode (KeysBrowser.add_keys b0 keys) = _is_search_mode b0).
    { clear. unfold KeysBrowser.add_keys.
      assert (forall b1, cursor (fold_left KeysBrowser.add_key keys b1) = cursor b1 /\
                pattern (fold_left KeysBrowser.add_key keys b1) = pattern b1 /\
                _is_search_mode (fold_left KeysBrowser.add_key keys b1) = _is_search_mode b1) as H.
      { induction keys as [|k keys IH]; intros b1; simpl; [done|].
        destruct (IH (KeysBrowser.add_key b1 k)) as (-> & -> & ->).
        unfold KeysBrowser.add_key. by destruct (bool_decide (k ∈ _key_set b1)). }
      apply H. }
    destruct Hrest as (Hc & Hp & Hm).
    unfold KeysBrowser._load_keys. simpl negb. cbv iota.
    cbn [_key_set _prefix_tree cursor pattern _exact_search _is_search_mode
         count_label tree more_btn load_all_btn].
    fold b0.
    destruct db_size as [n|e]; browser_simpl;
      rewrite to_nodes_state_recount, Hset, Hc, Hp, Hm;
      (split_and!; [done| |done|done|done]);
      intros path; rewrite has_key_recount; apply Hkeys.
  - unfold KeysBrowser._load_keys. simpl. split_and!; try done.
    intros [id icon]. unfold KeysBrowserSlots._on_item_clicked. simpl.
    rewrite bool_decide_eq_false_2 by set_solver. by rewrite andb_false_r.
Qed.

Lemma search_starts_from_scratch_witness :
  let old := KeysBrowser._load_keys KeysBrowser.__init__ true
               (Returns (0, ["user:1"; "user:2"])) (Returns 2) in
  _exact_search old && negb (String.eqb "order:*" "") = false /\
  _key_set (KeysBrowser._search old "order:*" true (Returns "none")
              (Returns (0, ["order:5"])) (Returns 3)) = list_to_set ["order:5"].
Proof.
  split; [reflexivity|].
  apply (search_starts_from_scratch
           (KeysBrowser._load_keys KeysBrowser.__init__ true
              (Returns (0, ["user:1"; "user:2"])) (Returns 2))
           "order:*" (Returns "none") 0 ["order:5"]
           (Returns (0, [])) (Returns 3)).
  reflexivity.
Defined.

(** ** [KeysBrowser]: from the trie to the widget and back *)

Lemma display_node_ind (P : DisplayNode -> Prop) :
  (forall id label icon, P (DNode id label icon None)) ->
  (forall id label icon es, Forall P es -> P (DNode id label icon (Some es))) ->
  forall e, P e.
Proof.
  intros Hleaf Hfolder. fix IH 1. intros [id label icon [es|]]; [|apply Hleaf].
  apply Hfolder. induction es as [|e es IHes]; constructor; [apply IH|apply IHes].
Qed.

(** The data of the items of the widget are the ids and icons of the
    entries, at every depth and in the same order. *)
Lemma item_data_add_node e :
  item_data <$> items_below (add_node e) =
  (fun e => (node_id e, node_icon e)) <$> flatten_node e.
Proof.
  induction e as [id label icon|id label icon es IH] using display_node_ind; [done|].
  simpl. f_equal. induction IH as [|e es He _ IHes]; [done|].
  cbn [List.map flat_map]. rewrite !fmap_app, He. f_equal. exact IHes.
Qed.

Lemma item_data_add_nodes es :
  item_data <$> all_items (_add_nodes es) =
  (fun e => (node_id e, node_icon e)) <$> flatten es.
Proof.
  unfold all_items, _add_nodes, flatten. induction es as [|e es IH]; [done|].
  cbn [List.map flat_map]. rewrite !fmap_app. by rewrite item_data_add_node, IH.
Qed.

(** Clicking through a list of entries selects the ids of the key
    entries that are non-empty and in the key set. *)
Lemma clicks_leaf_ids b (l : list DisplayNode) :
  omap (KeysBrowserSlots._on_item_clicked b)
       ((fun e => (node_id e, node_icon e)) <$> l) =
  filter (fun k => k <> "" /\ k ∈ _key_set b)
         (node_id <$> filter (fun e => node_icon e = "key") l).
Proof.
  induction l as [|e l IH]; [done|].
  rewrite fmap_cons. cbn [omap list_omap].
  rewrite IH. unfold KeysBrowserSlots._on_item_clicked.
  rewrite filter_cons. destruct (decide (node_icon e = "key")) as [Hi|Hi].
  - rewrite fmap_cons, filter_cons. rewrite Hi. simpl String.eqb.
    destruct (decide (node_id e <> "" /\ node_id e ∈ _key_set b)) as [[H1 H2]|Hn].
    + apply String.eqb_neq in H1. rewrite H1. by rewrite bool_decide_eq_true_2.
    + destruct (String.eqb_spec (node_id e) "") as [He|He]; [done|].
      rewrite bool_decide_eq_false_2; [done|]. intros Hin. by apply Hn.
  - apply String.eqb_neq in Hi. by rewrite Hi.
Qed.

Lemma filter_ext_elem_of {A} (P Q : A -> Prop) `{!forall x, Decision (P x)}
    `{!forall x, Decision (Q x)} (l : list A) :
  (forall x, x ∈ l -> P x <-> Q x) -> filter P l = filter Q l.
Proof.
  induction l as [|x l IH]; intros Hl; [done|].
  rewrite !filter_cons. rewrite IH by (intros y Hy; apply Hl; by right).
  pose proof (Hl x (list_elem_of_here _ _)) as Hx.
  destruct (decide (P x)) as [Hp|Hp], (decide (Q x)) as [Hq|Hq]; tauto.
Qed.

Lemma session_root_not_key b : session_inv b -> is_key (_prefix_tree b) = false.
Proof.
  intros [_ Hk]. destruct (is_key (_prefix_tree b)) eqn:E; [|done].
  assert (has_key (_prefix_tree b) [] = true) as H.
  { unfold has_key. simpl. by rewrite E. }
  apply Hk in H as (k & _ & Heq). symmetry in Heq. by apply split_nonempty in Heq.
Qed.

(** The key entries of the materialized trie of a session carry the keys
    of the key set as ids, each once, when no key begins with the
    separator. *)
Lemma leaf_ids_session b :
  session_inv b ->
  (forall k, k ∈ _key_set b -> starts_with_sep k = false) ->
  leaf_ids (PrefixTree.to_nodes (_prefix_tree b) "") ≡ₚ elements (_key_set b).
Proof.
  intros Hb Hks. rewrite leaf_ids_to_nodes.
  assert (proper_key_paths (_prefix_tree b) = key_paths (_prefix_tree b)) as ->.
  { by rewrite key_paths_proper, session_root_not_key. }
  rewrite (key_paths_session b Hb), <- list_fmap_compose.
  assert (Heq : (path_id "" ∘ split) <$> elements (_key_set b) = elements (_key_set b)).
  { rewrite <- (list_fmap_id (elements (_key_set b))) at 2.
    apply list_fmap_ext. intros i k Hk. simpl. apply path_id_split, Hks.
    apply list_elem_of_lookup_2 in Hk. by apply elem_of_elements in Hk. }
  by rewrite Heq.
Qed.

(** X9. On a session in which the trie holds exactly the keys of the key
    set, once the tree is
    updated and provided that no key of the key set begins with the
    separator, clicking each item of the widget once selects every
    non-empty key of the key set exactly once and nothing else: the
    folders select nothing, and the id of a key item is the key. (The
    empty key has the empty id, which a click ignores.) *)
Theorem click_selects_each_key_once (b : Browser)
    (Hb : session_inv b)
    (Hks : forall k, k ∈ _key_set b -> starts_with_sep k = false) :
  let shown := KeysBrowser._update_tree b in
  omap (KeysBrowserSlots._on_item_clicked shown)
       (item_data <$> all_items (_add_nodes (tree shown)))
  ≡ₚ filter (fun k => k <> "") (elements (_key_set shown)).
Proof.
  cbv zeta.
  rewrite item_data_add_nodes, clicks_leaf_ids.
  change (tree (KeysBrowser._update_tree b)) with (PrefixTree.to_nodes (_prefix_tree b) "").
  change (_key_set (KeysBrowser._update_tree b)) with (_key_set b).
  fold (leaf_ids (PrefixTree.to_nodes (_prefix_tree b) "")).
  rewrite (leaf_ids_session b Hb Hks).
  apply reflexive_eq, filter_ext_elem_of. intros k Hk.
  apply elem_of_elements in Hk. tauto.
Qed.

Lemma click_selects_each_key_once_witness :
  let b := KeysBrowser._load_keys KeysBrowser.__init__ true
             (Returns (0, ["user:1"; "order:5"; "user:1"])) (Returns 2) in
  let shown := KeysBrowser._update_tree b in
  omap (KeysBrowserSlots._on_item_clicked shown)
       (item_data <$> all_items (_add_nodes (tree shown)))
  ≡ₚ filter (fun k => k <> "") (elements (_key_set shown)).
Proof.
  apply (click_selects_each_key_once
           (KeysBrowser._load_keys KeysBrowser.__init__ true
              (Returns (0, ["user:1"; "order:5"; "user:1"])) (Returns 2))).
  - apply session_inv_load_keys, session_inv_new.
  - intros k Hk. apply elem_of_elements in Hk. revert k Hk. apply Forall_forall.
    vm_compute. repeat constructor.
Defined.


(** ** [KeysBrowser]: the thread of "Load all" *)

Lemma add_keys_app b l1 l2 :
  KeysBrowser.add_keys b (l1 ++ l2) = KeysBrowser.add_keys (KeysBrowser.add_keys b l1) l2.
Proof. unfold KeysBrowser.add_keys. apply fold_left_app. Qed.

(** Adding keys touches the key set and the trie only. *)
Lemma add_keys_fields b keys :
  let b' := KeysBrowser.add_keys b keys in
  cursor b' = cursor b /\ pattern b' = pattern b /\
  _exact_search b' = _exact_search b /\ _is_search_mode b' = _is_search_mode b /\
  count_label b' = count_label b /\ tree b' = tree b /\
  more_btn b' = more_btn b /\ load_all_btn b' = load_all_btn b.
Proof.
  cbv zeta. unfold KeysBrowser.add_keys. revert b.
  induction keys as [|k keys IH]; intros b; simpl; [done|].
  destruct (IH (KeysBrowser.add_key b k)) as (-> & -> & -> & -> & -> & -> & -> & ->).
  unfold KeysBrowser.add_key. by destruct (bool_decide (k ∈ _key_set b)).
Qed.

Lemma load_all_thread_pages b locals (pages : list (Z * list string)) replies :
  Forall (fun page => fst page <> 0) pages ->
  pages <> [] ->
  KeysBrowserSlots.load_all_thread b locals (pages ++ replies) =
  KeysBrowserSlots.load_all_thread
    (KeysBrowser.add_keys b (concat (snd <$> pages)))
    (default 0 (last (fst <$> pages)),
     snd locals + Z.of_nat (length (concat (snd <$> pages))))
    replies.
Proof.
  intros Hpages. revert b locals.
  induction Hpages as [|[c keys] pages Hc _ IH]; intros b [c0 n] Hne; [done|].
  simpl in Hc. cbn [app KeysBrowserSlots.load_all_thread KeysBrowser.load_all_round].
  apply Z.eqb_neq in Hc. rewrite Hc. cbn [negb].
  destruct pages as [|page pages].
  - simpl. rewrite app_nil_r. done.
  - rewrite IH by done.
    change (concat (snd <$> (c, keys) :: page :: pages))
      with (keys ++ concat (snd <$> page :: pages)).
    change (last (fst <$> (c, keys) :: page :: pages))
      with (last (fst <$> page :: pages)).
    rewrite add_keys_app, length_app. cbn [snd]. do 2 f_equal. lia.
Qed.

(** X10. The thread of "Load all", whose scans return pages with a
    cursor other than 0 and then a page with the cursor 0, stops at that
    page and reads no further reply. By then it has added the keys of
    all these pages to the key set and to the trie, skipping those that
    were there; the count that it emits with [finish_load_signal] is the
    number of keys received, repeated ones included. It never touches
    the stored cursor, the label, the tree on the screen or the buttons. *)
Theorem load_all_thread_runs_to_cursor_zero (b : Browser) (locals : Z * Z)
    (pages : list (Z * list string)) (keys_last : list string)
    (rest : list (Z * list string))
    (Hpages : Forall (fun page => fst page <> 0) pages) :
  let all_keys := concat (snd <$> pages) ++ keys_last in
  let result :=
    KeysBrowserSlots.load_all_thread b locals (pages ++ (0, keys_last) :: rest) in
  let b' := fst (fst result) in
  result = (KeysBrowser.add_keys b all_keys,
            (0, snd locals + Z.of_nat (length all_keys)), true) /\
  _key_set b' = _key_set b ∪ list_to_set all_keys /\
  (forall path,
      has_key (_prefix_tree b') path = true <->
      has_key (_prefix_tree b) path = true \/
      (exists k, k ∈ all_keys /\ (k ∉ _key_set b) /\ path = split k)) /\
  cursor b' = cursor b /\ count_label b' = count_label b /\ tree b' = tree b /\
  more_btn b' = more_btn b /\ load_all_btn b' = load_all_btn b.
Proof.
  cbv zeta.
  assert (Hres : KeysBrowserSlots.load_all_thread b locals (pages ++ (0, keys_last) :: rest) =
                 (KeysBrowser.add_keys b (concat (snd <$> pages) ++ keys_last),
                  (0, snd locals + Z.of_nat (length (concat (snd <$> pages) ++ keys_last))),
                  true)).
  { destruct pages as [|page pages].
    - destruct locals as [c0 n]. done.
    - rewrite load_all_thread_pages by done.
      cbn [KeysBrowserSlots.load_all_thread KeysBrowser.load_all_round Z.eqb negb snd].
      rewrite add_keys_app, length_app, Nat2Z.inj_add, Z.add_assoc. done. }
  rewrite Hres. cbn [fst]. split; [done|].
  pose proof (add_keys_fields b (concat (snd <$> pages) ++ keys_last)) as Hf.
  cbv zeta in Hf. destruct Hf as (Hc & _ & _ & _ & Hl & Ht & Hm & Ha).
  split; [rewrite add_keys_key_set; apply (comm_L (∪))|].
  split; [intros path; apply add_keys_has_key|done].
Qed.

Lemma load_all_thread_runs_to_cursor_zero_witness :
  fst (fst (KeysBrowserSlots.load_all_thread KeysBrowser.__init__ (0, 0)
              [(7, ["user:1"; "user:2"]); (0, ["user:1"; "order:5"]); (9, ["late"])]))
  = KeysBrowser.add_keys KeysBrowser.__init__ ["user:1"; "user:2"; "user:1"; "order:5"].
Proof.
  assert (Hpages : Forall (fun page : Z * list string => fst page <> 0)
                          [(7, ["user:1"; "user:2"])]).
  { repeat constructor. simpl. lia. }
  pose proof (load_all_thread_runs_to_cursor_zero KeysBrowser.__init__ (0, 0)
                [(7, ["user:1"; "user:2"])] ["user:1"; "order:5"] [(9, ["late"])]
                Hpages) as H.
  cbv zeta in H. destruct H as [H _]. exact (f_equal (fun r => fst (fst r)) H).
Defined.


(** X11. The slot of [finish_load_signal], on a session in which the
    trie holds exactly the keys of the key set: it adds and removes no
    key, the count at the root of the trie becomes the size of the key
    set, and the tree on the screen the materialization of the trie.
    When the size query returns [n], the label reads ["<size of the key
    set> loaded / n total"] (the count that the thread emitted is not
    used) and the two load buttons are hidden; when it raises, the
    exception leaves the slot after the tree is updated, and the label
    and the visibility of the buttons stay as they were when the slot
    started. *)
Theorem finish_load_all_shows_key_set (b : Browser) (db_size : outcome string Z)
    (Hb : session_inv b) :
  let finished := KeysBrowserSlots._finish_load_all b db_size in
  let b' := snd finished in
  _key_set b' = _key_set b /\
  (forall path, has_key (_prefix_tree b') path = has_key (_prefix_tree b) path) /\
  count (_prefix_tree b') = Z.of_nat (size (_key_set b)) /\
  tree b' = PrefixTree.to_nodes (_prefix_tree b') "" /\
  cursor b' = cursor b /\
  match db_size with
  | Returns n =>
      fst finished = None /\
      count_label b' =
        str_of_int (Z.of_nat (size (_key_set b))) +:+ " loaded / " +:+ str_of_int n
        +:+ " total" /\
      more_btn b' = false /\ load_all_btn b' = false
  | Raises e =>
      fst finished = Some e /\
      count_label b' = count_label b /\
      more_btn b' = more_btn b /\ load_all_btn b' = load_all_btn b
  end.
Proof.
  cbv zeta. pose proof (recount_session _ Hb) as Hcount.
  unfold KeysBrowserSlots._finish_load_all.
  destruct db_size as [n|e]; unfold KeysBrowser.total; cbn [fst snd]; browser_simpl;
    rewrite to_nodes_state_recount, count_recount, Hcount;
    (split; [done|]); (split; [intros path; apply has_key_recount|]); done.
Qed.

Lemma finish_load_all_shows_key_set_witness :
  let b := KeysBrowser.add_keys KeysBrowser.__init__ ["user:1"; "user:2"; "user:1"] in
  count (_prefix_tree (snd (KeysBrowserSlots._finish_load_all b (Raises "timeout")))) =
  Z.of_nat (size (_key_set b)).
Proof.
  pose proof (finish_load_all_shows_key_set
                (KeysBrowser.add_keys KeysBrowser.__init__ ["user:1"; "user:2"; "user:1"])
                (Raises "timeout")
                (session_inv_add_keys _ _ session_inv_new)) as H.
  cbv zeta in H. destruct H as (_ & _ & H & _). exact H.
Defined.

(** ** [KeysBrowser] on the manager *)

(** The world after a page load on the pool [q]. *)
Lemma load_keys_on_manager b m w c q wait_scan wait_size :
  _client m = Some c -> _executor m = Some q -> q ∉ shut_down w ->
  KeysBrowserOnManager._load_keys b m w wait_scan wait_size =
  (KeysBrowser._load_keys b true (reply wait_scan) (reply wait_size),
   let w1 := ThreadSafeRedisManager.submit q (cmd_scan (cursor b) (pattern b) 200) w in
   match wait_scan with
   | Done _ => ThreadSafeRedisManager.submit q cmd_dbsize w1
   | _ => w1
   end).
Proof.
  intros Hc Hq Hs.
  unfold KeysBrowserOnManager._load_keys, KeysBrowser._load_keys,
    KeyOperations.scan_keys, KeyOperations.get_db_size,
    KeyOperations.on_client, KeyOperations.client, ThreadSafeRedisManager.connected,
    ThreadSafeRedisManager.execute.
  rewrite Hc, Hq. simpl negb. cbv iota.
  rewrite bool_decide_eq_false_2 by done.
  destruct wait_scan as [[c' keys]|e|]; try done.
  cbn [reply]. cbn [ThreadSafeRedisManager.submit shut_down].
  rewrite bool_decide_eq_false_2 by done.
  by destruct wait_size as [n|e|].
Qed.

(** What a page load whose scan returned leaves in the session. *)
Lemma load_keys_returned b c keys db_size :
  let b' := KeysBrowser._load_keys b true (Returns (c, keys)) db_size in
  _key_set b' = list_to_set keys ∪ _key_set b /\ cursor b' = c /\ pattern b' = pattern b.
Proof.
  cbv zeta.
  set (b0 := mkBrowser (_key_set b) (_prefix_tree b) c (pattern b) (_exact_search b)
               (_is_search_mode b) (count_label b) (tree b) (more_btn b)
               (load_all_btn b)).
  pose proof (add_keys_fields b0 keys) as Hf. cbv zeta in Hf.
  destruct Hf as (Hcur & Hpat & _).
  pose proof (add_keys_key_set b0 keys) as Hset.
  unfold KeysBrowser._load_keys. cbn [negb]. cbv iota. fold b0.
  by destruct db_size as [n|e]; browser_simpl.
Qed.

(** X12. After any sequence of calls on the manager that leaves it
    connected, a page load of the browser is not refused: it hands the
    scan of the stored cursor with the stored pattern and the count 200
    to the pool of the manager and, only if the scan returned, the size
    query after it; it makes no other call. The browser ends as the
    replies dictate: the page of a scan that returned is added, and a
    wait that timed out or a call that raised shows ["Error: "] followed
    by the text of the exception. *)
Theorem page_load_reaches_redis (cs : list call) (b : Browser)
    (wait_scan : task_end (Z * list string)) (wait_size : task_end Z)
    (Hc : ThreadSafeRedisManager.connected (fst (run_calls cs)) = true) :
  let m := fst (run_calls cs) in
  let w := snd (run_calls cs) in
  let result := KeysBrowserOnManager._load_keys b m w wait_scan wait_size in
  exists q,
    _executor m = Some q /\
    fst result = KeysBrowser._load_keys b true (reply wait_scan) (reply wait_size) /\
    submitted (snd result) =
      (match wait_scan with Done _ => [(q, cmd_dbsize, 30)] | _ => [] end) ++
      (q, cmd_scan (cursor b) (pattern b) 200, 30) :: submitted w /\
    closed (snd result) = closed w /\ shut_down (snd result) = shut_down w /\
    selected (snd result) = selected w /\ next_id (snd result) = next_id w /\
    (forall e, wait_scan = Failed e ->
       fst result = KeysBrowser.set_label ("Error: " +:+ exn_text e) b) /\
    (wait_scan = Expired -> fst result = KeysBrowser.set_label "Error: " b).
Proof.
  cbv zeta. destruct (manager_inv_run_calls cs) as [Hraw Hpool _ _ _ _ Hex].
  destruct (run_calls cs) as [m w]. simpl in *.
  unfold ThreadSafeRedisManager.connected in Hc.
  destruct (_client m) as [c|] eqn:Ec; [|done].
  destruct (_executor m) as [q|] eqn:Eq; [|destruct Hpool as [H _]; discriminate (H eq_refl)].
  exists q. destruct (Hex q eq_refl) as [_ Hq].
  rewrite (load_keys_on_manager b m w c q) by done. cbn [fst snd].
  split; [done|]. split; [done|].
  split_and!; try (by destruct wait_scan); by intros; subst.
Qed.

Lemma page_load_reaches_redis_witness :
  exists q,
    _executor (fst (run_calls [call_connect "localhost" 6379 0 "" "" None])) = Some q /\
    fst (KeysBrowserOnManager._load_keys KeysBrowser.__init__
           (fst (run_calls [call_connect "localhost" 6379 0 "" "" None]))
           (snd (run_calls [call_connect "localhost" 6379 0 "" "" None]))
           (Done (0, ["user:1"])) (Done 1)) =
    KeysBrowser._load_keys KeysBrowser.__init__ true
      (reply (Done (0, ["user:1"]))) (reply (Done 1)).
Proof.
  destruct (page_load_reaches_redis [call_connect "localhost" 6379 0 "" "" None]
              KeysBrowser.__init__ (Done (0, ["user:1"])) (Done 1) eq_refl)
    as (q & Hq & Hb & _).
  exists q. split; [exact Hq|exact Hb].
Defined.

(** X13. After any sequence of calls on the manager that leaves it
    connected, choosing the database [index] in the browser when both
    [select] calls return records [index] on the manager, has selected
    it on the client and then on the raw client, and restarts the
    session: the scan that is handed to the pool starts at the cursor 0
    and keeps the pattern of the search before, and the key set is the
    page that it returns. When the first [select] raises, the exception
    leaves the slot: the browser and the manager stay as they were and
    nothing is handed to the pool. *)
Theorem db_change_restarts_session (cs : list call) (b : Browser) (index : Z)
    (keys : list string) (c : Z) (e : string) (sel_raw : option string)
    (wait_scan : task_end (Z * list string)) (wait_size : task_end Z)
    (Hc : ThreadSafeRedisManager.connected (fst (run_calls cs)) = true) :
  let m := fst (run_calls cs) in
  let w := snd (run_calls cs) in
  let '(ok, b1, m1, w1) :=
    KeysBrowserOnManager._on_db_change b m w index None None (Done (c, keys)) wait_size in
  let '(failed, b2, m2, w2) :=
    KeysBrowserOnManager._on_db_change b m w index (Some e) sel_raw wait_scan wait_size in
  exists cl rc q,
    _client m = Some cl /\ _raw_client m = Some rc /\ _executor m = Some q /\
    (ok = Returns tt /\
     m1 = with_db m index /\
     selected w1 = (client_id rc, index) :: (client_id cl, index) :: selected w /\
     submitted w1 =
       (q, cmd_dbsize, 30) :: (q, cmd_scan 0 (pattern b) 200, 30) :: submitted w /\
     _key_set b1 = list_to_set keys /\ cursor b1 = c /\ pattern b1 = pattern b) /\
    (failed = Raises (Other e) /\ b2 = b /\ m2 = m /\
     submitted w2 = submitted w /\
     selected w2 = (client_id cl, index) :: selected w).
Proof.
  cbv zeta. destruct (manager_inv_run_calls cs) as [Hraw Hpool _ _ _ _ Hex].
  destruct (run_calls cs) as [m w]. simpl in *.
  unfold ThreadSafeRedisManager.connected in Hc.
  destruct (_client m) as [cl|] eqn:Ec; [|done].
  destruct (_executor m) as [q|] eqn:Eq; [|destruct Hpool as [H _]; discriminate (H eq_refl)].
  destruct (_raw_client m) as [rc|] eqn:Er; [|destruct Hraw as [H _]; discriminate (H eq_refl)].
  destruct (Hex q eq_refl) as [_ Hq].
  unfold KeysBrowserOnManager._on_db_change, ThreadSafeRedisManager.connected,
    ThreadSafeRedisManager.select_db, KeysBrowserOnManager._refresh.
  rewrite Ec, Er. cbv iota.
  rewrite (load_keys_on_manager (KeysBrowser.reset b) _ _ cl q) by done.
  exists cl, rc, q.
  pose proof (load_keys_returned (KeysBrowser.reset b) c keys (reply wait_size)) as Hf.
  cbv zeta in Hf. destruct Hf as (Hset & Hcur & Hpat).
  cbn [reply] in *. split_and!; try done.
  - unfold with_db. by rewrite Ec, Er.
  - rewrite Hset. simpl. apply (right_id_L ∅ (∪)).
Qed.

Lemma db_change_restarts_session_witness :
  exists cl,
    _client (fst (run_calls [call_connect "localhost" 6379 0 "" "" None])) = Some cl.
Proof.
  pose proof (db_change_restarts_session
                [call_connect "localhost" 6379 0 "" "" None]
                KeysBrowser.__init__ 3 ["user:1"] 0 "NOAUTH" None
                (Done (0, [])) (Done 1) eq_refl) as H.
  cbv zeta in H. hnf in H. destruct H as (cl & rc & q & Hcl & _).
  exists cl. exact Hcl.
Defined.

(** ** [connection_store] *)

Section DictSet.
Context {V : Type}.
Implicit Types (d : dict V) (k s : string).

Lemma dict_get_set_eq k (v : V) d : dict_get k (dict_set k v d) = Some v.
Proof.
  unfold dict_set. destruct (dict_contains k d) eqn:E.
  - rewrite dict_get_update_eq. destruct (dict_get k d) eqn:Eg; [done|].
    apply dict_contains_get in Eg. congruence.
  - apply dict_get_add_eq. by apply dict_contains_get.
Qed.

Lemma dict_get_set_ne s k (v : V) d : s <> k -> dict_get s (dict_set k v d) = dict_get s d.
Proof.
  intros Hne. unfold dict_set. destruct (dict_contains k d).
  - by apply dict_get_update_ne.
  - by apply dict_get_add_ne.
Qed.

Lemma dict_contains_true k d : dict_contains k d = true <-> is_Some (dict_get k d).
Proof.
  destruct (dict_contains k d) eqn:E.
  - split; [|done]. intros _. destruct (dict_get k d) eqn:Eg; [done|].
    apply dict_contains_get in Eg. congruence.
  - apply dict_contains_get in E. rewrite E. split; [done|]. by intros [? ?].
Qed.

Lemma dict_contains_set k (v : V) d : dict_contains k (dict_set k v d) = true.
Proof. apply dict_contains_true. by rewrite dict_get_set_eq. Qed.

Lemma dict_contains_set_ne s k (v : V) d :
  s <> k -> dict_contains s (dict_set k v d) = dict_contains s d.
Proof.
  intros Hne. destruct (dict_contains s d) eqn:E.
  - apply dict_contains_true. rewrite dict_get_set_ne by done. by apply dict_contains_true.
  - apply dict_contains_get. rewrite dict_get_set_ne by done. by apply dict_contains_get.
Qed.

Lemma dict_get_pop_eq k d : dict_get k (dict_pop k d) = None.
Proof.
  unfold dict_pop. induction d as [|[k' v'] d IH]; simpl; [done|].
  destruct (String.eqb_spec k k') as [->|Hne]; simpl; [done|].
  by destruct (String.eqb_spec k k').
Qed.

Lemma dict_get_pop_ne s k d : s <> k -> dict_get s (dict_pop k d) = dict_get s d.
Proof.
  intros Hne. unfold dict_pop. induction d as [|[k' v'] d IH]; simpl; [done|].
  destruct (String.eqb_spec k k') as [->|Hne']; simpl.
  - rewrite IH. by destruct (String.eqb_spec s k').
  - by rewrite IH.
Qed.
End DictSet.

(** Reading a file that holds an object with the key ["connections"]. *)
Lemma read_all_holds d :
  dict_contains "connections" d = true ->
  connection_store._read_all (connection_store.Holds (JDict d)) = Returns (JDict d).
Proof. intros H. simpl. by rewrite H. Qed.

Lemma list_connections_holds d v :
  dict_get "connections" d = Some v ->
  connection_store.list_connections (connection_store.Holds (JDict d)) = Returns v.
Proof.
  intros H. unfold connection_store.list_connections.
  rewrite read_all_holds by (apply dict_contains_true; by rewrite H).
  by rewrite H.
Qed.

Lemma get_last_used_holds d :
  dict_contains "connections" d = true ->
  connection_store.get_last_used (connection_store.Holds (JDict d)) =
  Returns (default (JStr "") (dict_get "last_used" d)).
Proof.
  intros H. unfold connection_store.get_last_used. by rewrite read_all_holds.
Qed.

(** What [_read_all] returns has the key ["connections"] when it is a
    dict. *)
Lemma read_all_dict f d :
  connection_store._read_all f = Returns (JDict d) ->
  dict_contains "connections" d = true.
Proof.
  destruct f as [| | |[ | | | | |items|d']]; simpl; try done.
  - by intros [= <-].
  - by intros [= <-].
  - by destruct (contains_text "connections" s).
  - by destruct (existsb (is_str "connections") items).
  - destruct (dict_contains "connections" d') eqn:E; simpl; intros [= <-]; [done|].
    apply dict_contains_set.
Qed.

(** X14. [save_connection] whose write succeeds either raises and
    leaves the file as it was, which happens exactly when
    [list_connections] does not return a dict, or returns with a file
    from which [get_connection] gives back the saved configuration
    under its name, and what it gave before under every other name, and
    from which [get_last_used] gives what it gave before. *)
Theorem save_connection_round_trip (f : connection_store.File)
    (name other : string) (config : json) :
  match connection_store.save_connection name config f connection_store.Written with
  | (Returns _, f') =>
      (exists c, connection_store.list_connections f = Returns (JDict c)) /\
      connection_store.get_connection (JStr name) f' =
        Returns config /\
      (other <> name ->
       connection_store.get_connection (JStr other) f' =
       connection_store.get_connection (JStr other) f) /\
      connection_store.get_last_used f' = connection_store.get_last_used f
  | (Raises _, f') =>
      f' = f /\
      forall c, connection_store.list_connections f <> Returns (JDict c)
  end.
Proof.
  unfold connection_store.save_connection.
  destruct (connection_store._read_all f) as [v|e] eqn:Hr.
  2:{ split; [done|]. intros c. unfold connection_store.list_connections. by rewrite Hr. }
  destruct v as [ | | | | | |d];
    try (split; [done|]; intros c; unfold connection_store.list_connections;
         by rewrite Hr).
  pose proof (read_all_dict f d Hr) as Hd.
  destruct (dict_get "connections" d) as [v|] eqn:Hc.
  2:{ apply dict_contains_true in Hd. rewrite Hc in Hd. by destruct Hd. }
  assert (Hlist : connection_store.list_connections f = Returns v).
  { unfold connection_store.list_connections. by rewrite Hr, Hc. }
  destruct v as [ | | | | | |c];
    try (split; [done|]; intros c; by rewrite Hlist).
  cbn [connection_store._write_all].
  set (d' := dict_update "connections" (fun _ => JDict (dict_set name config c)) d).
  assert (Hd' : dict_get "connections" d' = Some (JDict (dict_set name config c))).
  { unfold d'. by rewrite dict_get_update_eq, Hc. }
  split; [by exists c|].
  unfold connection_store.get_connection.
  rewrite (list_connections_holds d' _ Hd'), Hlist.
  split; [|split].
  - by rewrite dict_get_set_eq.
  - intros Hne. by rewrite dict_get_set_ne.
  - rewrite get_last_used_holds by (apply dict_contains_true; by rewrite Hd').
    unfold connection_store.get_last_used. rewrite Hr. unfold d'.
    by rewrite dict_get_update_ne.
Qed.

(** X15. [delete_connection] whose write succeeds either raises and
    leaves the file as it was, or returns with a file in which the name
    has no configuration, every other name has the one it had, and the
    last used name is empty if it was the deleted name and what it was
    otherwise. *)
Theorem delete_connection_forgets (f : connection_store.File) (name other : string) :
  match connection_store.delete_connection name f connection_store.Written with
  | (Returns _, f') =>
      connection_store.get_connection (JStr name) f' = Returns JNull /\
      (other <> name ->
       connection_store.get_connection (JStr other) f' =
       connection_store.get_connection (JStr other) f) /\
      connection_store.get_last_used f' =
        match connection_store.get_last_used f with
        | Returns last => Returns (if is_str name last then JStr "" else last)
        | Raises e => Raises e
        end
  | (Raises _, f') => f' = f
  end.
Proof.
  unfold connection_store.delete_connection.
  destruct (connection_store._read_all f) as [v|e] eqn:Hr; [|done].
  destruct v as [ | | | | | |d]; try done.
  pose proof (read_all_dict f d Hr) as Hd.
  destruct (dict_get "connections" d) as [v|] eqn:Hc; [|done].
  assert (Hlist : connection_store.list_connections f = Returns v).
  { unfold connection_store.list_connections. by rewrite Hr, Hc. }
  destruct v as [ | | | | | |c]; try done.
  cbn [connection_store._write_all]. cbv zeta.
  set (d1 := dict_update "connections" (fun _ => JDict (dict_pop name c)) d).
  assert (Hlast1 : dict_get "last_used" d1 = dict_get "last_used" d).
  { unfold d1. by rewrite dict_get_update_ne. }
  assert (Hd1 : dict_get "connections" d1 = Some (JDict (dict_pop name c))).
  { unfold d1. by rewrite dict_get_update_eq, Hc. }
  set (d2 := if is_str name (default JNull (dict_get "last_used" d1))
             then dict_set "last_used" (JStr "") d1 else d1).
  assert (Hd2 : dict_get "connections" d2 = Some (JDict (dict_pop name c))).
  { unfold d2. destruct (is_str name _); [|done]. by rewrite dict_get_set_ne. }
  unfold connection_store.get_connection.
  rewrite (list_connections_holds d2 _ Hd2), Hlist.
  split; [|split].
  - by rewrite dict_get_pop_eq.
  - intros Hne. by rewrite dict_get_pop_ne.
  - rewrite get_last_used_holds by (apply dict_contains_true; by rewrite Hd2).
    unfold connection_store.get_last_used. rewrite Hr. f_equal.
    unfold d2. rewrite Hlast1.
    destruct (dict_get "last_used" d) as [last|] eqn:El; simpl.
    + destruct (is_str name last) eqn:Es; [by rewrite dict_get_set_eq|].
      by rewrite Hlast1.
    + rewrite Hlast1. by destruct name.
Qed.

(** X16. A missing file and a file that cannot be read or parsed are
    an empty store: no connections, the last used name empty, and the
    next save writes a file that holds the saved connection alone. A
    file that holds JSON other than an object ([null], a number, a
    string, a list) is not: every function of the store raises on it,
    and none of them writes. *)
Theorem unreadable_file_is_empty_but_other_json_raises (data : json)
    (name : string) (config : json) (wr : connection_store.write_end) :
  (forall f, f = connection_store.Missing \/ f = connection_store.Unreadable ->
     connection_store.list_connections f = Returns (JDict []) /\
     connection_store.get_connection (JStr name) f = Returns JNull /\
     connection_store.get_last_used f = Returns (JStr "") /\
     connection_store.save_connection name config f connection_store.Written =
       (Returns tt,
        connection_store.Holds
          (JDict [("connections", JDict [(name, config)]); ("last_used", JStr "")]))) /\
  ((forall d, data <> JDict d) ->
     let f := connection_store.Holds data in
     (exists e, connection_store.list_connections f = Raises e) /\
     (exists e, connection_store.get_connection (JStr name) f = Raises e) /\
     (exists e, connection_store.get_last_used f = Raises e) /\
     (exists e, connection_store.save_connection name config f wr = (Raises e, f)) /\
     (exists e, connection_store.delete_connection name f wr = (Raises e, f)) /\
     (exists e, connection_store.set_last_used name f wr = (Raises e, f))).
Proof.
  split.
  - by intros f [-> | ->].
  - intros Hnd. cbv zeta.
    unfold connection_store.get_connection, connection_store.list_connections,
      connection_store.get_last_used, connection_store.save_connection,
      connection_store.delete_connection, connection_store.set_last_used.
    destruct data as [ | | | | s|items|d]; [..|by destruct (Hnd d)];
      cbn [connection_store._read_all];
      try destruct (contains_text "connections" s);
      try destruct (existsb (is_str "connections") items);
      cbn [negb]; cbv iota; split_and!; eauto.
Qed.

(** ** The dialog and the start of the application *)

Lemma save_connection_returns name config f :
  fst (connection_store.save_connection name config f connection_store.Written) = Returns tt ->
  exists d c,
    dict_get "connections" d = Some (JDict c) /\
    snd (connection_store.save_connection name config f connection_store.Written) =
    connection_store.Holds
      (JDict (dict_update "connections" (fun _ => JDict (dict_set name config c)) d)).
Proof.
  unfold connection_store.save_connection.
  destruct (connection_store._read_all f) as [v|e]; [|done].
  destruct v as [ | | | | | |d]; try done.
  destruct (dict_get "connections" d) as [v|] eqn:Hc; [|done].
  destruct v as [ | | | | | |c]; try done.
  intros _. by exists d, c.
Qed.

Lemma set_last_used_holds name d v :
  dict_get "connections" d = Some v ->
  connection_store.set_last_used name (connection_store.Holds (JDict d))
    connection_store.Written =
  (Returns tt, connection_store.Holds (JDict (dict_set "last_used" (JStr name) d))).
Proof.
  intros H. unfold connection_store.set_last_used.
  rewrite read_all_holds by (apply dict_contains_true; by rewrite H). done.
Qed.

(** X17. A connection made through the dialog is the one that the
    application tries first when it starts again: after a [do_connect]
    under a non-empty name that signals success, [get_last_used] gives
    the name and [get_connection] the five values of the dialog; as
    keywords they bind the host, port, database, password and username
    of [connect] to those values, each to its own; and [try_connect]
    calls [connect] with this configuration, falling back to the
    defaults only if that call raises. *)
Theorem saved_connection_is_auto_connected {S : Type}
    (connect : json -> S -> bool * S) (connect_default : S -> bool * S) (s : S)
    (m : Manager) (w : World) (f : connection_store.File)
    (name host : string) (port db : Z) (username password : string)
    (Hname : name <> "")
    (Hok : fst (fst (fst (do_connect m w f name host port db username password None
                            connection_store.Written connection_store.Written)))
           = Returns tt) :
  let f' := snd (do_connect m w f name host port db username password None
                   connection_store.Written connection_store.Written) in
  let cfg := connection_store.make_config host port db username password in
  connection_store.get_last_used f' = Returns (JStr name) /\
  connection_store.get_connection (JStr name) f' = Returns cfg /\
  connect_kwargs cfg =
    Returns (JStr host, JInt port, JInt db, JStr password, JStr username) /\
  try_connect connect connect_default f' s =
    (let '(ok, s') := connect cfg s in if ok then (true, s') else connect_default s').
Proof.
  cbv zeta. revert Hok. unfold do_connect.
  cbn [ThreadSafeRedisManager.connect ThreadSafeRedisManager.fresh].
  set (cfg := connection_store.make_config host port db username password).
  destruct (connection_store.save_connection name cfg f connection_store.Written)
    as [[[]|e] f1] eqn:Hsave; [|done].
  pose proof (save_connection_returns name cfg f) as Hret.
  rewrite Hsave in Hret. destruct (Hret eq_refl) as (d & c & Hc & Hf1).
  cbn [snd] in Hf1. subst f1. intros _.
  set (d1 := dict_update "connections" (fun _ => JDict (dict_set name cfg c)) d).
  assert (Hd1 : dict_get "connections" d1 = Some (JDict (dict_set name cfg c))).
  { unfold d1. by rewrite dict_get_update_eq, Hc. }
  rewrite (set_last_used_holds name d1 _ Hd1). cbn [fst snd].
  set (d2 := dict_set "last_used" (JStr name) d1).
  assert (Hd2 : dict_get "connections" d2 = Some (JDict (dict_set name cfg c))).
  { unfold d2. by rewrite dict_get_set_ne. }
  assert (Hlast : connection_store.get_last_used (connection_store.Holds (JDict d2)) =
                  Returns (JStr name)).
  { rewrite get_last_used_holds by (apply dict_contains_true; by rewrite Hd2).
    unfold d2. by rewrite dict_get_set_eq. }
  assert (Hget : connection_store.get_connection (JStr name)
                   (connection_store.Holds (JDict d2)) = Returns cfg).
  { unfold connection_store.get_connection.
    rewrite (list_connections_holds d2 _ Hd2). by rewrite dict_get_set_eq. }
  split_and!; [done|done|done|].
  unfold try_connect. rewrite Hlast. cbn [truthy].
  apply String.eqb_neq in Hname. rewrite Hname. cbn [negb]. by rewrite Hget.
Qed.

Lemma saved_connection_is_auto_connected_witness :
  connection_store.get_connection (JStr "cache")
    (snd (do_connect ThreadSafeRedisManager.__init__ world0 connection_store.Missing
            "cache" "10.0.0.5" 6380 2 "app" "secret" None
            connection_store.Written connection_store.Written)) =
  Returns (connection_store.make_config "10.0.0.5" 6380 2 "app" "secret").
Proof.
  assert (Hname : "cache" <> "") by done.
  pose proof (saved_connection_is_auto_connected
                (fun (_ : json) (s : unit) => (true, s)) (fun s : unit => (false, s)) tt
                ThreadSafeRedisManager.__init__ world0 connection_store.Missing
                "cache" "10.0.0.5" 6380 2 "app" "secret" Hname eq_refl) as H.
  cbv zeta in H. destruct H as (_ & H & _). exact H.
Defined.

(** X18. What the dialog signals and what the manager holds can differ.
    When the probe of [do_connect] succeeds, the manager ends connected
    to the target of the dialog whatever the signal is; the signal is
    [connect_success] exactly when both the save and the recording of
    the last used name returned, and [connect_error] otherwise, then
    with an exception of the store. When the probe fails, the signal is
    [connect_error] with the [ConnectionError], and the manager and the
    file stay as they were. *)
Theorem do_connect_signal (m : Manager) (w : World) (f : connection_store.File)
    (name h : string) (p d : Z) (u pw : string)
    (ping : option string) (wr_save wr_last : connection_store.write_end) :
  let result := do_connect m w f name h p d u pw ping wr_save wr_last in
  let signal := fst (fst (fst result)) in
  let m' := snd (fst (fst result)) in
  let f' := snd result in
  let saved :=
    connection_store.save_connection name
      (connection_store.make_config h p d u pw) f wr_save in
  match ping with
  | None =>
      ThreadSafeRedisManager.connected m' = true /\
      (host m', port m', db m', password m', username m') = (h, p, d, pw, u) /\
      (signal = Returns tt <->
       fst saved = Returns tt /\
       fst (connection_store.set_last_used name (snd saved) wr_last) = Returns tt) /\
      (forall e, signal = Raises e -> exists e', e = inr e')
  | Some text =>
      signal = Raises (inl (ConnectionError
                              ("Failed to connect to " +:+ h +:+ ":"
                               +:+ str_of_int p +:+ ": " +:+ text))) /\
      m' = m /\ f' = f
  end.
Proof.
  cbv zeta. unfold do_connect.
  destruct ping as [text|];
    cbn [ThreadSafeRedisManager.connect ThreadSafeRedisManager.fresh]; [done|].
  destruct (connection_store.save_connection name _ f wr_save) as [[[]|e] f1];
    cbn [fst snd].
  - destruct (connection_store.set_last_used name f1 wr_last) as [[[]|e] f2];
      cbn [fst snd]; (split; [done|]); (split; [done|]); split.
    + done.
    + intros e0 [=].
    + split; [done|]. by intros [_ [=]].
    + intros e0 [= <-]. by exists e.
  - (split; [done|]); (split; [done|]); split.
    + split; [done|]. by intros [[=] _].
    + intros e0 [= <-]. by exists e.
Qed.

(** ** [Terminal]: the history *)

Lemma py_index_in_range {A} (l : list A) (i : Z) :
  0 <= i < Z.of_nat (length l) -> py_index l i = l !! Z.to_nat i.
Proof.
  intros H. unfold py_index.
  assert ((0 <=? i) = true) as -> by lia.
  assert ((i <? Z.of_nat (length l)) = true) as -> by lia. done.
Qed.

Lemma py_index_is_Some {A} (l : list A) (i : Z) :
  0 <= i < Z.of_nat (length l) -> is_Some (py_index l i).
Proof.
  intros H. rewrite py_index_in_range by done. apply lookup_lt_is_Some. lia.
Qed.

Lemma history_inv_step t ev :
  history_inv t -> exists t', terminal_step t ev = Some t' /\ history_inv t'.
Proof.
  intros Ht. pose proof Ht as (Hr & Hm & Hne).
  destruct ev as [text|connected result| | |]; simpl.
  - eexists. split; [done|]. exact Ht.
  - eexists. split; [done|]. unfold Terminal._execute.
    destruct (String.eqb_spec (strip (cmd_input t)) "") as [He|He]; [done|].
    assert (Hinv : forall out,
               history_inv
                 (mkTerminal (cmd_history t ++ [strip (cmd_input t)])
                    (Z.of_nat (length (cmd_history t ++ [strip (cmd_input t)]))) ""
                    out)).
    { intros out. unfold history_inv. cbn [cmd_history history_index].
      split; [lia|]. split.
      - rewrite length_app. simpl. lia.
      - apply Forall_app. split; [done|]. by constructor. }
    destruct connected; [destruct result|]; apply Hinv.
  - unfold Terminal._history_up.
    destruct (match cmd_history t with [] => false | _ => true end
              && (0 <? history_index t)) eqn:Eup;
      [|exists t; by split].
    apply andb_true_iff in Eup as [Hh Hp]. apply Z.ltb_lt in Hp.
    destruct (py_index_is_Some (cmd_history t) (history_index t - 1)) as [cmd Hcmd];
      [lia|].
    rewrite Hcmd. eexists. split; [done|].
    unfold history_inv. cbn [cmd_history history_index].
    split; [lia|]. split; [lia|done].
  - unfold Terminal._history_down.
    destruct (Z.ltb_spec (history_index t) (Z.of_nat (length (cmd_history t)) - 1))
      as [Hp|Hp].
    + destruct (py_index_is_Some (cmd_history t) (history_index t + 1)) as [cmd Hcmd];
        [lia|].
      rewrite Hcmd. eexists. split; [done|].
      unfold history_inv. cbn [cmd_history history_index].
      split; [lia|]. split; [lia|done].
    + eexists. split; [done|].
      unfold history_inv. cbn [cmd_history history_index].
      split; [lia|]. split; [|done].
      intros Hz. destruct (cmd_history t); [done|]. simpl in Hz. lia.
  - eexists. split; [done|]. exact Ht.
Qed.

Lemma history_inv_run evs t :
  history_inv t -> exists t', terminal_run t evs = Some t' /\ history_inv t'.
Proof.
  revert t. induction evs as [|ev evs IH]; intros t Ht; simpl; [by exists t|].
  destruct (history_inv_step t ev Ht) as (t1 & -> & Ht1). by apply IH.
Qed.

Lemma history_inv_init : history_inv Terminal.__init__.
Proof. split_and!; simpl; try lia; try done. Qed.

(** X19. Whatever the user does in the console (editing the input,
    sending it, pressing Up or Down, clearing the output), no lookup in
    the history is out of range, nor does one count from the end: the
    position is -1 only while the history is empty and otherwise lies
    between 0 and the length of the history, and Up and Down read the
    history only at a position from 0 to the length less one. No entry
    of the history is blank. *)
Theorem history_lookup_in_range (evs : list terminal_event) :
  exists t,
    terminal_run Terminal.__init__ evs = Some t /\
    -1 <= history_index t <= Z.of_nat (length (cmd_history t)) /\
    (history_index t = -1 -> cmd_history t = []) /\
    Forall (fun cmd => cmd <> "") (cmd_history t) /\
    (forall t', Terminal._history_up t = Some t' ->
       t' = t \/
       (0 <= history_index t' < Z.of_nat (length (cmd_history t)) /\
        cmd_history t !! Z.to_nat (history_index t') = Some (cmd_input t'))) /\
    (forall t', Terminal._history_down t = Some t' ->
       (history_index t' = Z.of_nat (length (cmd_history t)) /\ cmd_input t' = "") \/
       (0 <= history_index t' < Z.of_nat (length (cmd_history t)) /\
        cmd_history t !! Z.to_nat (history_index t') = Some (cmd_input t'))).
Proof.
  destruct (history_inv_run evs _ history_inv_init) as (t & Hrun & Hr & Hm & Hne).
  exists t. split_and!; try done; try lia.
  - intros t'. unfold Terminal._history_up.
    destruct (cmd_history t) as [|c h] eqn:Eh; simpl; [intros [= <-]; by left|].
    destruct (Z.ltb_spec 0 (history_index t)) as [Hp|Hp]; [|intros [= <-]; by left].
    rewrite py_index_in_range by (simpl in *; lia).
    destruct ((c :: h) !! Z.to_nat (history_index t - 1)) as [cmd|] eqn:El; [|done].
    intros [= <-]. right. simpl in *. split; [lia|done].
  - intros t'. unfold Terminal._history_down.
    destruct (Z.ltb_spec (history_index t) (Z.of_nat (length (cmd_history t)) - 1))
      as [Hp|Hp].
    + rewrite py_index_in_range by lia.
      destruct (cmd_history t !! Z.to_nat (history_index t + 1)) as [cmd|] eqn:El; [|done].
      intros [= <-]. right. simpl. split; [lia|done].
    + intros [= <-]. by left.
Qed.

Lemma terminal_run_app t evs1 evs2 :
  terminal_run t (evs1 ++ evs2) =
  match terminal_run t evs1 with
  | Some t' => terminal_run t' evs2
  | None => None
  end.
Proof.
  revert t. induction evs1 as [|ev evs1 IH]; intros t; simpl; [done|].
  destruct (terminal_step t ev); [apply IH|done].
Qed.

(** [k] times Up from a position that is at least [k]. *)
Lemma history_ups (k : nat) t :
  Z.of_nat k <= history_index t <= Z.of_nat (length (cmd_history t)) ->
  exists t',
    terminal_run t (replicate k te_up) = Some t' /\
    cmd_history t' = cmd_history t /\
    history_index t' = history_index t - Z.of_nat k /\
    ((1 <= k)%nat ->
     cmd_history t !! Z.to_nat (history_index t - Z.of_nat k) = Some (cmd_input t')).
Proof.
  revert t. induction k as [|k IH]; intros t Hk.
  - exists t. simpl. split_and!; [done|done|lia|lia].
  - cbn [replicate terminal_run terminal_step]. unfold Terminal._history_up.
    assert (match cmd_history t with [] => false | _ => true end = true) as ->.
    { destruct (cmd_history t); [simpl in Hk; lia|done]. }
    assert ((0 <? history_index t) = true) as -> by lia.
    cbn [andb]. rewrite py_index_in_range by lia.
    destruct (lookup_lt_is_Some_2 (cmd_history t) (Z.to_nat (history_index t - 1)))
      as [cmd Hcmd]; [lia|].
    rewrite Hcmd.
    set (t1 := mkTerminal (cmd_history t) (history_index t - 1) cmd (output_labels t)).
    destruct (IH t1) as (t' & Hrun & Hh & Hi & Hin); [simpl; lia|].
    exists t'. simpl in Hh, Hi. split_and!; [done|done|lia|].
    intros _. destruct k as [|k].
    + simpl in Hrun. injection Hrun as <-. simpl.
      by replace (history_index t - Z.of_nat 1) with (history_index t - 1) by lia.
    + rewrite <- Hin by lia. simpl. f_equal. f_equal. lia.
Qed.

(** Up at the oldest entry changes nothing. *)
Lemma history_ups_at_oldest (k : nat) t :
  history_index t = 0 -> terminal_run t (replicate k te_up) = Some t.
Proof.
  intros Hz. induction k as [|k IH]; [done|].
  cbn [replicate terminal_run terminal_step]. unfold Terminal._history_up.
  rewrite Hz. by rewrite andb_false_r.
Qed.

(** [j] times Down while the position stays below the newest entry. *)
Lemma history_downs (j : nat) t :
  0 <= history_index t ->
  history_index t + Z.of_nat j <= Z.of_nat (length (cmd_history t)) - 1 ->
  exists t',
    terminal_run t (replicate j te_down) = Some t' /\
    cmd_history t' = cmd_history t /\
    history_index t' = history_index t + Z.of_nat j /\
    output_labels t' = output_labels t.
Proof.
  revert t. induction j as [|j IH]; intros t H0 Hj.
  - exists t. simpl. split_and!; [done|done|lia|done].
  - cbn [replicate terminal_run terminal_step]. unfold Terminal._history_down.
    assert ((history_index t <? Z.of_nat (length (cmd_history t)) - 1) = true) as -> by lia.
    rewrite py_index_in_range by lia.
    destruct (lookup_lt_is_Some_2 (cmd_history t) (Z.to_nat (history_index t + 1)))
      as [cmd Hcmd]; [lia|].
    rewrite Hcmd.
    set (t1 := mkTerminal (cmd_history t) (history_index t + 1) cmd (output_labels t)).
    destruct (IH t1) as (t' & Hrun & Hh & Hi & Ho); [simpl; lia|simpl; lia|].
    exists t'. simpl in Hh, Hi, Ho. split_and!; [done|done|lia|done].
Qed.

(** X20. From any state of the console, a command of ASCII text that
    is sent and is not blank becomes the newest entry of the history,
    stripped, and the input is cleared. From there, pressing Up [k]
    times, for [k] up to the length of the history, shows the [k]-th
    newest entry, and pressing Down [k] times after that clears the
    input again; pressing Up more often than there are entries shows
    the oldest entry. *)
Theorem history_up_recalls (t0 : TerminalState) (text : string)
    (connected : bool) (result : outcome string Result) (k : nat)
    (Hascii : is_ascii text = true)
    (Htext : strip text <> "") :
  exists t,
    terminal_run t0 [te_edit text; te_execute connected result] = Some t /\
    cmd_history t = cmd_history t0 ++ [strip text] /\
    cmd_input t = "" /\
    history_index t = Z.of_nat (length (cmd_history t)) /\
    ((1 <= k <= length (cmd_history t))%nat ->
     exists t' t'',
       terminal_run t (replicate k te_up) = Some t' /\
       reverse (cmd_history t) !! (k - 1)%nat = Some (cmd_input t') /\
       terminal_run t' (replicate k te_down) = Some t'' /\
       cmd_input t'' = "" /\
       history_index t'' = history_index t /\
       cmd_history t'' = cmd_history t) /\
    ((length (cmd_history t) <= k)%nat ->
     exists t',
       terminal_run t (replicate k te_up) = Some t' /\
       head (cmd_history t) = Some (cmd_input t')).
Proof.
  cbn [terminal_run terminal_step]. unfold Terminal._execute.
  cbn [cmd_input cmd_history output_labels].
  apply String.eqb_neq in Htext. rewrite Htext.
  set (h := cmd_history t0 ++ [strip text]).
  assert (Hlen : (1 <= length h)%nat).
  { unfold h. rewrite length_app. simpl. lia. }
  assert (Hshape : exists out,
             (if negb connected
              then Terminal._append_output "Not connected to Redis" "#f44747"
                     (Terminal._append_output ("> " +:+ strip text) "#569cd6"
                        (mkTerminal h (Z.of_nat (length h)) "" (output_labels t0)))
              else match result with
                   | Returns r =>
                       Terminal._append_output (Terminal._format_result r) "#6a9955"
                         (Terminal._append_output ("> " +:+ strip text) "#569cd6"
                            (mkTerminal h (Z.of_nat (length h)) "" (output_labels t0)))
                   | Raises e =>
                       Terminal._append_output ("(error) " +:+ e) "#f44747"
                         (Terminal._append_output ("> " +:+ strip text) "#569cd6"
                            (mkTerminal h (Z.of_nat (length h)) "" (output_labels t0)))
                   end) = mkTerminal h (Z.of_nat (length h)) "" out).
  { destruct connected; [destruct result|]; by eexists. }
  destruct Hshape as [out ->].
  set (t := mkTerminal h (Z.of_nat (length h)) "" out).
  exists t. split; [done|]. split; [done|]. split; [done|]. split; [done|].
  split.
  - intros Hk. change (cmd_history t) with h in Hk |- *.
    change (history_index t) with (Z.of_nat (length h)).
    destruct (history_ups k t) as (t' & Hup & Hh & Hi & Hin); [unfold t; simpl; lia|].
    unfold t in Hh, Hi, Hin. simpl in Hh, Hi, Hin.
    destruct (history_downs (k - 1) t') as (t1 & Hdown & Hh1 & Hi1 & _).
    { rewrite Hi. lia. }
    { rewrite Hh, Hi. lia. }
    exists t'. eexists. split; [done|]. split.
    { rewrite reverse_lookup by lia. rewrite <- Hin by lia. f_equal. lia. }
    replace k with ((k - 1) + 1)%nat at 1 by lia.
    rewrite replicate_add, terminal_run_app, Hdown.
    cbn [replicate terminal_run terminal_step]. unfold Terminal._history_down.
    assert ((history_index t1 <? Z.of_nat (length (cmd_history t1)) - 1) = false) as ->.
    { rewrite Hh1, Hh, Hi1, Hi. apply Z.ltb_ge. lia. }
    split; [done|]. cbn [cmd_input history_index cmd_history].
    rewrite Hh1, Hh. done.
  - intros Hk. change (cmd_history t) with h in Hk |- *.
    destruct (history_ups (length h) t) as (t' & Hup & Hh & Hi & Hin);
      [unfold t; simpl; lia|].
    unfold t in Hh, Hi, Hin. simpl in Hh, Hi, Hin.
    exists t'. split.
    + replace k with (length h + (k - length h))%nat by lia.
      rewrite replicate_add, terminal_run_app, Hup.
      apply history_ups_at_oldest. lia.
    + specialize (Hin Hlen). rewrite Z.sub_diag in Hin. simpl in Hin.
      by rewrite head_lookup.
Qed.

Lemma history_up_recalls_witness :
  is_ascii " GET a " = true /\ strip " GET a " <> "" /\
  exists t,
    terminal_run Terminal.__init__ [te_edit " GET a "; te_execute false (Raises "")]
      = Some t /\
    cmd_history t = cmd_history Terminal.__init__ ++ [strip " GET a "].
Proof.
  assert (Htext : strip " GET a " <> "") by (vm_compute; discriminate).
  split; [reflexivity|]. split; [exact Htext|].
  destruct (history_up_recalls Terminal.__init__ " GET a " false (Raises "") 1
              eq_refl Htext)
    as (t & Hrun & Hhist & _).
  exists t. split; [exact Hrun|exact Hhist].
Defined.

(** ** [Terminal]: the text of a reply *)

Lemma dict_lines_as_list_lines (fmt : Result -> string) (idx : Z)
    (d : list (string * Result)) :
  (forall k, fmt (RStr k) = quote +:+ k +:+ quote) ->
  dict_lines fmt idx d =
  list_lines fmt idx (flat_map (fun kv => [RStr (fst kv); snd kv]) d).
Proof.
  intros Hfmt. revert idx. induction d as [|[k v] d IH]; intros idx; [done|].
  cbn [dict_lines flat_map app list_lines fst snd]. rewrite Hfmt, IH.
  by replace (idx + 1 + 1) with (idx + 2) by lia.
Qed.

(** X21. A dict reply that is not empty is printed exactly like the
    flat list of its keys and values in turn, the keys as strings: the
    lines are numbered through from 1, two for each entry. The empty
    dict is printed as the empty text, the empty list as
    ["(empty list or set)"]. *)
Theorem format_dict_as_flat_list (d : list (string * Result)) (Hd : d <> []) :
  Terminal._format_result (RDict d) =
    Terminal._format_result (RList (flat_map (fun kv => [RStr (fst kv); snd kv]) d)) /\
  length (dict_lines Terminal._format_result 1 d) = (2 * length d)%nat /\
  Terminal._format_result (RDict []) = "" /\
  Terminal._format_result (RList []) = "(empty list or set)".
Proof.
  split_and!; [|clear Hd|done|done].
  - destruct d as [|[k v] d]; [done|].
    cbn [Terminal._format_result]. rewrite dict_lines_as_list_lines by done.
    done.
  - generalize 1. induction d as [|[k v] d IH]; intros idx; [done|].
    cbn [dict_lines length]. rewrite IH. lia.
Qed.

Lemma format_dict_as_flat_list_witness :
  Terminal._format_result (RDict [("name", RStr "a"); ("age", RInt 3)]) =
  Terminal._format_result (RList [RStr "name"; RStr "a"; RStr "age"; RInt 3]).
Proof.
  assert (Hd : [("name", RStr "a"); ("age", RInt 3)] <> []) by done.
  exact (proj1 (format_dict_as_flat_list [("name", RStr "a"); ("age", RInt 3)] Hd)).
Defined.
